(** * SemDomCrowdin: translation-unit extraction, differencing and anomaly
    classification over XLIFF documents.

    Shallow embedding of [compare_xlf.py], [extract_xlf.py],
    [comma_lists.py], [find_identical_translations.py], [count_in_xlf.py]
    and [sort_comparisons.py].

    Text is modelled as [string]: a sequence of characters with code point
    below 256.  An XML document is the tree that [xml.etree.ElementTree]
    builds: every node carries its tag (written [{uri}local] when the
    element is in a namespace), its attribute dictionary, its text, its
    children in document order and its tail. *)

From Stdlib Require Import String Ascii List Bool Arith ZArith Lia Sorted
  DecimalString.
From stdpp Require Import base option list gmap sets strings.

Set Warnings "-clear-no-such-hyp".

Import ListNotations.
Local Open Scope string_scope.
Local Open Scope list_scope.

(** ** Python string operations used by the scripts *)

Module PyStr.

(** [s.startswith(p)] *)
Definition startswith (s p : string) : bool := String.prefix p s.

(** [s.endswith(suf)]: some tail of [s] is [suf]. *)
Fixpoint endswith (s suf : string) : bool :=
  if String.eqb s suf then true
  else match s with
       | EmptyString => false
       | String _ s' => endswith s' suf
       end.

(** [sub in s]: [sub] starts at some position of [s]. *)
Fixpoint contains (sub s : string) : bool :=
  if String.prefix sub s then true
  else match s with
       | EmptyString => false
       | String _ s' => contains sub s'
       end.

(** [s.index(c)] for a one-character [c]; [None] stands for ValueError. *)
Fixpoint index (c : ascii) (s : string) : option nat :=
  match s with
  | EmptyString => None
  | String a s' => if Ascii.eqb a c then Some 0 else S <$> index c s'
  end.

(** [s[i:j]] for [i <= j]. *)
Definition slice (i j : nat) (s : string) : string := substring i (j - i) s.

(** [s.split(sep)] for a one-character separator: always at least one
    piece, the empty string splits to one empty piece. *)
Fixpoint split (sep : ascii) (s : string) : list string :=
  match s with
  | EmptyString => [EmptyString]
  | String a s' =>
    if Ascii.eqb a sep then EmptyString :: split sep s'
    else match split sep s' with
         | p :: ps => String a p :: ps
         | [] => [String a EmptyString]
         end
  end.

(** [c.isspace()] on code points below 256. *)
Definition isspace (c : ascii) : bool :=
  let n := nat_of_ascii c in
  (Nat.leb 9 n && Nat.leb n 13) || (Nat.leb 28 n && Nat.leb n 32)
  || Nat.eqb n 133 || Nat.eqb n 160.

Fixpoint lstrip (s : string) : string :=
  match s with
  | EmptyString => EmptyString
  | String a s' => if isspace a then lstrip s' else s
  end.

Fixpoint rstrip (s : string) : string :=
  match s with
  | EmptyString => EmptyString
  | String a s' =>
    let r := rstrip s' in
    if isspace a && String.eqb r EmptyString then EmptyString
    else String a r
  end.

(** [s.strip()] *)
Definition strip (s : string) : string := rstrip (lstrip s).

(** [s.replace(old, new)] for a non-empty [old]: occurrences are replaced
    from the left and do not overlap; [skip] counts the characters of the
    occurrence just replaced that are still to be passed over. *)
Fixpoint replace_from (old new : string) (skip : nat) (s : string) : string :=
  match s with
  | EmptyString => EmptyString
  | String a s' =>
    match skip with
    | S k => replace_from old new k s'
    | O =>
      if String.prefix old s
      then new +:+ replace_from old new (String.length old - 1) s'
      else String a (replace_from old new 0 s')
    end
  end.

Definition replace (old new s : string) : string := replace_from old new 0 s.

(** [''.join(pieces)] *)
Definition join (pieces : list string) : string :=
  fold_right String.append EmptyString pieces.

(** [c.isdigit()] as the regular expression class [\d] sees it on code
    points below 256. *)
Definition isdigit (c : ascii) : bool :=
  let n := nat_of_ascii c in Nat.leb 48 n && Nat.leb n 57.

End PyStr.

(** ** The ElementTree document model *)

#[warnings="-register-all"]
Inductive Element : Type :=
  Elem (tag : string) (attrib : gmap string string) (text : option string)
       (children : list Element) (tail : option string).

Definition tag (e : Element) : string :=
  match e with Elem t _ _ _ _ => t end.
Definition attrib (e : Element) : gmap string string :=
  match e with Elem _ a _ _ _ => a end.
Definition text (e : Element) : option string :=
  match e with Elem _ _ x _ _ => x end.
Definition children (e : Element) : list Element :=
  match e with Elem _ _ _ cs _ => cs end.
Definition tail (e : Element) : option string :=
  match e with Elem _ _ _ _ x => x end.

Module ET.

(** [e.get(key, default)] *)
Definition get (e : Element) (key default : string) : string :=
  match attrib e !! key with
  | Some v => v
  | None => default
  end.

(** [e.get(key)]: [None] when the attribute is absent. *)
Definition get_opt (e : Element) (key : string) : option string :=
  attrib e !! key.

(** [e.iter()]: the element, then its subtree in document order. *)
Fixpoint iter (e : Element) : list Element :=
  match e with
  | Elem _ _ _ cs _ => e :: flat_map iter cs
  end.

(** The strict descendants of [e] in document order. *)
Definition descendants (e : Element) : list Element :=
  flat_map iter (children e).

(** How ElementPath compares a step [pattern] with an element's tag: a
    pattern [{*}name] selects [name] in any namespace or in none, any
    other pattern the scripts build selects the equal tag. *)
Definition selects (pattern t : string) : bool :=
  if String.eqb (substring 0 3 pattern) "{*}"
  then String.eqb t (substring 3 (String.length pattern - 3) pattern)
       || PyStr.endswith t (substring 2 (String.length pattern - 2) pattern)
  else String.eqb t pattern.

(** [e.findall('.//' + pattern)] *)
Definition findall_descendants (pattern : string) (e : Element) : list Element :=
  List.filter (fun d => selects pattern (tag d)) (descendants e).

(** [e.find(pattern)]: the first direct child the pattern selects. *)
Definition find (pattern : string) (e : Element) : option Element :=
  List.find (fun c => selects pattern (tag c)) (children e).

Definition truthy (o : option string) : string :=
  match o with
  | Some s => s
  | None => EmptyString
  end.

(** [''.join(e.itertext())] *)
Fixpoint inner_text (e : Element) : string :=
  match e with
  | Elem _ _ x cs _ =>
    truthy x +:+
    PyStr.join (List.map (fun c => inner_text c +:+ truthy (tail c)) cs)
  end.

End ET.

(** [extract_text(element)], the same in every script. *)
Definition extract_text (element : option Element) : string :=
  match element with
  | None => EmptyString
  | Some e => PyStr.strip (ET.inner_text e)
  end.

(** ** Namespace handling shared by the scripts

    [namespaces = {'xliff': uri}] together with the flag [use_ns]. *)

Record Namespaces : Type := { use_ns : bool; xliff : string }.

(** A raised exception that nothing catches, or [sys.exit(1)]. *)
Inductive Outcome (A : Type) : Type :=
| Returned (a : A)
| SysExit
| Uncaught (exn : string).
Arguments Returned {A} a.
Arguments SysExit {A}.
Arguments Uncaught {A} exn.

(** The prefixed name [xliff:local] as ElementPath expands it. *)
Definition qualified (uri local : string) : string :=
  "{" +:+ uri +:+ "}" +:+ local.

(** [if root.tag.startswith('{'): ns_uri = root.tag[1:root.tag.index('}')]] *)
Definition detect_namespace (default_uri : string) (root : Element)
  : Outcome Namespaces :=
  if PyStr.startswith (tag root) "{" then
    match PyStr.index "}"%char (tag root) with
    | Some i => Returned {| use_ns := true; xliff := PyStr.slice 1 i (tag root) |}
    | None => Uncaught "ValueError"
    end
  else Returned {| use_ns := false; xliff := default_uri |}.

(** [root.findall('.//xliff:local', namespaces)] or [root.findall('.//local')] *)
Definition findall_ns (ns : Namespaces) (local : string) (e : Element)
  : list Element :=
  if use_ns ns then ET.findall_descendants (qualified (xliff ns) local) e
  else ET.findall_descendants local e.

(** [e.find('xliff:local', namespaces)] or [e.find('local')] *)
Definition find_ns (ns : Namespaces) (local : string) (e : Element)
  : option Element :=
  if use_ns ns then ET.find (qualified (xliff ns) local) e
  else ET.find local e.

(** A semantic-domain group has a direct child whose tag contains [guid]. *)
Definition has_guid (group : Element) : bool :=
  existsb (fun child => PyStr.contains "guid" (tag child)) (children group).

Definition target_groups (ns : Namespaces) (root : Element) : list Element :=
  List.filter has_guid (findall_ns ns "group" root).

(** ** Effective children of a group ([compare_xlf.py], [extract_xlf.py]) *)

(** One turn of the loop [for child in children] that builds [trans_units]. *)
Definition collect_child (ns : Namespaces) (trans_units : list Element)
    (child : Element) : list Element :=
  let child_id := ET.get child "id" "" in
  if PyStr.endswith (tag child) "group" && PyStr.contains "_SubPos" child_id
  then trans_units
  else if PyStr.endswith (tag child) "trans-unit"
  then trans_units ++ [child]
  else if PyStr.endswith (tag child) "group"
  then trans_units ++ findall_ns ns "trans-unit" child
  else trans_units.

Definition effective_units (ns : Namespaces) (group : Element) : list Element :=
  fold_left (collect_child ns) (children group) [].

(** ** Snapshot resolution ([compare_xlf.parse_xlf_file]) *)

Record GroupData : Type := {
  abbr : string;
  name_source : string;
  name_target : string;
  name_target_state : string;
  desc_source : string;
  desc_target : string;
  desc_target_state : string
}.

Definition empty_group_data : GroupData :=
  {| abbr := ""; name_source := ""; name_target := ""; name_target_state := "";
     desc_source := ""; desc_target := ""; desc_target_state := "" |}.

#[global] Instance GroupData_inhabited : Inhabited GroupData :=
  populate empty_group_data.

(** [target_elem.get('state', '') if target_elem is not None else ''] *)
Definition state_of (target_elem : option Element) : string :=
  match target_elem with
  | Some t => ET.get t "state" ""
  | None => ""
  end.

(** The target text a snapshot keeps. *)
Definition suppressed_text (target_state : string) (target_elem : option Element)
  : string :=
  if String.eqb target_state "needs-translation" then ""
  else extract_text target_elem.

(** One turn of the loop [for trans_unit in trans_units]. *)
Definition resolve_unit (ns : Namespaces) (group_data : GroupData)
    (trans_unit : Element) : GroupData :=
  let unit_id := ET.get trans_unit "id" "" in
  let source_elem := find_ns ns "source" trans_unit in
  let target_elem := find_ns ns "target" trans_unit in
  if PyStr.endswith unit_id "_Abbr" then
    {| abbr := extract_text source_elem;
       name_source := name_source group_data;
       name_target := name_target group_data;
       name_target_state := name_target_state group_data;
       desc_source := desc_source group_data;
       desc_target := desc_target group_data;
       desc_target_state := desc_target_state group_data |}
  else if PyStr.endswith unit_id "_Name" then
    let target_state := state_of target_elem in
    {| abbr := abbr group_data;
       name_source := extract_text source_elem;
       name_target := suppressed_text target_state target_elem;
       name_target_state := target_state;
       desc_source := desc_source group_data;
       desc_target := desc_target group_data;
       desc_target_state := desc_target_state group_data |}
  else if PyStr.endswith unit_id "_Desc_0" then
    let target_state := state_of target_elem in
    {| abbr := abbr group_data;
       name_source := name_source group_data;
       name_target := name_target group_data;
       name_target_state := name_target_state group_data;
       desc_source := extract_text source_elem;
       desc_target := suppressed_text target_state target_elem;
       desc_target_state := target_state |}
  else group_data.

Definition resolve_group (ns : Namespaces) (group : Element) : GroupData :=
  fold_left (resolve_unit ns) (effective_units ns group) empty_group_data.

(** One turn of the loop [for group in target_groups]: the dictionary [data]
    and the list [group_order]. *)
Definition record_group (ns : Namespaces)
    (acc : gmap string GroupData * list string) (group : Element)
  : gmap string GroupData * list string :=
  let group_id := ET.get group "id" "" in
  (<[group_id := resolve_group ns group]> (acc.1), acc.2 ++ [group_id]).

Definition resolve (ns : Namespaces) (root : Element)
  : gmap string GroupData * list string :=
  fold_left (record_group ns) (target_groups ns root) (∅, []).

(** [parse_xlf_file(input_file)]; [input_file] is what [ET.parse] gives,
    [None] when it raises. *)
Definition parse_xlf_file (input_file : option Element)
  : Outcome (gmap string GroupData * list string) :=
  match input_file with
  | None => SysExit
  | Some root =>
    match detect_namespace "http://www.w3.org/2001/xliff" root with
    | Returned ns => Returned (resolve ns root)
    | SysExit => SysExit
    | Uncaught exn => Uncaught exn
    end
  end.

(** ** Differencing ([compare_xlf.compare_files]) *)

Inductive CompareType : Type := CompareName | CompareDescription.

(** The dictionary [change_data]; a key that is not set is [None]. *)
Record ChangeData : Type := {
  ch_abbr : string;
  ch_name_source : string;
  ch_desc_source : option string;
  content_before : string;
  content_after : string;
  state_before : option string;
  state_after : option string
}.

Definition tracked_target (compare_type : CompareType) (d : GroupData) : string :=
  match compare_type with
  | CompareName => name_target d
  | CompareDescription => desc_target d
  end.

Definition tracked_state (compare_type : CompareType) (d : GroupData) : string :=
  match compare_type with
  | CompareName => name_target_state d
  | CompareDescription => desc_target_state d
  end.

(** One turn of the loop [for group_id in order2]. *)
Definition compare_group (data1 data2 : gmap string GroupData)
    (common_groups : gset string) (compare_type : CompareType)
    (include_state : bool) (changes : list ChangeData) (group_id : string)
  : list ChangeData :=
  if decide (group_id ∈ common_groups) then
    let d1 := data1 !!! group_id in
    let d2 := data2 !!! group_id in
    match compare_type with
    | CompareName =>
      let content_changed := negb (String.eqb (name_target d1) (name_target d2)) in
      let state_changed :=
        if include_state
        then negb (String.eqb (name_target_state d1) (name_target_state d2))
        else false in
      if content_changed || state_changed then
        changes ++
        [ {| ch_abbr := abbr d2;
             ch_name_source := name_source d2;
             ch_desc_source := None;
             content_before := name_target d1;
             content_after := name_target d2;
             state_before :=
               if include_state then Some (name_target_state d1) else None;
             state_after :=
               if include_state then Some (name_target_state d2) else None |} ]
      else changes
    | CompareDescription =>
      let content_changed := negb (String.eqb (desc_target d1) (desc_target d2)) in
      let state_changed :=
        if include_state
        then negb (String.eqb (desc_target_state d1) (desc_target_state d2))
        else false in
      if content_changed || state_changed then
        changes ++
        [ {| ch_abbr := abbr d2;
             ch_name_source := name_source d2;
             ch_desc_source := Some (desc_source d2);
             content_before := desc_target d1;
             content_after := desc_target d2;
             state_before :=
               if include_state then Some (desc_target_state d1) else None;
             state_after :=
               if include_state then Some (desc_target_state d2) else None |} ]
      else changes
    end
  else changes.

(** The list [changes] that [compare_files] builds from the two parsed
    snapshots; [order1] is computed and never read. *)
Definition find_changes (snapshot1 snapshot2 : gmap string GroupData * list string)
    (compare_type : CompareType) (include_state : bool) : list ChangeData :=
  let '(data1, order1) := snapshot1 in
  let '(data2, order2) := snapshot2 in
  let common_groups : gset string := dom data1 ∩ dom data2 in
  fold_left (compare_group data1 data2 common_groups compare_type include_state)
            order2 [].

Definition compare_files (file1 file2 : option Element)
    (compare_type : CompareType) (include_state : bool)
  : Outcome (list ChangeData) :=
  match parse_xlf_file file1 with
  | Returned snapshot1 =>
    match parse_xlf_file file2 with
    | Returned snapshot2 =>
      Returned (find_changes snapshot1 snapshot2 compare_type include_state)
    | SysExit => SysExit
    | Uncaught exn => Uncaught exn
    end
  | SysExit => SysExit
  | Uncaught exn => Uncaught exn
  end.

(** ** List-length mismatches ([comma_lists.comma_lists]) *)

Record LengthRecord : Type := {
  abbr_source : string;
  cl_name_source : string;
  cl_name_target : string;
  cl_target_state : string;
  source_count : nat;
  target_count : nat
}.

(** [tu.get('resname', '') or tu.get('id', '')] *)
Definition unit_identifier (tu : Element) : string :=
  let resname := ET.get tu "resname" "" in
  if String.eqb resname "" then ET.get tu "id" "" else resname.

(** [[part.strip() for part in text.split(',')]] *)
Definition comma_parts (text : string) : list string :=
  List.map PyStr.strip (PyStr.split ","%char text).

(** The inner loop that looks for the unit named [abbr_id]. *)
Definition find_abbr_source (ns : Namespaces) (all_trans_units : list Element)
    (abbr_id : string) : string :=
  match List.find (fun tu => String.eqb (unit_identifier tu) abbr_id)
                  all_trans_units with
  | Some tu => extract_text (find_ns ns "source" tu)
  | None => ""
  end.

(** One turn of the loop [for trans_unit in all_trans_units]; the pair is
    [(increased_results, decreased_results)]. *)
Definition comma_unit (ns : Namespaces) (all_trans_units : list Element)
    (acc : list LengthRecord * list LengthRecord) (trans_unit : Element)
  : list LengthRecord * list LengthRecord :=
  let unit_id := unit_identifier trans_unit in
  if negb (PyStr.endswith unit_id "_Name") then acc
  else
    let source_elem := find_ns ns "source" trans_unit in
    let target_elem := find_ns ns "target" trans_unit in
    let source_text := extract_text source_elem in
    let target_text := extract_text target_elem in
    let target_state := state_of target_elem in
    let source_parts := comma_parts source_text in
    let target_parts := comma_parts target_text in
    if negb (Nat.eqb (length source_parts) (length target_parts)) then
      let abbr_id := PyStr.replace "_Name" "_Abbr" unit_id in
      let result :=
        {| abbr_source := find_abbr_source ns all_trans_units abbr_id;
           cl_name_source := source_text;
           cl_name_target := target_text;
           cl_target_state := target_state;
           source_count := length source_parts;
           target_count := length target_parts |} in
      if Nat.ltb (length source_parts) (length target_parts)
      then (acc.1 ++ [result], acc.2)
      else (acc.1, acc.2 ++ [result])
    else acc.

Definition length_mismatches (ns : Namespaces) (root : Element)
  : list LengthRecord * list LengthRecord :=
  let all_trans_units := findall_ns ns "trans-unit" root in
  fold_left (comma_unit ns all_trans_units) all_trans_units ([], []).

Definition xliff_1_2 : string := "urn:oasis:names:tc:xliff:document:1.2".

Definition comma_lists (input_file : option Element)
  : Outcome (list LengthRecord * list LengthRecord) :=
  match input_file with
  | None => SysExit
  | Some root =>
    match detect_namespace xliff_1_2 root with
    | Returned ns => Returned (length_mismatches ns root)
    | SysExit => SysExit
    | Uncaught exn => Uncaught exn
    end
  end.

(** ** Identical translations ([find_identical_translations.py]) *)

Record IdenticalRecord : Type := {
  ir_id : string;
  ir_resname : string;
  ir_source : string;
  ir_target : string;
  matching_pieces : list string;
  ir_type : string
}.

Definition comma_split_type : string := "approved (comma-split)".
Definition approved_identical_type : string := "approved + translate=no (identical)".
Definition not_approved_identical_type : string := "not approved (identical)".

Definition is_yes (approved_attr : option string) : bool :=
  match approved_attr with Some v => String.eqb v "yes" | None => false end.

Definition is_no (translate_attr : option string) : bool :=
  match translate_attr with Some v => String.eqb v "no" | None => false end.

Definition is_needs_translation (target_state : option string) : bool :=
  match target_state with
  | Some v => String.eqb v "needs-translation"
  | None => false
  end.

(** [[piece for piece in target_pieces if piece and piece in source_text]] *)
Definition matching (source_text target_text : string) : list string :=
  List.filter
    (fun piece => negb (String.eqb piece "") && PyStr.contains piece source_text)
    (comma_parts target_text).

(** One turn of the loop [for trans_unit in trans_units]. *)
Definition identical_unit (results : list IdenticalRecord) (trans_unit : Element)
  : list IdenticalRecord :=
  let approved_attr := ET.get_opt trans_unit "approved" in
  let translate_attr := ET.get_opt trans_unit "translate" in
  let resname := ET.get trans_unit "resname" "" in
  if PyStr.endswith resname "_Abbr" then results
  else
    match ET.find (qualified xliff_1_2 "source") trans_unit,
          ET.find (qualified xliff_1_2 "target") trans_unit with
    | Some source, Some target =>
      if is_needs_translation (ET.get_opt target "state") then results
      else
        let source_text := ET.truthy (text source) in
        let target_text := ET.truthy (text target) in
        let entry pieces type :=
          {| ir_id := ET.get trans_unit "id" "N/A";
             ir_resname := resname;
             ir_source := source_text;
             ir_target := target_text;
             matching_pieces := pieces;
             ir_type := type |} in
        if is_yes approved_attr && negb (is_no translate_attr) then
          match matching source_text target_text with
          | [] => results
          | pieces => results ++ [entry pieces comma_split_type]
          end
        else if is_yes approved_attr && is_no translate_attr then
          if String.eqb source_text target_text
          then results ++ [entry [source_text] approved_identical_type]
          else results
        else if negb (is_yes approved_attr) && negb (is_no translate_attr) then
          if String.eqb source_text target_text
          then results ++ [entry [source_text] not_approved_identical_type]
          else results
        else results
    | _, _ => results
    end.

Definition find_identical_translations (root : Element) : list IdenticalRecord :=
  fold_left identical_unit
            (ET.findall_descendants (qualified xliff_1_2 "trans-unit") root) [].

(** [type_order.get(x['type'], 4)] *)
Definition type_order (type : string) : nat :=
  if String.eqb type comma_split_type then 1
  else if String.eqb type approved_identical_type then 2
  else if String.eqb type not_approved_identical_type then 3
  else 4.

(** [list.sort(key=...)] is stable: records with equal keys keep their
    order.  Insertion from the right gives that order. *)
Fixpoint insert_by {A : Type} (key : A -> nat) (x : A) (l : list A) : list A :=
  match l with
  | [] => [x]
  | y :: l' => if Nat.leb (key x) (key y) then x :: l else y :: insert_by key x l'
  end.

Definition sort_by {A : Type} (key : A -> nat) (l : list A) : list A :=
  fold_right (insert_by key) [] l.

(** The sequence [main] writes: [find_identical_translations] inside
    [try], then the sort by type. *)
Definition identical_main (input_file : option Element)
  : Outcome (list IdenticalRecord) :=
  match input_file with
  | None => SysExit
  | Some root =>
    Returned (sort_by (fun x => type_order (ir_type x))
                      (find_identical_translations root))
  end.

(** ** Single-field extraction ([extract_xlf.extract_data]) *)

Inductive PatternType : Type :=
| name
| name_with_desc
| description
| description_with_name
| question.

Definition newline : ascii := ascii_of_nat 10.

(** In a Python regular expression [$] matches at the end of the string
    and just before a newline that ends it. *)
Definition before_final_newline (s : string) : list ascii :=
  match rev (list_ascii_of_string s) with
  | c :: r => if Ascii.eqb c newline then r else c :: r
  | [] => []
  end.

Fixpoint is_prefix (p l : list ascii) : bool :=
  match p, l with
  | [], _ => true
  | a :: p', b :: l' => Ascii.eqb a b && is_prefix p' l'
  | _ :: _, [] => false
  end.

(** [re.compile(suffix + '$').search(s)] for a literal [suffix]; the text
    is read from its end. *)
Definition search_suffix (suffix s : string) : bool :=
  is_prefix (rev (list_ascii_of_string suffix)) (before_final_newline s).

Fixpoint skip_digits (l : list ascii) : list ascii :=
  match l with
  | c :: l' => if PyStr.isdigit c then skip_digits l' else l
  | [] => []
  end.

(** [re.compile(r'_Qs_\d+_Q$').search(s)] *)
Definition search_question (s : string) : bool :=
  match before_final_newline s with
  | q :: u :: d :: r =>
    Ascii.eqb q "Q" && Ascii.eqb u "_" && PyStr.isdigit d
    && is_prefix (rev (list_ascii_of_string "_Qs_")) (skip_digits r)
  | _ => false
  end.

Definition pattern (pattern_type : PatternType) (unit_id : string) : bool :=
  match pattern_type with
  | name | name_with_desc => search_suffix "_Name" unit_id
  | description | description_with_name => search_suffix "_Desc_0" unit_id
  | question => search_question unit_id
  end.

Definition include_extra (pattern_type : PatternType) : bool :=
  match pattern_type with
  | name_with_desc | description_with_name => true
  | _ => false
  end.

(** [extra_pattern.search(unit_id)], read only when [include_extra]. *)
Definition extra_pattern (pattern_type : PatternType) (unit_id : string) : bool :=
  match pattern_type with
  | name_with_desc => search_suffix "_Desc_0" unit_id
  | description_with_name => search_suffix "_Name" unit_id
  | _ => false
  end.

(** The first direct [trans-unit] child whose id ends in [_Abbr]. *)
Definition abbr_text_of (ns : Namespaces) (group : Element) : string :=
  match List.find
          (fun child => PyStr.endswith (tag child) "trans-unit"
                        && PyStr.endswith (ET.get child "id" "") "_Abbr")
          (children group) with
  | Some child => extract_text (find_ns ns "source" child)
  | None => ""
  end.

(** The variables [found], [source_text], [target_text] and
    [extra_source_text] of the scan over a group's units. *)
Record Scan : Type := {
  found : bool;
  source_text : string;
  target_text : string;
  extra_source_text : string
}.

Definition scan_unit (ns : Namespaces) (pattern_type : PatternType)
    (st : Scan) (trans_unit : Element) : Scan :=
  let unit_id := ET.get trans_unit "id" "" in
  let st1 :=
    if pattern pattern_type unit_id then
      {| found := true;
         source_text := extract_text (find_ns ns "source" trans_unit);
         target_text := extract_text (find_ns ns "target" trans_unit);
         extra_source_text := extra_source_text st |}
    else st in
  if include_extra pattern_type && extra_pattern pattern_type unit_id then
    {| found := found st1;
       source_text := source_text st1;
       target_text := target_text st1;
       extra_source_text := extract_text (find_ns ns "source" trans_unit) |}
  else st1.

Definition scan_group (ns : Namespaces) (pattern_type : PatternType)
    (group : Element) : Scan :=
  fold_left (scan_unit ns pattern_type) (effective_units ns group)
            {| found := false; source_text := ""; target_text := "";
               extra_source_text := "" |}.

(** The tuple appended to [results] for a group whose scan found a unit. *)
Definition result_row (pattern_type : PatternType) (abbr_text : string)
    (st : Scan) : list string :=
  if include_extra pattern_type then
    match pattern_type with
    | description_with_name =>
      [abbr_text; extra_source_text st; source_text st; target_text st]
    | _ => [abbr_text; source_text st; target_text st; extra_source_text st]
    end
  else [abbr_text; source_text st; target_text st].

(** One turn of the loop [for group in target_groups]; the pair is
    [(results, missing_count)]. *)
Definition extract_group (ns : Namespaces) (pattern_type : PatternType)
    (acc : list (list string) * nat) (group : Element)
  : list (list string) * nat :=
  let abbr_text := abbr_text_of ns group in
  let st := scan_group ns pattern_type group in
  if found st
  then (acc.1 ++ [result_row pattern_type abbr_text st], acc.2)
  else (acc.1, acc.2 + 1).

Definition extract_groups (ns : Namespaces) (pattern_type : PatternType)
    (root : Element) : list (list string) * nat :=
  fold_left (extract_group ns pattern_type) (target_groups ns root) ([], 0).

Definition extract_data (input_file : option Element)
    (pattern_type : PatternType) : Outcome (list (list string) * nat) :=
  match input_file with
  | None => SysExit
  | Some root =>
    match detect_namespace "http://www.w3.org/2001/xliff" root with
    | Returned ns => Returned (extract_groups ns pattern_type root)
    | SysExit => SysExit
    | Uncaught exn => Uncaught exn
    end
  end.

(** ** The contracts in the words of the design

    The definitions below restate, over the same document model, what the
    design says each operation computes; the properties compare them with
    the loops above. *)

(** *** Effective children *)

Definition is_translation_unit (child : Element) : bool :=
  PyStr.endswith (tag child) "trans-unit".

Definition is_group (child : Element) : bool :=
  PyStr.endswith (tag child) "group".

Definition flagged_SubPos (child : Element) : bool :=
  PyStr.contains "_SubPos" (ET.get child "id" "").

(** What one direct child contributes: itself when it is a translation
    unit; its descendant translation units when it is a group that is not
    flagged [_SubPos]; nothing otherwise. *)
Definition spec_effective_child (ns : Namespaces) (child : Element)
  : list Element :=
  if is_translation_unit child then [child]
  else if is_group child then
    if flagged_SubPos child then []
    else List.filter
           (fun d => ET.selects (if use_ns ns
                                 then qualified (xliff ns) "trans-unit"
                                 else "trans-unit") (tag d))
           (ET.descendants child)
  else [].

(** *** The diff *)

(** The change predicate: the content differs, or the state differs when
    states are compared. *)
Definition changed (compare_type : CompareType) (include_state : bool)
    (d1 d2 : GroupData) : bool :=
  negb (String.eqb (tracked_target compare_type d1) (tracked_target compare_type d2))
  || (include_state
      && negb (String.eqb (tracked_state compare_type d1)
                          (tracked_state compare_type d2))).

(** The record of a group: context from the newer fields [d2], before
    from the older fields [d1], after from [d2]. *)
Definition change_record (compare_type : CompareType) (include_state : bool)
    (d1 d2 : GroupData) : ChangeData :=
  {| ch_abbr := abbr d2;
     ch_name_source := name_source d2;
     ch_desc_source :=
       match compare_type with
       | CompareName => None
       | CompareDescription => Some (desc_source d2)
       end;
     content_before := tracked_target compare_type d1;
     content_after := tracked_target compare_type d2;
     state_before :=
       if include_state then Some (tracked_state compare_type d1) else None;
     state_after :=
       if include_state then Some (tracked_state compare_type d2) else None |}.

Definition in_both (data1 data2 : gmap string GroupData) (group_id : string)
  : bool :=
  bool_decide (group_id ∈ dom data1 ∩ dom data2).

Definition emitted (data1 data2 : gmap string GroupData)
    (compare_type : CompareType) (include_state : bool) (group_id : string)
  : bool :=
  changed compare_type include_state (data1 !!! group_id) (data2 !!! group_id).

(** *** The needs-translation state *)

(** A pending target keeps no text. *)
Definition suppressed (d : GroupData) : Prop :=
  (name_target_state d = "needs-translation" -> name_target d = "")
  ∧ (desc_target_state d = "needs-translation" -> desc_target d = "").

(** The unit that decides a field of a group: the last of the units, in
    document order, whose id ends in [suffix]. *)
Definition deciding_unit (suffix : string) (units : list Element)
  : option Element :=
  List.find (fun u => PyStr.endswith (ET.get u "id" "") suffix) (rev units).

(** The group that decides the entry of [group_id]: the last
    semantic-domain group of the document with that id. *)
Definition deciding_group (ns : Namespaces) (root : Element)
    (group_id : string) : option Element :=
  List.find (fun g => String.eqb (ET.get g "id" "") group_id)
            (rev (target_groups ns root)).

(** *** List-length mismatches *)

Definition is_name_unit (trans_unit : Element) : bool :=
  PyStr.endswith (unit_identifier trans_unit) "_Name".

(** The numbers of comma-separated pieces of the source and of the target. *)
Definition piece_counts (ns : Namespaces) (trans_unit : Element) : nat * nat :=
  (length (comma_parts (extract_text (find_ns ns "source" trans_unit))),
   length (comma_parts (extract_text (find_ns ns "target" trans_unit)))).

Definition target_longer (ns : Namespaces) (trans_unit : Element) : bool :=
  is_name_unit trans_unit
  && Nat.ltb (piece_counts ns trans_unit).1 (piece_counts ns trans_unit).2.

Definition target_shorter (ns : Namespaces) (trans_unit : Element) : bool :=
  is_name_unit trans_unit
  && Nat.ltb (piece_counts ns trans_unit).2 (piece_counts ns trans_unit).1.

Definition mismatch_record (ns : Namespaces) (all_trans_units : list Element)
    (trans_unit : Element) : LengthRecord :=
  {| abbr_source :=
       find_abbr_source ns all_trans_units
         (PyStr.replace "_Name" "_Abbr" (unit_identifier trans_unit));
     cl_name_source := extract_text (find_ns ns "source" trans_unit);
     cl_name_target := extract_text (find_ns ns "target" trans_unit);
     cl_target_state := state_of (find_ns ns "target" trans_unit);
     source_count := (piece_counts ns trans_unit).1;
     target_count := (piece_counts ns trans_unit).2 |}.

(** *** Identical translations *)

(** The four rules of the approval / translate-suppression table. *)
Inductive Rule : Type :=
| CommaSplitRule
| IdenticalSuppressedRule
| IdenticalNotApprovedRule
| NoRecordRule.

Definition rule_of (approved translate_suppressed : bool) : Rule :=
  match approved, translate_suppressed with
  | true, false => CommaSplitRule
  | true, true => IdenticalSuppressedRule
  | false, false => IdenticalNotApprovedRule
  | false, true => NoRecordRule
  end.

(** What a rule records for a source and a target text: the matched pieces
    and the name of the rule, or nothing. *)
Definition rule_outcome (rule : Rule) (source_text target_text : string)
  : option (list string * string) :=
  match rule with
  | CommaSplitRule =>
    let pieces :=
      List.filter
        (fun piece => negb (String.eqb piece "")
                      && PyStr.contains piece source_text)
        (List.map PyStr.strip (PyStr.split ","%char target_text)) in
    if Nat.ltb 0 (length pieces) then Some (pieces, comma_split_type) else None
  | IdenticalSuppressedRule =>
    if String.eqb source_text target_text
    then Some ([source_text], approved_identical_type) else None
  | IdenticalNotApprovedRule =>
    if String.eqb source_text target_text
    then Some ([source_text], not_approved_identical_type) else None
  | NoRecordRule => None
  end.

Definition of_type (type : string) (results : list IdenticalRecord)
  : list IdenticalRecord :=
  List.filter (fun r => String.eqb (ir_type r) type) results.

(** The records of key [k], in the order of the list. *)
Definition bucket {A : Type} (key : A -> nat) (k : nat) (l : list A) : list A :=
  List.filter (fun x => Nat.eqb (key x) k) l.

Definition ordered {A : Type} (key : A -> nat) : list A -> Prop :=
  StronglySorted (fun a b => key a <= key b).

(** *** Namespaces *)

(** Declaring [uri] as the default namespace of a document puts every
    element that has no namespace of its own into [uri]; elements with a
    prefix keep theirs. *)
Definition qualify_tag (uri t : string) : string :=
  if PyStr.startswith t "{" then t else qualified uri t.

Fixpoint qualify (uri : string) (e : Element) : Element :=
  match e with
  | Elem t a x cs tl => Elem (qualify_tag uri t) a x (List.map (qualify uri) cs) tl
  end.

(** A namespace name the scripts can carry through their string tests: no
    closing brace, no [guid] inside, and not the wildcard. *)
Definition usable (uri : string) : bool :=
  match PyStr.index "}"%char uri with Some _ => false | None => true end
  && negb (PyStr.contains "guid" uri)
  && negb (String.eqb uri "*").

(** The tag [t] is not in the namespace [uri]. *)
Definition outside (uri t : string) : bool :=
  negb (String.prefix (qualified uri "") t).

Definition all_outside (uri : string) (e : Element) : Prop :=
  forall d, In d (ET.iter e) -> outside uri (tag d) = true.

(** The root has no namespace and no element of the document is in [uri]. *)
Definition undeclared (uri : string) (root : Element) : bool :=
  negb (PyStr.startswith (tag root) "{")
  && forallb (fun d => outside uri (tag d)) (ET.iter root).

Definition declared (uri : string) : Namespaces :=
  {| use_ns := true; xliff := uri |}.

Definition bare (default : string) : Namespaces :=
  {| use_ns := false; xliff := default |}.

(** *** Structural absence *)

(** What the XML parser guarantees of a tag: a tag that opens a namespace
    brace closes it. *)
Definition well_formed_tag (t : string) : bool :=
  negb (PyStr.startswith t "{")
  || match PyStr.index "}"%char t with Some _ => true | None => false end.

(** The group has a unit the requested pattern matches. *)
Definition has_field (ns : Namespaces) (pattern_type : PatternType)
    (group : Element) : bool :=
  existsb (fun u => pattern pattern_type (ET.get u "id" ""))
          (effective_units ns group).

Definition row_of (ns : Namespaces) (pattern_type : PatternType)
    (group : Element) : list string :=
  result_row pattern_type (abbr_text_of ns group)
             (scan_group ns pattern_type group).

(** No effective unit of the group has an identifier with this suffix. *)
Definition lacks (suffix : string) (ns : Namespaces) (group : Element) : Prop :=
  forall u, In u (effective_units ns group) ->
            PyStr.endswith (ET.get u "id" "") suffix = false.

(** ** Sample documents *)

Definition attrs (l : list (string * string)) : gmap string string :=
  list_to_map l.

Definition leaf (t : string) (a : list (string * string)) (x : string)
  : Element :=
  Elem t (attrs a) (Some x) [] None.

(** [<trans-unit id=..><source>..</source><target state=..>..</target>] *)
Definition tu (id src st tgt : string) : Element :=
  Elem "trans-unit" (attrs [("id", id)]) None
       [leaf "source" [] src; leaf "target" [("state", st)] tgt] None.

Definition grp (id : string) (cs : list Element) : Element :=
  Elem "group" (attrs [("id", id)]) None cs None.

Definition guid : Element := Elem "{sil}guid" ∅ (Some "x") [] None.

Definition doc (groups : list Element) : Element :=
  Elem "xliff" ∅ None [Elem "file" ∅ None [Elem "body" ∅ None groups None] None]
       None.

Definition plain : Namespaces := bare "http://www.w3.org/2001/xliff".

Definition domain (n ab nm tgt st : string) : Element :=
  grp n [guid; tu (n +:+ "_Abbr") ab "final" ab; tu (n +:+ "_Name") nm st tgt].

Definition older : Element :=
  doc [domain "1" "1" "Universe" "Universo" "translated";
       domain "2" "2" "Person" "Pessoa" "translated";
       domain "3" "3" "Language" "Lingua" "final"].

Definition newer : Element :=
  doc [domain "4" "4" "States" "Estados" "final";
       domain "2" "2.0" "Person" "Pessoa" "final";
       domain "1" "1.0" "Universe, creation" "Universo, criacao" "translated";
       domain "3" "3" "Language" "Lingua" "final"].

(** A group with a direct unit, a [_SubPos] group and a description group. *)
Definition sky_unit : Element := tu "1_Name" "Sky" "final" "Ceu".
Definition sky_sub : Element :=
  grp "1_SubPos" [tu "1_1_Name" "Sun" "final" "Sol";
                  grp "1_1_Desc" [tu "1_1_Desc_0" "star" "final" "estrela"]].
Definition sky_desc : Element :=
  grp "1_Desc" [tu "1_Desc_0" "above" "final" "acima"].
Definition sky : Element := grp "1" [sky_unit; sky_sub; sky_desc].

(** A name whose target is still pending but carries text. *)
Definition pending : Element :=
  doc [grp "9" [guid; tu "9_Abbr" "9" "final" "9";
                tu "9_Name" "Sky" "needs-translation" "Sky, heaven"]].

Definition pending_name : Element :=
  tu "9_Name" "Sky" "needs-translation" "Sky, heaven".

Definition pending_group : Element :=
  grp "9" [guid; tu "9_Abbr" "9" "final" "9"; pending_name].

(** A description whose target is pending but carries text. *)
Definition pending_desc : Element :=
  tu "9_Desc_0" "The sky" "needs-translation" "O ceu".

Definition pending_described : Element :=
  grp "9" [guid; grp "9_Desc" [pending_desc]].

Definition pending_blank : Element :=
  doc [grp "9" [guid; tu "9_Abbr" "9" "final" "9";
                tu "9_Name" "Sky" "needs-translation" ""]].

(** Units of an XLIFF 1.2 export. *)
Definition xunit (a : list (string * string)) (src st tgt : string) : Element :=
  Elem (qualified xliff_1_2 "trans-unit") (attrs a) None
       [leaf (qualified xliff_1_2 "source") [] src;
        leaf (qualified xliff_1_2 "target") [("state", st)] tgt] None.

Definition colours : Element :=
  xunit [("id", "7"); ("resname", "7_Name"); ("approved", "yes")]
        "red, green, blue" "translated" "vermelho, green".

Definition fish_kept : Element :=
  xunit [("id", "8"); ("resname", "8_Name"); ("approved", "yes");
         ("translate", "no")] "Fish" "final" "Fish".

Definition fish_translated : Element :=
  xunit [("id", "8"); ("resname", "8_Name"); ("approved", "yes");
         ("translate", "no")] "Fish" "final" "Peixe".

Definition fish_abbr : Element :=
  xunit [("id", "6"); ("resname", "8_Abbr")] "8" "final" "8".

Definition fish_pending : Element :=
  xunit [("id", "10"); ("resname", "10_Name")] "Fish" "needs-translation" "Fish".

(** The same kind of unit in a document that declares no namespace. *)
Definition fish : Element :=
  Elem "trans-unit" (attrs [("id", "5"); ("resname", "5_Name")]) None
       [leaf "source" [] "Fish"; leaf "target" [("state", "translated")] "Fish"]
       None.

Definition bare_export : Element := doc [fish].

(** A document whose first group has no name. *)
Definition sparse : Element :=
  doc [grp "1" [guid; tu "1_Abbr" "1" "final" "1"];
       grp "2" [guid; tu "2_Abbr" "2" "final" "2";
                tu "2_Name" "Person" "final" "Pessoa"]].

(** Units with lists of different lengths. *)
Definition lists : Element :=
  doc [tu "1_Name" "a, b, c" "final" "x, y";
       tu "2_Name" "a" "final" "a, b";
       tu "3_Name" "a, b" "final" "x, y";
       tu "4_Name" "" "final" "z"].

(** ** Report lines *)

Definition tab : string := String (ascii_of_nat 9) "".

Definition line_end : string := String (ascii_of_nat 10) "".

(** [sep.join(pieces)] *)
Fixpoint join_with (sep : string) (pieces : list string) : string :=
  match pieces with
  | [] => ""
  | [p] => p
  | p :: ps => p +:+ sep +:+ join_with sep ps
  end.

(** A line of fields with tabs between them and a newline at the end. *)
Definition tsv_line (fields : list string) : string :=
  join_with tab fields +:+ line_end.

(** ** The change report ([compare_xlf.compare_files], the writing part) *)

Definition changes_header (compare_type : CompareType) (include_state : bool)
  : string :=
  match compare_type with
  | CompareName =>
    if include_state
    then tsv_line ["Abbr"; "Name Source"; "State Before"; "State After";
                   "Content Before"; "Content After"]
    else tsv_line ["Abbr"; "Name Source"; "Content Before"; "Content After"]
  | CompareDescription =>
    if include_state
    then tsv_line ["Abbr"; "Name Source"; "Desc Source"; "State Before";
                   "State After"; "Content Before"; "Content After"]
    else tsv_line ["Abbr"; "Name Source"; "Desc Source"; "Content Before";
                   "Content After"]
  end.

(** The line written for one change; [None] is the KeyError of a key the
    dictionary does not have. *)
Definition change_line (compare_type : CompareType) (include_state : bool)
    (change : ChangeData) : option string :=
  match compare_type with
  | CompareName =>
    if include_state then
      match state_before change, state_after change with
      | Some sb, Some sa =>
        Some (tsv_line [ch_abbr change; ch_name_source change; sb; sa;
                        content_before change; content_after change])
      | _, _ => None
      end
    else Some (tsv_line [ch_abbr change; ch_name_source change;
                         content_before change; content_after change])
  | CompareDescription =>
    match ch_desc_source change with
    | Some ds =>
      if include_state then
        match state_before change, state_after change with
        | Some sb, Some sa =>
          Some (tsv_line [ch_abbr change; ch_name_source change; ds; sb; sa;
                          content_before change; content_after change])
        | _, _ => None
        end
      else Some (tsv_line [ch_abbr change; ch_name_source change; ds;
                           content_before change; content_after change])
    | None => None
    end
  end.

(** One turn of [for change in changes]; an exception inside the [try]
    ends the run with [sys.exit(1)]. *)
Definition write_change (compare_type : CompareType) (include_state : bool)
    (written : Outcome (list string)) (change : ChangeData)
  : Outcome (list string) :=
  match written with
  | Returned lines =>
    match change_line compare_type include_state change with
    | Some line => Returned (lines ++ [line])
    | None => SysExit
    end
  | SysExit => SysExit
  | Uncaught exn => Uncaught exn
  end.

(** The strings written to the output file, in order. *)
Definition write_changes (compare_type : CompareType) (include_state : bool)
    (changes : list ChangeData) : Outcome (list string) :=
  fold_left (write_change compare_type include_state) changes
            (Returned [changes_header compare_type include_state]).

(** [compare_files] from the two parsed inputs to the lines of the report. *)
Definition compare_files_report (file1 file2 : option Element)
    (compare_type : CompareType) (include_state : bool)
  : Outcome (list string) :=
  match compare_files file1 file2 compare_type include_state with
  | Returned changes => write_changes compare_type include_state changes
  | SysExit => SysExit
  | Uncaught exn => Uncaught exn
  end.

(** A record with its state keys removed. *)
Definition without_state (r : ChangeData) : ChangeData :=
  {| ch_abbr := ch_abbr r;
     ch_name_source := ch_name_source r;
     ch_desc_source := ch_desc_source r;
     content_before := content_before r;
     content_after := content_after r;
     state_before := None;
     state_after := None |}.

Definition content_differs (r : ChangeData) : bool :=
  negb (String.eqb (content_before r) (content_after r)).

(** The number of occurrences of a character. *)
Fixpoint count_char (c : ascii) (s : string) : nat :=
  match s with
  | EmptyString => 0
  | String a s' => (if Ascii.eqb a c then 1 else 0) + count_char c s'
  end.

(** The first and the last character of a text are not white space. *)
Definition starts_clean (s : string) : Prop :=
  forall a rest, s = String a rest -> PyStr.isspace a = false.

Definition ends_clean (s : string) : Prop :=
  forall front a, s = front +:+ String a "" -> PyStr.isspace a = false.

(** A unit the loop of [comma_lists] reports: its identifier ends in
    [_Name] and its two texts hold different numbers of commas. *)
Definition comma_mismatch (ns : Namespaces) (trans_unit : Element) : bool :=
  PyStr.endswith (unit_identifier trans_unit) "_Name"
  && negb (Nat.eqb
             (count_char ","%char
                (extract_text (find_ns ns "source" trans_unit)))
             (count_char ","%char
                (extract_text (find_ns ns "target" trans_unit)))).

(** ** Counting by state ([count_in_xlf.count_in_xlf]) *)

(** [e.findall('xliff:local', namespaces)] or [e.findall('local')]: the
    direct children the step selects. *)
Definition findall_children_ns (ns : Namespaces) (local : string) (e : Element)
  : list Element :=
  List.filter
    (fun c => ET.selects (if use_ns ns then qualified (xliff ns) local else local)
                         (tag c))
    (children e).

(** The first group, in document order, whose id contains [_Poss]. *)
Definition poss_group_of (ns : Namespaces) (root : Element) : option Element :=
  List.find (fun group => PyStr.contains "_Poss" (ET.get group "id" ""))
            (findall_ns ns "group" root).

(** An entry of [poss_data]: the two [defaultdict(int)] of a child. *)
Record PossCounts : Type := {
  name_counts : gmap string nat;
  desc_counts : gmap string nat
}.

(** [counts[state] += 1] on a [defaultdict(int)]. *)
Definition bump (state : string) (counts : gmap string nat) : gmap string nat :=
  <[state := S (default 0 (counts !! state))]> counts.

(** [poss_data[child_id]]: a missing entry is created empty. *)
Definition poss_entry (poss_data : gmap string PossCounts) (child_id : string)
  : PossCounts :=
  default {| name_counts := ∅; desc_counts := ∅ |} (poss_data !! child_id).

(** [target_elem.get('state', '(no state)') if target_elem is not None
    else '(no target)'] *)
Definition counted_state (target_elem : option Element) : string :=
  match target_elem with
  | Some t => ET.get t "state" "(no state)"
  | None => "(no target)"
  end.

(** One turn of the loop [for trans_unit in trans_units]. *)
Definition count_unit (ns : Namespaces) (child_id : string)
    (poss_data : gmap string PossCounts) (trans_unit : Element)
  : gmap string PossCounts :=
  let unit_id := ET.get trans_unit "id" "" in
  let target_state := counted_state (find_ns ns "target" trans_unit) in
  if PyStr.endswith unit_id "_Name" then
    <[child_id :=
        {| name_counts := bump target_state
                               (name_counts (poss_entry poss_data child_id));
           desc_counts := desc_counts (poss_entry poss_data child_id) |}]>
      poss_data
  else if PyStr.endswith unit_id "_Desc_0" then
    <[child_id :=
        {| name_counts := name_counts (poss_entry poss_data child_id);
           desc_counts := bump target_state
                               (desc_counts (poss_entry poss_data child_id)) |}]>
      poss_data
  else poss_data.

(** One turn of the loop [for child_group in poss_children]. *)
Definition count_child (ns : Namespaces) (poss_data : gmap string PossCounts)
    (child_group : Element) : gmap string PossCounts :=
  fold_left (count_unit ns (ET.get child_group "id" ""))
            (findall_ns ns "trans-unit" child_group) poss_data.

(** The dictionary [poss_data], or the exit when no [_Poss] group exists. *)
Definition count_poss (ns : Namespaces) (root : Element)
  : Outcome (gmap string PossCounts) :=
  match poss_group_of ns root with
  | None => SysExit
  | Some poss_group =>
    Returned (fold_left (count_child ns)
                        (findall_children_ns ns "group" poss_group) ∅)
  end.

(** [text.isdigit()] on one character with code point below 256: a
    decimal digit, or one of the superscripts two, three and one, which
    [\d] does not match and [int] does not read. *)
Definition digit_like (c : ascii) : bool :=
  let n := nat_of_ascii c in
  PyStr.isdigit c || Nat.eqb n 178 || Nat.eqb n 179 || Nat.eqb n 185.

(** The pieces of [re.split(r'(\d+)', s)] that are not runs of decimal
    digits: the text before the first run, between two runs and after the
    last run, each possibly empty.  [piece] is the piece being read and
    [in_run] tells that the last character was a decimal digit. *)
Fixpoint between_digits (in_run : bool) (piece s : string) : list string :=
  match s with
  | EmptyString => [piece]
  | String c s' =>
    if PyStr.isdigit c then
      if in_run then between_digits true "" s'
      else piece :: between_digits true "" s'
    else between_digits false (piece +:+ String c "") s'
  end.

(** [natural_sort_key(s)] raises ValueError: [int(text)] is called on a
    piece that [isdigit] accepts, and fails on one that is not a run of
    decimal digits. *)
Definition natural_sort_key_raises (s : string) : bool :=
  existsb (fun text => negb (String.eqb text "")
                       && forallb digit_like (list_ascii_of_string text))
          (between_digits false "" s).

(** [count_in_xlf] up to the dictionary its report is printed from; the
    printed lines are not modelled.  The report sorts the keys with
    [natural_sort_key], which is called on every key. *)
Definition count_in_xlf (input_file : option Element)
  : Outcome (gmap string PossCounts) :=
  match input_file with
  | None => SysExit
  | Some root =>
    match detect_namespace "http://www.w3.org/2001/xliff" root with
    | Returned ns =>
      match count_poss ns root with
      | Returned poss_data =>
        if existsb natural_sort_key_raises (elements (dom poss_data))
        then Uncaught "ValueError"
        else Returned poss_data
      | SysExit => SysExit
      | Uncaught exn => Uncaught exn
      end
    | SysExit => SysExit
    | Uncaught exn => Uncaught exn
    end
  end.

(** The count [poss_data] holds for a child, a field and a state; nothing
    recorded reads as zero. *)
Definition name_count (poss_data : gmap string PossCounts)
    (child_id state : string) : nat :=
  default 0 (name_counts (poss_entry poss_data child_id) !! state).

Definition desc_count (poss_data : gmap string PossCounts)
    (child_id state : string) : nat :=
  default 0 (desc_counts (poss_entry poss_data child_id) !! state).

(** The units the loops visit, each with the id of the child it is under. *)
Definition visited_units (ns : Namespaces) (poss_group : Element)
  : list (string * Element) :=
  flat_map (fun child => List.map (pair (ET.get child "id" ""))
                                  (findall_ns ns "trans-unit" child))
           (findall_children_ns ns "group" poss_group).

Definition counts_as (ns : Namespaces) (suffix child_id state : string)
    (visit : string * Element) : bool :=
  String.eqb visit.1 child_id
  && PyStr.endswith (ET.get visit.2 "id" "") suffix
  && String.eqb (counted_state (find_ns ns "target" visit.2)) state.

(** A visit that is counted under [child_id]. *)
Definition counted (child_id : string) (visit : string * Element) : bool :=
  String.eqb visit.1 child_id
  && (PyStr.endswith (ET.get visit.2 "id" "") "_Name"
      || PyStr.endswith (ET.get visit.2 "id" "") "_Desc_0").

(** Every entry has a count, and every count is positive. *)
Definition populated (poss_data : gmap string PossCounts) : Prop :=
  forall child_id entry,
    poss_data !! child_id = Some entry ->
    (name_counts entry <> ∅ \/ desc_counts entry <> ∅)
    ∧ (forall state n, name_counts entry !! state = Some n -> 1 <= n)
    ∧ (forall state n, desc_counts entry !! state = Some n -> 1 <= n).

(** A possessions group: one child with a name, a description and a name
    without target, one child with no unit. *)
Definition poss : Element :=
  grp "1_Poss"
      [grp "1_Poss_1" [tu "1_Poss_1_Name" "a" "final" "b";
                       tu "1_Poss_1_Desc_0" "c" "translated" "d";
                       Elem "trans-unit" (attrs [("id", "x_Name")]) None
                            [leaf "source" [] "e"] None];
       grp "1_Poss_2" []].

Definition possessions : Element := doc [poss].

(** A child whose id is the superscript two, with a counted unit. *)
Definition squared : Element :=
  doc [grp "1_Poss"
           [grp (String (ascii_of_nat 178) "") [tu "1_Name" "a" "final" "b"]]].

(** ** The identical-translation report ([find_identical_translations.main],
    the writing part) *)

(** [str(n)] *)
Definition decimal (n : nat) : string :=
  NilEmpty.string_of_uint (Nat.to_uint n).

(** [s * n] *)
Fixpoint repeat_string (s : string) (n : nat) : string :=
  match n with
  | O => ""
  | S k => s +:+ repeat_string s k
  end.

Definition rule_bar : string := repeat_string "=" 80.

(** [c.upper()] on the letters a to z; the type names are made of these,
    spaces and punctuation. *)
Definition upper_char (c : ascii) : ascii :=
  let n := nat_of_ascii c in
  if Nat.leb 97 n && Nat.leb n 122 then ascii_of_nat (n - 32) else c.

Fixpoint upper (s : string) : string :=
  match s with
  | EmptyString => EmptyString
  | String c s' => String (upper_char c) (upper s')
  end.

(** The three writes that open a section. *)
Definition section_lines (type : string) : list string :=
  [line_end +:+ rule_bar +:+ line_end;
   "CASE: " +:+ upper type +:+ line_end;
   rule_bar +:+ line_end +:+ line_end].

(** The six writes of one record. *)
Definition item_lines (idx : nat) (item : IdenticalRecord) : list string :=
  [decimal idx +:+ ". ID: " +:+ ir_id item +:+ line_end;
   "   resname: " +:+ ir_resname item +:+ line_end;
   "   Source: " +:+ ir_source item +:+ line_end;
   "   Target: " +:+ ir_target item +:+ line_end;
   "   Matching pieces: " +:+ join_with ", " (matching_pieces item) +:+ line_end;
   line_end].

(** The state of the loop [for idx, item in enumerate(results, 1)]. *)
Record Writing : Type := {
  current_type : option string;
  next_idx : nat;
  written : list string
}.

Definition write_item (w : Writing) (item : IdenticalRecord) : Writing :=
  {| current_type := Some (ir_type item);
     next_idx := S (next_idx w);
     written :=
       written w
       ++ (if bool_decide (current_type w = Some (ir_type item)) then []
           else section_lines (ir_type item))
       ++ item_lines (next_idx w) item |}.

(** The strings written to the output file; no file when there is no
    record. *)
Definition write_identical (results : list IdenticalRecord)
  : option (list string) :=
  match results with
  | [] => None
  | _ :: _ =>
    Some (written
            (fold_left write_item results
               {| current_type := None;
                  next_idx := 1;
                  written :=
                    ["Found " +:+ decimal (length results)
                              +:+ " trans-unit(s)" +:+ line_end;
                     rule_bar +:+ line_end +:+ line_end] |}))
  end.

Definition identical_report (input_file : option Element)
  : Outcome (option (list string)) :=
  match identical_main input_file with
  | Returned results => Returned (write_identical results)
  | SysExit => SysExit
  | Uncaught exn => Uncaught exn
  end.

Definition is_case_line (line : string) : bool := String.prefix "CASE: " line.

Definition case_line (type : string) : string :=
  "CASE: " +:+ upper type +:+ line_end.

(** The type when some record has it. *)
Definition present (type : string) (results : list IdenticalRecord)
  : list string :=
  match of_type type results with
  | [] => []
  | _ :: _ => [type]
  end.

(** The types at which the loop opens a section. *)
Fixpoint sections (current : option string) (results : list IdenticalRecord)
  : list string :=
  match results with
  | [] => []
  | item :: rest =>
    (if bool_decide (current = Some (ir_type item)) then [] else [ir_type item])
    ++ sections (Some (ir_type item)) rest
  end.

Definition last_type (current : option string) (results : list IdenticalRecord)
  : option string :=
  match rev results with
  | [] => current
  | item :: _ => Some (ir_type item)
  end.

Definition export : Element :=
  doc [xunit [("id", "1"); ("resname", "1_Name")] "Fish" "final" "Fish";
       fish_kept; colours;
       xunit [("id", "2"); ("resname", "2_Name")] "Bird" "final" "Bird"].

(** ** Interactive sorting ([sort_comparisons.py])

    The operator's answers are the list of lines that [input()] returns, in
    order; an exhausted list is the end of input. *)

(** A run that ends normally, [sys.exit(code)], or an exception that
    nothing catches. *)
Inductive Session (A : Type) : Type :=
| Finished (a : A)
| Exited (code : nat)
| Raised (exn : string).
Arguments Finished {A} a.
Arguments Exited {A} code.
Arguments Raised {A} exn.

(** What the file system does to a run: the lines [readlines()] returns,
    or [None] when the input file cannot be opened, read or decoded;
    whether [os.makedirs] makes the default output directory; whether the
    output file can be opened and written. *)
Record FileSystem : Type := {
  input_lines : option (list string);
  makedirs_ok : bool;
  output_ok : bool
}.

Definition tab_char : ascii := ascii_of_nat 9.

(** [read_tsv_file]: an exception inside the [try] ends the run with
    [sys.exit(1)], and so does a file without lines. *)
Definition read_tsv_file (input_file : option (list string))
  : Session (list string * list (list string)) :=
  match input_file with
  | None => Exited 1
  | Some [] => Exited 1
  | Some (first :: others) =>
    Finished
      (PyStr.split tab_char (PyStr.strip first),
       List.map (fun line => PyStr.split tab_char (PyStr.strip line))
                (List.filter (fun line => negb (String.eqb (PyStr.strip line) ""))
                             others))
  end.

(** The initial dictionary [group_chars]. *)
Definition default_groups : gmap ascii string :=
  list_to_map
    [("1"%char, "untranslated"); ("2"%char, "wrong"); ("3"%char, "misc");
     ("4"%char, "typo"); ("5"%char, "article/preposition");
     ("6"%char, "add word"); ("7"%char, "remove word");
     ("8"%char, "change word"); ("9"%char, "neuter"); ("0"%char, "-se");
     ("-"%char, "PT->BR"); ("="%char, "count"); ("q"%char, "infinitive");
     ("w"%char, "other")].

Definition available_chars : list ascii :=
  ["e"; "r"; "t"; "y"; "u"; "i"; "o"; "p"; "["; "]"; "\"]%char.

Definition unassigned (group_chars : gmap ascii string) (c : ascii) : bool :=
  match group_chars !! c with
  | Some _ => false
  | None => true
  end.

(** The first available character that is not a key yet. *)
Definition next_char (group_chars : gmap ascii string) : option ascii :=
  List.find (unassigned group_chars) available_chars.

(** [[c for c in choice if c not in group_chars]] *)
Definition invalid_chars (group_chars : gmap ascii string) (choice : string)
  : list ascii :=
  List.filter (unassigned group_chars) (list_ascii_of_string choice).

(** [[group_chars[c] for c in choice]] *)
Definition names_of (group_chars : gmap ascii string) (choice : string)
  : list string :=
  List.map (fun c => group_chars !!! c) (list_ascii_of_string choice).

(** What [get_user_choice] gives back, with the dictionary as it leaves it
    and the answers not read yet. *)
Inductive Choice : Type :=
| Selected (selected_groups : list string) (group_chars : gmap ascii string)
           (rest : list string)
| EndEarly (group_chars : gmap ascii string) (rest : list string)
| Cancelled.

Fixpoint get_user_choice (group_chars : gmap ascii string)
    (inputs : list string) : Choice :=
  match inputs with
  | [] => Cancelled
  | line :: rest =>
    let choice := PyStr.strip line in
    if String.eqb choice "" then
      match rest with
      | [] => Cancelled
      | line2 :: rest2 =>
        if String.eqb (PyStr.strip line2) "" then EndEarly group_chars rest2
        else get_user_choice group_chars rest2
      end
    else if PyStr.contains "`" choice then
      match rest with
      | [] => Cancelled
      | line2 :: rest2 =>
        let new_group := PyStr.strip line2 in
        if String.eqb new_group "" then get_user_choice group_chars rest2
        else
          match next_char group_chars with
          | None => get_user_choice group_chars rest2
          | Some c =>
            let group_chars' := <[c := new_group]> group_chars in
            let choice' := PyStr.replace "`" (String c "") choice in
            match invalid_chars group_chars' choice' with
            | [] => Selected (names_of group_chars' choice') group_chars' rest2
            | _ :: _ => get_user_choice group_chars' rest2
            end
          end
      end
    else
      match invalid_chars group_chars choice with
      | [] => Selected (names_of group_chars choice) group_chars rest
      | _ :: _ => get_user_choice group_chars rest
      end
  end.

(** What the loop over the rows leaves: the rows kept, the dictionary
    [row_groups] and the final [group_chars]. *)
Record Sorting : Type := {
  kept : list (list string);
  row_groups : gmap nat (gset string);
  final_chars : gmap ascii string
}.

(** The loop [for i, row in enumerate(data)], from row [i] on. *)
Fixpoint sort_rows (data rows : list (list string)) (i : nat)
    (group_chars : gmap ascii string) (groups : gmap nat (gset string))
    (inputs : list string) : Session Sorting :=
  match rows with
  | [] => Finished {| kept := data; row_groups := groups;
                      final_chars := group_chars |}
  | _ :: rows' =>
    match get_user_choice group_chars inputs with
    | Cancelled => Exited 0
    | EndEarly group_chars' _ =>
      Finished {| kept := firstn i data; row_groups := groups;
                  final_chars := group_chars' |}
    | Selected selected_groups group_chars' rest =>
      sort_rows data rows' (S i) group_chars'
                (<[i := list_to_set selected_groups]> groups) rest
    end
  end.

(** [sorted(...)] on distinct strings. *)
Fixpoint insert_string (x : string) (l : list string) : list string :=
  match l with
  | [] => [x]
  | y :: l' => if String.leb x y then x :: l else y :: insert_string x l'
  end.

Definition sorted_strings (l : list string) : list string :=
  fold_right insert_string [] l.

(** The groups some row was put in, sorted. *)
Definition used_groups (groups : gmap nat (gset string)) : list string :=
  sorted_strings (elements (⋃ ((map_to_list groups).*2) : gset string)).

(** The membership columns of row [i]. *)
Definition group_values (groups : gmap nat (gset string)) (i : nat)
  : list string :=
  List.map (fun group => if bool_decide (group ∈ default ∅ (groups !! i))
                         then "1" else "0")
           (used_groups groups).

(** The lines written for rows [i], [i+1], ... *)
Fixpoint row_lines (groups : gmap nat (gset string)) (i : nat)
    (rows : list (list string)) : list string :=
  match rows with
  | [] => []
  | row :: rows' =>
    (join_with tab (row ++ group_values groups i) +:+ line_end)
    :: row_lines groups (S i) rows'
  end.

Definition sorted_report (header : list string) (s : Sorting) : list string :=
  (join_with tab (header ++ used_groups (row_groups s)) +:+ line_end)
  :: row_lines (row_groups s) 0 (kept s).

(** The check of the two column numbers against the header. *)
Definition valid_columns (header : list string) (col1 col2 : Z) : bool :=
  let num_cols := Z.of_nat (length header) in
  negb ((col1 <? 1) || (num_cols <? col1) || (col2 <? 1) || (num_cols <? col2))%Z.

(** The default output directory is made only when no output file is
    given. *)
Definition output_dir_made (fs : FileSystem) (output_file : option string)
  : bool :=
  match output_file with
  | Some _ => true
  | None => makedirs_ok fs
  end.

(** [sort_comparisons] from the file system, the two column numbers, the
    output file argument and the operator's answers to the lines of the
    output file.  [os.makedirs] is outside every [try]; an exception while
    the output is written ends the run with [sys.exit(1)]. *)
Definition sort_comparisons (fs : FileSystem) (col1 col2 : Z)
    (output_file : option string) (inputs : list string)
  : Session (list string) :=
  match read_tsv_file (input_lines fs) with
  | Exited code => Exited code
  | Raised exn => Raised exn
  | Finished (header, data) =>
    let num_cols := Z.of_nat (length header) in
    if ((col1 <? 1) || (num_cols <? col1) || (col2 <? 1) || (num_cols <? col2))%Z
    then Exited 1
    else if negb (output_dir_made fs output_file) then Raised "OSError"
    else
      match sort_rows data data 0 default_groups ∅ inputs with
      | Exited code => Exited code
      | Raised exn => Raised exn
      | Finished s =>
        if output_ok fs then Finished (sorted_report header s) else Exited 1
      end
  end.

Definition comparison_file : list string :=
  ["Abbr" +:+ tab +:+ "Name Source" +:+ tab +:+ "Content Before" +:+ tab
          +:+ "Content After" +:+ line_end;
   "1" +:+ tab +:+ "Sky" +:+ tab +:+ "Ceu" +:+ tab +:+ "Ceus" +:+ line_end;
   line_end;
   "2" +:+ tab +:+ "Sun" +:+ tab +:+ "Sol" +:+ tab +:+ "O sol" +:+ line_end;
   "3" +:+ tab +:+ "Moon" +:+ tab +:+ "Lua" +:+ tab +:+ "A lua" +:+ line_end].

(** A file system on which nothing fails. *)
Definition comparison_fs : FileSystem :=
  {| input_lines := Some comparison_file; makedirs_ok := true;
     output_ok := true |}.

(** What a call of [get_user_choice] guarantees. *)
Definition choice_ok (gc : gmap ascii string) (inputs : list string)
    (result : Choice) : Prop :=
  match result with
  | Selected groups gc' rest =>
    groups <> [] ∧ gc ⊆ gc'
    ∧ Forall (fun g => ∃ c, gc' !! c = Some g) groups
    ∧ length rest < length inputs
  | EndEarly gc' rest => gc ⊆ gc' ∧ length rest < length inputs
  | Cancelled => True
  end.

(** Every name in the sets of [groups] is a value of [group_chars], and
    no set is empty. *)
Definition labelled (group_chars : gmap ascii string)
    (groups : gmap nat (gset string)) : Prop :=
  forall j (set : gset string),
    groups !! j = Some set ->
    set <> ∅ ∧ forall g, g ∈ set -> ∃ c, group_chars !! c = Some g.

(** [groups] has an entry for the rows before [n] and for no other. *)
Definition covers (groups : gmap nat (gset string)) (n : nat) : Prop :=
  forall j, is_Some (groups !! j) <-> j < n.

(** ** More sample documents *)

(** A group with two names; the second is pending. *)
Definition named_old : Element := tu "5_Name" "Old" "final" "Velho".
Definition named_new : Element := tu "5_Name" "New" "needs-translation" "Novo".
Definition twice_named : Element := grp "5" [guid; named_old; named_new].

(** Two groups with one id. *)
Definition seven_a : Element := domain "7" "7" "One" "Um" "final".
Definition seven_b : Element := domain "7" "7b" "Two" "Dois" "final".
Definition repeated : Element := doc [seven_a; seven_b].

Definition comparison_rows : list (list string) :=
  [["1"; "Sky"; "Ceu"; "Ceus"]; ["2"; "Sun"; "Sol"; "O sol"];
   ["3"; "Moon"; "Lua"; "A lua"]].

(** The record of [colours]. *)
Definition green_record : IdenticalRecord :=
  {| ir_id := "7"; ir_resname := "7_Name";
     ir_source := "red, green, blue"; ir_target := "vermelho, green";
     matching_pieces := ["green"]; ir_type := "approved (comma-split)" |}.

(** ** Proof steps *)

(** Case analysis on every test and pattern match of a loop body. *)
Ltac split_branches :=
  repeat match goal with
         | |- context [if ?b then _ else _] => destruct b
         | |- context [match ?o with Some _ => _ | None => _ end] => destruct o
         | |- context [match ?l with [] => _ | _ :: _ => _ end] => destruct l
         end.

(** * Properties *)

Example split_three : PyStr.split ","%char "a, b, c" = ["a"; " b"; " c"].
Proof. reflexivity. Qed.

Example split_empty : PyStr.split ","%char "" = [""].
Proof. reflexivity. Qed.

Example strip_both : PyStr.strip "  a b  " = "a b".
Proof. reflexivity. Qed.

Example replace_name :
  PyStr.replace "_Name" "_Abbr" "1_Name_Name" = "1_Abbr_Abbr".
Proof. reflexivity. Qed.

Example question_pattern :
  (search_question "1_Qs_12_Q", search_question "1_Qs__Q",
   search_question "1_Qs_1_Qx", search_suffix "_Name" "1_Name",
   search_suffix "_Name" "1_Namex")
  = (true, false, false, true, false).
Proof. reflexivity. Qed.

(** ** Loops that only append *)

Section Appending.
Context {A B : Type} (step : list B -> A -> list B) (emit : A -> list B).
Hypothesis step_appends : forall acc x, step acc x = acc ++ emit x.

Lemma fold_left_appends (l : list A) (acc : list B) :
  fold_left step l acc = acc ++ flat_map emit l.
Proof.
  revert acc; induction l as [|x l IH]; intros acc; simpl.
  - by rewrite app_nil_r.
  - rewrite IH, step_appends. by rewrite <- app_assoc.
Qed.
End Appending.

Section AppendingPair.
Context {A B C : Type} (step : list B * list C -> A -> list B * list C).
Context (left : A -> list B) (right : A -> list C).
Hypothesis step_appends :
  forall acc x, step acc x = (acc.1 ++ left x, acc.2 ++ right x).

Lemma fold_left_appends_pair (l : list A) (acc : list B * list C) :
  fold_left step l acc = (acc.1 ++ flat_map left l, acc.2 ++ flat_map right l).
Proof.
  revert acc; induction l as [|x l IH]; intros [b c]; simpl.
  - by rewrite !app_nil_r.
  - rewrite IH, step_appends. simpl. by rewrite <- !app_assoc.
Qed.
End AppendingPair.

Lemma flat_map_optional {A B : Type} (keep : A -> bool) (f : A -> B) (l : list A) :
  flat_map (fun x => if keep x then [f x] else []) l = List.map f (List.filter keep l).
Proof.
  induction l as [|x l IH]; simpl; [done|].
  destruct (keep x); simpl; by rewrite IH.
Qed.

Lemma filter_filter_andb {A : Type} (p q : A -> bool) (l : list A) :
  List.filter q (List.filter p l) = List.filter (fun x => p x && q x) l.
Proof.
  induction l as [|x l IH]; simpl; [done|].
  destruct (p x); simpl; [destruct (q x)|]; by rewrite IH.
Qed.

Lemma filter_none {A : Type} (f : A -> bool) (l : list A) :
  (forall x, In x l -> f x = false) -> List.filter f l = [].
Proof.
  induction l as [|x l IH]; intros H; simpl; [done|].
  rewrite (H x) by by left. apply IH. intros; apply H; by right.
Qed.

(** ** Effective children *)

Lemma endswith_cons a s suf :
  PyStr.endswith (String a s) suf
  = if String.eqb (String a s) suf then true else PyStr.endswith s suf.
Proof. reflexivity. Qed.

(** No tag is both a group and a translation unit. *)
Lemma endswith_group_not_unit (t : string) :
  PyStr.endswith t "group" = true -> PyStr.endswith t "trans-unit" = false.
Proof.
  induction t as [|a t IH]; [discriminate|].
  rewrite !endswith_cons.
  destruct (String.eqb_spec (String a t) "group") as [E|_];
    [injection E as -> ->; reflexivity|].
  intros H. specialize (IH H).
  destruct (String.eqb_spec (String a t) "trans-unit") as [E|_]; [|exact IH].
  injection E as _ ->. discriminate H.
Qed.

Lemma collect_child_appends ns acc child :
  collect_child ns acc child = acc ++ spec_effective_child ns child.
Proof.
  unfold collect_child, spec_effective_child, is_translation_unit, is_group,
    flagged_SubPos, findall_ns, ET.findall_descendants.
  destruct (PyStr.endswith (tag child) "group") eqn:G.
  - rewrite (endswith_group_not_unit _ G). simpl.
    destruct (PyStr.contains "_SubPos" (ET.get child "id" "")); simpl.
    + by rewrite app_nil_r.
    + by destruct (use_ns ns).
  - simpl. destruct (PyStr.endswith (tag child) "trans-unit"); [done|].
    by rewrite app_nil_r.
Qed.

Lemma effective_units_flat ns group :
  effective_units ns group = flat_map (spec_effective_child ns) (children group).
Proof.
  unfold effective_units.
  by rewrite (fold_left_appends _ _ (collect_child_appends ns)).
Qed.

Lemma skipped_child ns child :
  is_group child = true -> flagged_SubPos child = true ->
  spec_effective_child ns child = [].
Proof.
  intros G F. unfold spec_effective_child, is_translation_unit.
  by rewrite (endswith_group_not_unit _ G), G, F.
Qed.

(** C1.  The units a group is resolved from are, child by child in document
    order: the child itself when it is a translation unit; the descendant
    translation units of the child when it is a group whose identifier does
    not contain [_SubPos]; nothing for any other child.  A direct child
    group whose identifier contains [_SubPos] is skipped entirely: the
    group resolves to the same units with that child removed.  Both
    [parse_xlf_file] and [extract_data] build the list with this loop. *)
Theorem effective_children_traversal (ns : Namespaces) (group : Element) :
  effective_units ns group
  = flat_map (spec_effective_child ns) (children group)
  ∧ (forall before child after,
       children group = before ++ child :: after ->
       is_group child = true ->
       flagged_SubPos child = true ->
       effective_units ns group
       = effective_units ns
           (Elem (tag group) (attrib group) (text group) (before ++ after)
                 (tail group))).
Proof.
  split; [apply effective_units_flat|].
  intros before child after Hc G F. rewrite !effective_units_flat, Hc. simpl.
  rewrite !flat_map_app. simpl. by rewrite (skipped_child ns child G F).
Qed.

Lemma effective_children_traversal_witness :
  effective_units plain sky
  = effective_units plain (grp "1" [sky_unit; sky_desc]).
Proof.
  apply (proj2 (effective_children_traversal plain sky) [sky_unit] sky_sub
               [sky_desc]); reflexivity.
Defined.

(** The group of the design's example: only the direct unit and the units
    under the group that is not flagged are kept. *)
Example sky_effective_units :
  effective_units plain sky
  = [sky_unit; tu "1_Desc_0" "above" "final" "acima"].
Proof. reflexivity. Qed.

(** ** The diff loop *)

Lemma compare_group_appends data1 data2 ct st changes g :
  compare_group data1 data2 (dom data1 ∩ dom data2) ct st changes g
  = changes ++
    (if in_both data1 data2 g && emitted data1 data2 ct st g
     then [change_record ct st (data1 !!! g) (data2 !!! g)] else []).
Proof.
  unfold compare_group, in_both, emitted, changed, change_record.
  destruct (decide (g ∈ dom data1 ∩ dom data2)) as [Hin|Hout].
  - rewrite (bool_decide_eq_true_2 _ Hin). simpl.
    destruct ct, st; simpl; rewrite ?orb_false_r;
      match goal with |- context [if ?b then _ else _] => destruct b end;
      simpl; by rewrite ?app_nil_r.
  - rewrite (bool_decide_eq_false_2 _ Hout). simpl. by rewrite app_nil_r.
Qed.

Lemma find_changes_flat data1 order1 data2 order2 ct st :
  find_changes (data1, order1) (data2, order2) ct st
  = flat_map (compare_group data1 data2 (dom data1 ∩ dom data2) ct st []) order2.
Proof.
  unfold find_changes.
  rewrite (fold_left_appends _
             (compare_group data1 data2 (dom data1 ∩ dom data2) ct st [])); [done|].
  intros acc g. by rewrite !compare_group_appends.
Qed.

Lemma find_changes_ordered data1 order1 data2 order2 ct st :
  find_changes (data1, order1) (data2, order2) ct st
  = List.map (fun g => change_record ct st (data1 !!! g) (data2 !!! g))
      (List.filter (emitted data1 data2 ct st)
         (List.filter (in_both data1 data2) order2)).
Proof.
  rewrite find_changes_flat, filter_filter_andb, <- flat_map_optional.
  apply flat_map_ext. intros g. by rewrite compare_group_appends.
Qed.

Lemma changed_true ct st d1 d2 :
  changed ct st d1 d2 = true <->
  (tracked_target ct d1 ≠ tracked_target ct d2
   ∨ (st = true ∧ tracked_state ct d1 ≠ tracked_state ct d2)).
Proof.
  unfold changed. rewrite orb_true_iff, andb_true_iff, !negb_true_iff.
  rewrite !String.eqb_neq. tauto.
Qed.

(** Under the membership test the two dictionary reads find their keys. *)
Lemma lookup_total_Some (data : gmap string GroupData) g d :
  data !! g = Some d -> data !!! g = d.
Proof. intros H. by rewrite lookup_total_alt, H. Qed.

Lemma in_both_true data1 data2 g :
  in_both data1 data2 g = true <->
  ∃ d1 d2, data1 !! g = Some d1 ∧ data2 !! g = Some d2.
Proof.
  unfold in_both. rewrite bool_decide_eq_true, elem_of_intersection.
  rewrite !elem_of_dom. unfold is_Some. naive_solver.
Qed.

(** ** The snapshot's order lists exactly the keys of its dictionary *)

Lemma record_groups_order ns groups acc :
  (fold_left (record_group ns) groups acc).2
  = acc.2 ++ List.map (fun group => ET.get group "id" "") groups.
Proof.
  revert acc; induction groups as [|g gs IH]; intros acc; simpl.
  - by rewrite app_nil_r.
  - rewrite IH. simpl. by rewrite <- app_assoc.
Qed.

Lemma record_groups_dom ns groups acc :
  dom (fold_left (record_group ns) groups acc).1
  = dom acc.1 ∪ list_to_set (List.map (fun group => ET.get group "id" "") groups).
Proof.
  revert acc; induction groups as [|g gs IH]; intros acc; simpl.
  - set_solver.
  - rewrite IH. simpl. rewrite dom_insert_L. set_solver.
Qed.

Lemma resolve_order_keys ns root g :
  g ∈ (resolve ns root).2 <-> g ∈ dom (resolve ns root).1.
Proof.
  unfold resolve. rewrite record_groups_order, record_groups_dom. simpl.
  rewrite dom_empty_L. set_solver.
Qed.

(** Every entry of the dictionary is the resolution of one of the groups. *)
Lemma record_groups_lookup ns groups acc g d :
  (fold_left (record_group ns) groups acc).1 !! g = Some d ->
  acc.1 !! g = Some d
  ∨ ∃ group, In group groups ∧ ET.get group "id" "" = g
             ∧ d = resolve_group ns group.
Proof.
  revert acc; induction groups as [|x xs IH]; intros acc H; simpl in *; [by left|].
  apply IH in H as [H|(group & Hin & Hid & Hd)].
  - cbn in H. destruct (decide (ET.get x "id" "" = g)) as [E|N].
    + rewrite E, lookup_insert_eq in H. injection H as <-.
      right. exists x. auto.
    + rewrite lookup_insert_ne in H by done. by left.
  - right. exists group. auto.
Qed.

Lemma resolve_lookup ns root g d :
  (resolve ns root).1 !! g = Some d ->
  ∃ group, In group (target_groups ns root) ∧ ET.get group "id" "" = g
           ∧ d = resolve_group ns group.
Proof.
  intros H. apply record_groups_lookup in H as [H|H]; [|done].
  cbn in H. by rewrite lookup_empty in H.
Qed.

(** C2.  The diff of two resolved snapshots is the concatenation, over the
    newer snapshot's group order, of each group's contribution, and a group
    identifier [g] contributes a record if and only if it is present in
    both snapshots and the tracked target content differs, or states are
    included and the tracked target state differs.  A group present in only
    one snapshot, or unchanged under the active predicate, contributes
    nothing. *)
Theorem diff_membership (ns1 ns2 : Namespaces) (root1 root2 : Element)
    (compare_type : CompareType) (include_state : bool) (g : string) :
  let older := resolve ns1 root1 in
  let newer := resolve ns2 root2 in
  let contribution :=
    compare_group older.1 newer.1 (dom older.1 ∩ dom newer.1)
                  compare_type include_state [] in
  find_changes older newer compare_type include_state
  = flat_map contribution newer.2
  ∧ ((g ∈ newer.2 ∧ contribution g ≠ []) <->
     ∃ d1 d2, older.1 !! g = Some d1 ∧ newer.1 !! g = Some d2
       ∧ (tracked_target compare_type d1 ≠ tracked_target compare_type d2
          ∨ (include_state = true
             ∧ tracked_state compare_type d1 ≠ tracked_state compare_type d2))).
Proof.
  intros older newer contribution. split.
  - destruct older as [data1 order1], newer as [data2 order2].
    apply find_changes_flat.
  - subst contribution. rewrite compare_group_appends. simpl.
    split.
    + intros [_ Hne].
      destruct (in_both older.1 newer.1 g) eqn:Hb; [|done].
      destruct (emitted older.1 newer.1 compare_type include_state g) eqn:He;
        [|done].
      apply in_both_true in Hb as (d1 & d2 & H1 & H2).
      exists d1, d2. split; [done|]. split; [done|].
      apply changed_true. unfold emitted in He.
      by rewrite (lookup_total_Some _ _ _ H1), (lookup_total_Some _ _ _ H2) in He.
    + intros (d1 & d2 & H1 & H2 & Hch). split.
      * apply resolve_order_keys, elem_of_dom. eauto.
      * assert (in_both older.1 newer.1 g = true) as ->
          by (apply in_both_true; eauto).
        unfold emitted.
        rewrite (lookup_total_Some _ _ _ H1), (lookup_total_Some _ _ _ H2).
        apply changed_true in Hch. by rewrite Hch.
Qed.

(** Group 2 changed its state only, group 1 its content, group 3 nothing;
    group 4 is new and is left out. *)
Example diff_with_state :
  find_changes (resolve plain older) (resolve plain newer) CompareName true
  = [ {| ch_abbr := "2.0"; ch_name_source := "Person"; ch_desc_source := None;
         content_before := "Pessoa"; content_after := "Pessoa";
         state_before := Some "translated"; state_after := Some "final" |};
      {| ch_abbr := "1.0"; ch_name_source := "Universe, creation";
         ch_desc_source := None;
         content_before := "Universo"; content_after := "Universo, criacao";
         state_before := Some "translated";
         state_after := Some "translated" |} ].
Proof. reflexivity. Qed.

Example diff_content_only :
  find_changes (resolve plain older) (resolve plain newer) CompareName false
  = [ {| ch_abbr := "1.0"; ch_name_source := "Universe, creation";
         ch_desc_source := None;
         content_before := "Universo"; content_after := "Universo, criacao";
         state_before := None; state_after := None |} ].
Proof. reflexivity. Qed.

(** C6.  The records of the diff are in the order of the newer snapshot's
    group list, restricted to the identifiers present in both snapshots
    (and, among those, to the ones that changed); the older snapshot's
    order is never read; and a snapshot's group list is the document order
    of its semantic-domain groups. *)
Theorem diff_order (older newer : gmap string GroupData * list string)
    (compare_type : CompareType) (include_state : bool) :
  find_changes older newer compare_type include_state
  = List.map (fun g => change_record compare_type include_state
                                     (older.1 !!! g) (newer.1 !!! g))
      (List.filter (emitted older.1 newer.1 compare_type include_state)
         (List.filter (in_both older.1 newer.1) newer.2))
  ∧ (forall order1 : list string,
       find_changes (older.1, order1) newer compare_type include_state
       = find_changes older newer compare_type include_state)
  ∧ (forall (ns : Namespaces) (root : Element),
       (resolve ns root).2
       = List.map (fun group => ET.get group "id" "") (target_groups ns root)).
Proof.
  destruct older as [data1 order1], newer as [data2 order2]; cbn [fst snd].
  split; [apply find_changes_ordered|]. split.
  - intros order1'. by rewrite !find_changes_flat.
  - intros ns root. unfold resolve. by rewrite record_groups_order.
Qed.

Example newer_order : (resolve plain newer).2 = ["4"; "2"; "1"; "3"].
Proof. reflexivity. Qed.

(** C10.  Every record of the diff belongs to a group of the newer
    snapshot's list that both snapshots hold; its abbreviation, its name
    source and (for a description diff) its description source are the
    newer snapshot's, its content-before and state-before the older
    snapshot's, its content-after and state-after the newer snapshot's. *)
Theorem change_record_sides (older newer : gmap string GroupData * list string)
    (compare_type : CompareType) (include_state : bool) (r : ChangeData) :
  In r (find_changes older newer compare_type include_state) ->
  ∃ (g : string) (d1 d2 : GroupData),
    In g newer.2 ∧ older.1 !! g = Some d1 ∧ newer.1 !! g = Some d2
    ∧ ch_abbr r = abbr d2
    ∧ ch_name_source r = name_source d2
    ∧ ch_desc_source r
      = match compare_type with
        | CompareName => None
        | CompareDescription => Some (desc_source d2)
        end
    ∧ content_before r = tracked_target compare_type d1
    ∧ content_after r = tracked_target compare_type d2
    ∧ state_before r
      = (if include_state then Some (tracked_state compare_type d1) else None)
    ∧ state_after r
      = (if include_state then Some (tracked_state compare_type d2) else None).
Proof.
  destruct older as [data1 order1], newer as [data2 order2]; cbn [fst snd].
  rewrite find_changes_ordered, in_map_iff.
  intros (g & <- & Hg).
  apply filter_In in Hg as [Hg _]. apply filter_In in Hg as [Hg Hboth].
  apply in_both_true in Hboth as (d1 & d2 & H1 & H2).
  exists g, d1, d2.
  rewrite (lookup_total_Some _ _ _ H1), (lookup_total_Some _ _ _ H2).
  by repeat split.
Qed.

Lemma change_record_sides_witness :
  ∃ (g : string) (d1 d2 : GroupData),
    In g (resolve plain newer).2
    ∧ (resolve plain older).1 !! g = Some d1
    ∧ (resolve plain newer).1 !! g = Some d2
    ∧ "2.0" = abbr d2
    ∧ "Person" = name_source d2
    ∧ (None : option string) = None
    ∧ "Pessoa" = tracked_target CompareName d1
    ∧ "Pessoa" = tracked_target CompareName d2
    ∧ Some "translated" = Some (tracked_state CompareName d1)
    ∧ Some "final" = Some (tracked_state CompareName d2).
Proof.
  apply (change_record_sides (resolve plain older) (resolve plain newer)
           CompareName true
           {| ch_abbr := "2.0"; ch_name_source := "Person";
              ch_desc_source := None;
              content_before := "Pessoa"; content_after := "Pessoa";
              state_before := Some "translated";
              state_after := Some "final" |}).
  vm_compute. left. reflexivity.
Defined.

(** ** List-length mismatches *)

Lemma comma_unit_appends ns all acc u :
  comma_unit ns all acc u
  = (acc.1 ++ (if target_longer ns u then [mismatch_record ns all u] else []),
     acc.2 ++ (if target_shorter ns u then [mismatch_record ns all u] else [])).
Proof.
  unfold comma_unit, target_longer, target_shorter, is_name_unit, piece_counts,
    mismatch_record; cbn [fst snd].
  destruct acc as [inc dec]; cbn [fst snd].
  destruct (PyStr.endswith (unit_identifier u) "_Name"); simpl;
    [|by rewrite !app_nil_r].
  set (n := length (comma_parts (extract_text (find_ns ns "source" u)))).
  set (m := length (comma_parts (extract_text (find_ns ns "target" u)))).
  destruct (Nat.eqb_spec n m) as [E|E]; simpl.
  - rewrite E, Nat.ltb_irrefl. by rewrite !app_nil_r.
  - destruct (Nat.ltb_spec n m) as [L|L].
    + assert (Nat.ltb m n = false) as -> by (apply Nat.ltb_ge; lia).
      by rewrite app_nil_r.
    + assert (Nat.ltb m n = true) as -> by (apply Nat.ltb_lt; lia).
      by rewrite app_nil_r.
Qed.

Lemma length_mismatches_buckets ns root :
  length_mismatches ns root
  = (List.map (mismatch_record ns (findall_ns ns "trans-unit" root))
       (List.filter (target_longer ns) (findall_ns ns "trans-unit" root)),
     List.map (mismatch_record ns (findall_ns ns "trans-unit" root))
       (List.filter (target_shorter ns) (findall_ns ns "trans-unit" root))).
Proof.
  unfold length_mismatches.
  rewrite (fold_left_appends_pair _ _ _ (comma_unit_appends ns _)).
  cbn [fst snd app]. by rewrite !flat_map_optional.
Qed.

Lemma split_length_no_sep sep s :
  PyStr.index sep s = None -> length (PyStr.split sep s) = 1.
Proof.
  induction s as [|a s IH]; simpl; [done|].
  destruct (Ascii.eqb a sep); [done|].
  destruct (PyStr.index sep s); [done|]. intros _.
  specialize (IH eq_refl). by destruct (PyStr.split sep s).
Qed.

Lemma comma_parts_length text :
  length (comma_parts text) = length (PyStr.split ","%char text).
Proof. unfold comma_parts. apply length_map. Qed.

(** C5.  The two buckets of [comma_lists] are, in encounter order, the
    records of the [_Name] units whose target has more comma-separated
    pieces than the source, and of those whose target has fewer; the counts
    in a record are the numbers of pieces after splitting on commas and
    trimming.  A [_Name] unit is in the first bucket exactly when the
    target count exceeds the source count, in the second exactly when the
    counts differ otherwise, and in neither when the counts are equal.  The
    empty string has one piece, and so has any text without a comma. *)
Theorem list_length_mismatch_rule (ns : Namespaces) (root : Element) :
  let units := findall_ns ns "trans-unit" root in
  length_mismatches ns root
  = (List.map (mismatch_record ns units) (List.filter (target_longer ns) units),
     List.map (mismatch_record ns units) (List.filter (target_shorter ns) units))
  ∧ (forall u : Element,
       source_count (mismatch_record ns units u)
       = length (List.map PyStr.strip
                   (PyStr.split ","%char (extract_text (find_ns ns "source" u))))
       ∧ target_count (mismatch_record ns units u)
         = length (List.map PyStr.strip
                     (PyStr.split ","%char (extract_text (find_ns ns "target" u)))))
  ∧ (forall u : Element,
       (target_longer ns u = true <->
        is_name_unit u = true
        ∧ (piece_counts ns u).1 < (piece_counts ns u).2)
       ∧ (target_shorter ns u = true <->
          is_name_unit u = true
          ∧ (piece_counts ns u).1 ≠ (piece_counts ns u).2
          ∧ ¬ (piece_counts ns u).1 < (piece_counts ns u).2)
       ∧ ((piece_counts ns u).1 = (piece_counts ns u).2 ->
          target_longer ns u = false ∧ target_shorter ns u = false))
  ∧ length (comma_parts "") = 1
  ∧ (forall text : string,
       PyStr.index ","%char text = None -> length (comma_parts text) = 1).
Proof.
  intros units. split; [apply length_mismatches_buckets|].
  split; [by intros u|]. split.
  - intros u. unfold target_longer, target_shorter.
    rewrite !andb_true_iff, !Nat.ltb_lt.
    split; [tauto|]. split; [split; intros H; (split; [tauto|lia])|].
    intros E. rewrite E, Nat.ltb_irrefl. by rewrite !andb_false_r.
  - split; [reflexivity|]. intros text H.
    rewrite comma_parts_length. by apply split_length_no_sep.
Qed.

Lemma list_length_mismatch_rule_witness :
  PyStr.index ","%char "Universe" = None
  ∧ length (comma_parts "Universe") = 1.
Proof.
  split; [reflexivity|].
  apply (list_length_mismatch_rule plain lists). reflexivity.
Defined.

(** The design's examples: three pieces against two is "target shorter",
    one against two is "target longer"; equal counts and the empty source
    give no record. *)
Example lists_mismatches :
  comma_lists (Some lists)
  = Returned
      ([ {| abbr_source := ""; cl_name_source := "a"; cl_name_target := "a, b";
            cl_target_state := "final"; source_count := 1; target_count := 2 |} ],
       [ {| abbr_source := ""; cl_name_source := "a, b, c";
            cl_name_target := "x, y"; cl_target_state := "final";
            source_count := 3; target_count := 2 |} ]).
Proof. reflexivity. Qed.

(** ** The needs-translation state *)

Lemma suppressed_text_needs_translation target_elem :
  suppressed_text "needs-translation" target_elem = "".
Proof. reflexivity. Qed.

Lemma resolve_unit_suppressed ns d u :
  suppressed d -> suppressed (resolve_unit ns d u).
Proof.
  intros [Hn Hd]. unfold resolve_unit.
  destruct (PyStr.endswith (ET.get u "id" "") "_Abbr"); [by split|].
  destruct (PyStr.endswith (ET.get u "id" "") "_Name").
  { split; cbn; [|done]. intros ->. apply suppressed_text_needs_translation. }
  destruct (PyStr.endswith (ET.get u "id" "") "_Desc_0"); [|by split].
  split; cbn; [done|]. intros ->. apply suppressed_text_needs_translation.
Qed.

Lemma resolve_group_suppressed ns group : suppressed (resolve_group ns group).
Proof.
  unfold resolve_group.
  assert (suppressed empty_group_data) as H by (split; discriminate).
  revert H. generalize empty_group_data.
  induction (effective_units ns group) as [|u us IH]; intros d H; simpl; [done|].
  by apply IH, resolve_unit_suppressed.
Qed.

(** C4, as stated, fails: [comma_lists] counts the pieces of the text stored
    under a [needs-translation] target and reports the unit, where an empty
    target text would give equal counts and no record. *)
Lemma needs_translation_text_counted :
  comma_lists (Some pending)
  = Returned ([ {| abbr_source := "9"; cl_name_source := "Sky";
                   cl_name_target := "Sky, heaven";
                   cl_target_state := "needs-translation";
                   source_count := 1; target_count := 2 |} ], [])
  ∧ comma_lists (Some pending_blank) = Returned ([], []).
Proof. split; reflexivity. Qed.

(** ** Identical translations *)

(** C3.  For a unit that passes the [_Abbr] and [needs-translation] filters
    and has the source and target elements whose texts the rules compare,
    the loop appends what the rule selected by the two flags records:
    approved and not suppressed, the non-empty trimmed comma pieces of the
    target that occur in the raw source text, when there is at least one;
    approved and suppressed, or not approved and not suppressed, the source
    text when it equals the target text exactly; not approved and
    suppressed, nothing. *)
Theorem four_way_rule_table (results : list IdenticalRecord)
    (trans_unit source target : Element) :
  PyStr.endswith (ET.get trans_unit "resname" "") "_Abbr" = false ->
  ET.find (qualified xliff_1_2 "source") trans_unit = Some source ->
  ET.find (qualified xliff_1_2 "target") trans_unit = Some target ->
  ET.get_opt target "state" ≠ Some "needs-translation" ->
  let approved := is_yes (ET.get_opt trans_unit "approved") in
  let translate_suppressed := is_no (ET.get_opt trans_unit "translate") in
  let source_text := ET.truthy (text source) in
  let target_text := ET.truthy (text target) in
  identical_unit results trans_unit
  = results ++
    match rule_outcome (rule_of approved translate_suppressed)
                       source_text target_text with
    | Some (pieces, type) =>
      [ {| ir_id := ET.get trans_unit "id" "N/A";
           ir_resname := ET.get trans_unit "resname" "";
           ir_source := source_text;
           ir_target := target_text;
           matching_pieces := pieces;
           ir_type := type |} ]
    | None => []
    end.
Proof.
  intros Habbr Hs Ht Hstate approved translate_suppressed source_text target_text.
  unfold identical_unit. rewrite Habbr, Hs, Ht.
  replace (is_needs_translation (ET.get_opt target "state")) with false.
  2:{ destruct (ET.get_opt target "state") as [v|]; simpl; [|done].
      symmetry. apply String.eqb_neq. congruence. }
  fold approved translate_suppressed source_text target_text.
  destruct approved, translate_suppressed; simpl.
  - destruct (String.eqb source_text target_text); simpl; by rewrite ?app_nil_r.
  - unfold matching, comma_parts.
    destruct (List.filter _ _) as [|p ps]; simpl; by rewrite ?app_nil_r.
  - by rewrite app_nil_r.
  - destruct (String.eqb source_text target_text); simpl; by rewrite ?app_nil_r.
Qed.

Lemma four_way_rule_table_witness :
  identical_unit [] colours
  = [ {| ir_id := "7"; ir_resname := "7_Name";
         ir_source := "red, green, blue"; ir_target := "vermelho, green";
         matching_pieces := ["green"]; ir_type := "approved (comma-split)" |} ].
Proof.
  apply (four_way_rule_table [] colours
           (leaf (qualified xliff_1_2 "source") [] "red, green, blue")
           (leaf (qualified xliff_1_2 "target") [("state", "translated")]
                 "vermelho, green")).
  - reflexivity.
  - reflexivity.
  - reflexivity.
  - discriminate.
Defined.

(** The rules read both texts: a unit without a source or without a target
    element adds no record. *)
Lemma identical_unit_without_elements results u :
  ET.find (qualified xliff_1_2 "source") u = None
  \/ ET.find (qualified xliff_1_2 "target") u = None ->
  identical_unit results u = results.
Proof.
  intros H. unfold identical_unit.
  destruct (PyStr.endswith _ _); [done|].
  destruct H as [-> | ->]; [done|].
  by destruct (ET.find (qualified xliff_1_2 "source") u).
Qed.

(** An approved, translation-suppressed unit is recorded when its target
    repeats the source and not when it is translated. *)
Example fish_kept_recorded :
  identical_unit [] fish_kept
  = [ {| ir_id := "8"; ir_resname := "8_Name"; ir_source := "Fish";
         ir_target := "Fish"; matching_pieces := ["Fish"];
         ir_type := "approved + translate=no (identical)" |} ]
  ∧ identical_unit [] fish_translated = [].
Proof. split; reflexivity. Qed.

(** *** The stable sort *)

Section StableSort.
Context {A : Type} (key : A -> nat).

Lemma bucket_insert_by k x l :
  bucket key k (insert_by key x l)
  = if Nat.eqb (key x) k then x :: bucket key k l else bucket key k l.
Proof.
  unfold bucket. induction l as [|y l IH]; simpl.
  - by destruct (Nat.eqb (key x) k).
  - destruct (Nat.leb_spec (key x) (key y)) as [L|L]; simpl.
    + by destruct (Nat.eqb (key x) k).
    + rewrite IH. destruct (Nat.eqb_spec (key x) k) as [E|E]; [|done].
      destruct (Nat.eqb_spec (key y) k) as [E'|E']; [lia|done].
Qed.

(** Sorting moves no record past another of the same key. *)
Lemma bucket_sort_by k l : bucket key k (sort_by key l) = bucket key k l.
Proof.
  induction l as [|x l IH]; simpl; [done|].
  rewrite bucket_insert_by, IH. unfold bucket. simpl.
  by destruct (Nat.eqb (key x) k).
Qed.

Lemma insert_by_In x l z : In z (insert_by key x l) -> z = x \/ In z l.
Proof.
  induction l as [|w l IH]; simpl; [intuition congruence|].
  destruct (Nat.leb (key x) (key w)); simpl; [intuition congruence|].
  intros [->|H]; [tauto|]. apply IH in H. tauto.
Qed.

Lemma insert_by_ordered x l : ordered key l -> ordered key (insert_by key x l).
Proof.
  unfold ordered. intros H. induction H as [|y l Hl IH Hy]; simpl.
  - repeat constructor.
  - destruct (Nat.leb_spec (key x) (key y)) as [L|L].
    + constructor; [by constructor|].
      constructor; [done|].
      eapply Forall_impl; [exact Hy|]. simpl. intros; lia.
    + constructor; [done|].
      apply List.Forall_forall. intros z Hz.
      apply insert_by_In in Hz as [->|Hz]; [lia|].
      rewrite List.Forall_forall in Hy. by apply Hy.
Qed.

Lemma sort_by_ordered l : ordered key (sort_by key l).
Proof.
  induction l as [|x l IH]; simpl; [constructor|]. by apply insert_by_ordered.
Qed.

Lemma bucket_above k l :
  Forall (fun x => k < key x) l -> bucket key k l = [].
Proof.
  unfold bucket. induction 1 as [|x l Hx _ IH]; simpl; [done|].
  destruct (Nat.eqb_spec (key x) k); [lia|done].
Qed.

(** An ordered list whose keys run from 1 to 4 is its four buckets in
    turn. *)
Lemma ordered_buckets l :
  ordered key l -> Forall (fun x => 1 <= key x <= 4) l ->
  l = bucket key 1 l ++ bucket key 2 l ++ bucket key 3 l ++ bucket key 4 l.
Proof.
  unfold ordered. intros H. induction H as [|x l Hl IH Hx]; intros Hr; [done|].
  inversion Hr as [|? ? Hkx Hr']; subst. specialize (IH Hr').
  assert (forall k, k < key x -> bucket key k l = []) as Hlow.
  { intros k Hk. apply bucket_above.
    eapply Forall_impl; [exact Hx|]. simpl. intros; lia. }
  unfold bucket in *. simpl.
  destruct (Nat.eqb_spec (key x) 1) as [E1|N1].
  { destruct (Nat.eqb_spec (key x) 2); [lia|].
    destruct (Nat.eqb_spec (key x) 3); [lia|].
    destruct (Nat.eqb_spec (key x) 4); [lia|].
    simpl. by rewrite <- IH. }
  destruct (Nat.eqb_spec (key x) 2) as [E2|N2].
  { destruct (Nat.eqb_spec (key x) 3); [lia|].
    destruct (Nat.eqb_spec (key x) 4); [lia|].
    rewrite (Hlow 1) by lia. simpl.
    rewrite IH at 1. by rewrite (Hlow 1) by lia. }
  destruct (Nat.eqb_spec (key x) 3) as [E3|N3].
  { destruct (Nat.eqb_spec (key x) 4); [lia|].
    rewrite (Hlow 1), (Hlow 2) by lia. simpl.
    rewrite IH at 1. by rewrite (Hlow 1), (Hlow 2) by lia. }
  destruct (Nat.eqb_spec (key x) 4) as [E4|N4]; [|lia].
  rewrite (Hlow 1), (Hlow 2), (Hlow 3) by lia. simpl.
  rewrite IH at 1. by rewrite (Hlow 1), (Hlow 2), (Hlow 3) by lia.
Qed.

Lemma sort_by_buckets l :
  (forall x, 1 <= key x <= 4) ->
  sort_by key l
  = bucket key 1 l ++ bucket key 2 l ++ bucket key 3 l ++ bucket key 4 l.
Proof.
  intros Hr.
  rewrite (ordered_buckets (sort_by key l)) at 1.
  - by rewrite !bucket_sort_by.
  - apply sort_by_ordered.
  - apply List.Forall_forall. auto.
Qed.
End StableSort.

Lemma type_order_range type : 1 <= type_order type <= 4.
Proof.
  unfold type_order.
  repeat match goal with |- context [if ?b then _ else _] => destruct b end; lia.
Qed.

Lemma bucket_of_type (k : nat) (type : string) (results : list IdenticalRecord) :
  (forall t, Nat.eqb (type_order t) k = String.eqb t type) ->
  bucket (fun x => type_order (ir_type x)) k results = of_type type results.
Proof.
  intros H. unfold bucket, of_type. apply filter_ext. intros r. apply H.
Qed.

Lemma type_order_1 t : Nat.eqb (type_order t) 1 = String.eqb t comma_split_type.
Proof.
  unfold type_order.
  destruct (String.eqb t comma_split_type); [done|].
  by repeat match goal with |- context [if ?b then _ else _] => destruct b end.
Qed.

Lemma type_order_2 t :
  Nat.eqb (type_order t) 2 = String.eqb t approved_identical_type.
Proof.
  unfold type_order.
  destruct (String.eqb_spec t comma_split_type) as [->|_]; [done|].
  destruct (String.eqb t approved_identical_type); [done|].
  by destruct (String.eqb t not_approved_identical_type).
Qed.

Lemma type_order_3 t :
  Nat.eqb (type_order t) 3 = String.eqb t not_approved_identical_type.
Proof.
  unfold type_order.
  destruct (String.eqb_spec t comma_split_type) as [->|_]; [done|].
  destruct (String.eqb_spec t approved_identical_type) as [->|_]; [done|].
  by destruct (String.eqb t not_approved_identical_type).
Qed.

(** *** The loop over the units *)

Lemma identical_unit_appends results u :
  identical_unit results u = results ++ identical_unit [] u.
Proof.
  unfold identical_unit. split_branches; simpl; by rewrite ?app_nil_r.
Qed.

Lemma identical_unit_types u r :
  In r (identical_unit [] u) -> type_order (ir_type r) <> 4.
Proof.
  unfold identical_unit.
  split_branches; simpl; intros H; try tauto;
    destruct H as [<-|[]]; simpl; discriminate.
Qed.

Lemma find_identical_translations_flat root :
  find_identical_translations root
  = flat_map (identical_unit [])
      (ET.findall_descendants (qualified xliff_1_2 "trans-unit") root).
Proof.
  unfold find_identical_translations.
  by rewrite (fold_left_appends _ _ identical_unit_appends).
Qed.

Lemma no_other_type root :
  bucket (fun x => type_order (ir_type x)) 4 (find_identical_translations root) = [].
Proof.
  rewrite find_identical_translations_flat.
  induction (ET.findall_descendants _ root) as [|u us IH]; simpl; [done|].
  unfold bucket in *. rewrite List.filter_app, IH, app_nil_r.
  pose proof (identical_unit_types u) as H.
  induction (identical_unit [] u) as [|r rs IHr]; simpl; [done|].
  destruct (Nat.eqb_spec (type_order (ir_type r)) 4) as [E|_].
  - exfalso. apply (H r); [by left|done].
  - apply IHr. intros r' Hr'. apply H. by right.
Qed.

(** C7.  A unit whose identifier (the [resname] this script reads) ends in
    [_Abbr] adds no record, and neither does a unit whose target state is
    [needs-translation].  The records are found in document order of the
    units, and the sequence that is written lists all comma-split records
    first, then the approved-and-suppressed identical ones, then the
    unapproved identical ones, each kind in its encounter order. *)
Theorem identical_exclusions_and_order :
  (forall (results : list IdenticalRecord) (u : Element),
     PyStr.endswith (ET.get u "resname" "") "_Abbr" = true ->
     identical_unit results u = results)
  ∧ (forall (results : list IdenticalRecord) (u target : Element),
       ET.find (qualified xliff_1_2 "target") u = Some target ->
       ET.get_opt target "state" = Some "needs-translation" ->
       identical_unit results u = results)
  ∧ (forall root : Element,
       find_identical_translations root
       = flat_map (identical_unit [])
           (ET.findall_descendants (qualified xliff_1_2 "trans-unit") root)
       ∧ identical_main (Some root)
         = Returned
             (of_type comma_split_type (find_identical_translations root)
              ++ of_type approved_identical_type (find_identical_translations root)
              ++ of_type not_approved_identical_type
                   (find_identical_translations root))).
Proof.
  split; [|split].
  - intros results u H. unfold identical_unit. by rewrite H.
  - intros results u target Ht Hs. unfold identical_unit. rewrite Ht, Hs.
    destruct (PyStr.endswith _ _); [done|].
    by destruct (ET.find (qualified xliff_1_2 "source") u).
  - intros root. split; [apply find_identical_translations_flat|].
    unfold identical_main. f_equal.
    rewrite sort_by_buckets by (intros x; apply type_order_range).
    rewrite no_other_type, app_nil_r.
    by rewrite (bucket_of_type 1 _ _ type_order_1),
      (bucket_of_type 2 _ _ type_order_2), (bucket_of_type 3 _ _ type_order_3).
Qed.

Lemma identical_exclusions_and_order_witness :
  identical_unit [] fish_abbr = [] ∧ identical_unit [] fish_pending = [].
Proof.
  destruct identical_exclusions_and_order as (Habbr & Hpending & _).
  split.
  - apply Habbr. reflexivity.
  - apply (Hpending [] fish_pending
             (leaf (qualified xliff_1_2 "target")
                   [("state", "needs-translation")] "Fish"));
      reflexivity.
Defined.

(** Three units met in the order unapproved, suppressed, comma-split are
    written in the order of the rules. *)
Example export_order :
  List.map ir_id
    (match identical_main
             (Some (doc [xunit [("id", "1"); ("resname", "1_Name")]
                               "Fish" "final" "Fish";
                         fish_kept; colours;
                         xunit [("id", "2"); ("resname", "2_Name")]
                               "Bird" "final" "Bird"])) with
     | Returned results => results
     | _ => []
     end)
  = ["7"; "8"; "1"; "2"].
Proof. reflexivity. Qed.

(** ** Namespaces

    *** Strings around a separator *)

Lemma index_cons c a s :
  PyStr.index c (String a s)
  = if Ascii.eqb a c then Some 0 else S <$> PyStr.index c s.
Proof. reflexivity. Qed.

Lemma contains_cons sub a s :
  PyStr.contains sub (String a s)
  = if String.prefix sub (String a s) then true else PyStr.contains sub s.
Proof. reflexivity. Qed.

Lemma prefix_cons a p b s :
  String.prefix (String a p) (String b s) = Ascii.eqb a b && String.prefix p s.
Proof.
  simpl. destruct (ascii_dec a b) as [->|N].
  - by rewrite Ascii.eqb_refl.
  - by apply Ascii.eqb_neq in N as ->.
Qed.

Lemma append_cons a s t : String a s +:+ t = String a (s +:+ t).
Proof. reflexivity. Qed.

Lemma append_nil t : "" +:+ t = t.
Proof. reflexivity. Qed.

Lemma index_none_app c s t :
  PyStr.index c s = None ->
  PyStr.index c (s +:+ String c t) = Some (String.length s).
Proof.
  induction s as [|a s IH]; rewrite ?append_nil, ?append_cons; simpl.
  - by rewrite Ascii.eqb_refl.
  - destruct (Ascii.eqb a c); [done|].
    destruct (PyStr.index c s); [done|]. intros _. by rewrite IH.
Qed.

Lemma index_app_some c s t : PyStr.index c (s +:+ String c t) <> None.
Proof.
  induction s as [|a s IH]; rewrite ?append_nil, ?append_cons; simpl.
  - by rewrite Ascii.eqb_refl.
  - destruct (Ascii.eqb a c); [done|].
    by destruct (PyStr.index c (s +:+ String c t)).
Qed.

Lemma substring_app_l s t : substring 0 (String.length s) (s +:+ t) = s.
Proof.
  induction s as [|a s IH]; rewrite ?append_nil, ?append_cons; simpl;
    [by destruct t|by rewrite IH].
Qed.

Lemma eqb_app_l p a b : String.eqb (p +:+ a) (p +:+ b) = String.eqb a b.
Proof.
  induction p as [|c p IH]; rewrite ?append_nil, ?append_cons; simpl; [done|].
  by rewrite Ascii.eqb_refl.
Qed.

Lemma prefix_app p s : String.prefix p (p +:+ s) = true.
Proof.
  induction p as [|a p IH]; [by destruct s|].
  by rewrite append_cons, prefix_cons, Ascii.eqb_refl.
Qed.

Lemma prefix_app_r p s t : String.prefix p s = true -> String.prefix p (s +:+ t) = true.
Proof.
  revert s; induction p as [|a p IH]; intros s; [by destruct (s +:+ t)|].
  destruct s as [|b s]; [done|]. rewrite append_cons.
  rewrite !prefix_cons, !andb_true_iff. intros [? ?]. auto.
Qed.

Lemma prefix_before c p s t :
  PyStr.index c p = None ->
  String.prefix p (s +:+ String c t) = String.prefix p s.
Proof.
  revert s; induction p as [|a p IH]; intros s H.
  - by destruct s.
  - rewrite index_cons in H. destruct (Ascii.eqb a c) eqn:E; [done|].
    destruct (PyStr.index c p) eqn:E'; [done|].
    destruct s as [|b s]; rewrite ?append_nil, ?append_cons.
    + rewrite prefix_cons, E. done.
    + rewrite !prefix_cons, IH; done.
Qed.

Lemma contains_across c sub s t :
  PyStr.index c sub = None -> sub <> "" ->
  PyStr.contains sub (s +:+ String c t)
  = PyStr.contains sub s || PyStr.contains sub t.
Proof.
  intros H Hne. induction s as [|a s IH]; rewrite ?append_nil, ?append_cons.
  - rewrite contains_cons.
    destruct sub as [|b sub]; [done|].
    rewrite prefix_cons. rewrite index_cons in H.
    destruct (Ascii.eqb b c); [done|]. done.
  - rewrite !contains_cons, IH.
    rewrite <- append_cons, prefix_before by done.
    by destruct (String.prefix sub (String a s)).
Qed.

Lemma endswith_after c suf s t :
  PyStr.index c suf = None ->
  PyStr.endswith (s +:+ String c t) suf = PyStr.endswith t suf.
Proof.
  intros H.
  assert (forall s, String.eqb (s +:+ String c t) suf = false) as Hneq.
  { intros s'. apply String.eqb_neq. intros <-.
    by apply (index_app_some c s' t). }
  induction s as [|a s IH]; rewrite ?append_nil, ?append_cons.
  - rewrite endswith_cons. specialize (Hneq ""). rewrite append_nil in Hneq.
    by rewrite Hneq.
  - rewrite endswith_cons, <- append_cons. by rewrite Hneq.
Qed.

(** *** Qualified names *)

Lemma Element_induction (P : Element -> Prop) :
  (forall t a x cs tl, Forall P cs -> P (Elem t a x cs tl)) ->
  forall e, P e.
Proof.
  intros step. fix IH 1. intros [t a x cs tl]. apply step.
  induction cs as [|c cs IHcs]; constructor; [apply IH|exact IHcs].
Qed.

Section Qualified.
Variable uri : string.
Hypothesis uri_usable : usable uri = true.

Lemma uri_no_brace : PyStr.index "}"%char uri = None.
Proof.
  unfold usable in uri_usable. by destruct (PyStr.index "}"%char uri).
Qed.

Lemma uri_no_guid : PyStr.contains "guid" uri = false.
Proof.
  unfold usable in uri_usable.
  apply andb_true_iff in uri_usable as [H _].
  apply andb_true_iff in H as [_ H]. by apply negb_true_iff.
Qed.

Lemma uri_not_wildcard : uri <> "*".
Proof.
  unfold usable in uri_usable.
  apply andb_true_iff in uri_usable as [_ H].
  apply negb_true_iff in H. by apply String.eqb_neq.
Qed.

Lemma qualified_split local :
  qualified uri local = String "{" uri +:+ String "}" local.
Proof. reflexivity. Qed.

Lemma qualified_eqb a b :
  String.eqb (qualified uri a) (qualified uri b) = String.eqb a b.
Proof.
  rewrite !qualified_split, eqb_app_l. simpl. done.
Qed.

Lemma qualified_prefix local :
  String.prefix (qualified uri "") (qualified uri local) = true.
Proof.
  rewrite !qualified_split.
  generalize (String "{" uri). intros p.
  induction p as [|a p IH]; rewrite ?append_nil, ?append_cons.
  - rewrite prefix_cons, Ascii.eqb_refl. simpl. by destruct local.
  - by rewrite prefix_cons, Ascii.eqb_refl.
Qed.

Lemma qualified_not_wildcard local :
  String.eqb (substring 0 3 (qualified uri local)) "{*}" = false.
Proof.
  pose proof uri_no_brace as Hb. pose proof uri_not_wildcard as Hw.
  rewrite qualified_split.
  destruct uri as [|c [|c2 u]]; rewrite ?append_cons, ?append_nil; [done| |].
  - apply String.eqb_neq. simpl. intros [= ->]. done.
  - rewrite !index_cons in Hb.
    destruct (Ascii.eqb c "}"); [done|].
    destruct (Ascii.eqb_spec c2 "}"); [done|].
    apply String.eqb_neq. simpl. intros [= _ ->]. done.
Qed.

Lemma local_not_wildcard local :
  PyStr.startswith local "{" = false ->
  String.eqb (substring 0 3 local) "{*}" = false.
Proof.
  unfold PyStr.startswith. destruct local as [|c l]; [done|].
  rewrite prefix_cons. intros H. apply String.eqb_neq. simpl.
  intros [= -> _]. by destruct l.
Qed.

Lemma selects_qualified local t :
  PyStr.startswith local "{" = false ->
  outside uri t = true ->
  ET.selects (qualified uri local) (qualify_tag uri t) = ET.selects local t.
Proof.
  intros Hl Ho. unfold ET.selects.
  rewrite qualified_not_wildcard, (local_not_wildcard _ Hl).
  unfold qualify_tag. destruct (PyStr.startswith t "{") eqn:Ht.
  - transitivity false; [|symmetry]; apply String.eqb_neq; intros ->.
    + apply negb_true_iff in Ho. by rewrite qualified_prefix in Ho.
    + congruence.
  - apply qualified_eqb.
Qed.

Lemma endswith_qualified suf t :
  PyStr.index "}"%char suf = None ->
  PyStr.endswith (qualify_tag uri t) suf = PyStr.endswith t suf.
Proof.
  intros H. unfold qualify_tag. destruct (PyStr.startswith t "{"); [done|].
  rewrite qualified_split. by apply endswith_after.
Qed.

Lemma contains_guid_qualified t :
  PyStr.contains "guid" (qualify_tag uri t) = PyStr.contains "guid" t.
Proof.
  unfold qualify_tag. destruct (PyStr.startswith t "{"); [done|].
  rewrite qualified_split, contains_across by done.
  rewrite contains_cons.
  replace (String.prefix "guid" (String "{" uri)) with false by done.
  by rewrite uri_no_guid.
Qed.

(** *** The qualified tree *)

Lemma qualify_tag_of e : tag (qualify uri e) = qualify_tag uri (tag e).
Proof. by destruct e. Qed.

Lemma qualify_children e :
  children (qualify uri e) = List.map (qualify uri) (children e).
Proof. by destruct e. Qed.

Lemma qualify_attrib e : attrib (qualify uri e) = attrib e.
Proof. by destruct e. Qed.

Lemma qualify_text e : text (qualify uri e) = text e.
Proof. by destruct e. Qed.

Lemma qualify_tail e : tail (qualify uri e) = tail e.
Proof. by destruct e. Qed.

Lemma qualify_get e key default :
  ET.get (qualify uri e) key default = ET.get e key default.
Proof. unfold ET.get. by rewrite qualify_attrib. Qed.

Lemma qualify_inner_text e : ET.inner_text (qualify uri e) = ET.inner_text e.
Proof.
  induction e as [t a x cs tl IH] using Element_induction. simpl.
  f_equal. f_equal. rewrite List.map_map.
  induction IH as [|c cs Hc _ IHcs]; simpl; [done|].
  by rewrite Hc, qualify_tail, IHcs.
Qed.

Lemma qualify_iter e : ET.iter (qualify uri e) = List.map (qualify uri) (ET.iter e).
Proof.
  induction e as [t a x cs tl IH] using Element_induction. simpl.
  f_equal.
  induction IH as [|c cs Hc _ IHcs]; simpl; [done|].
  by rewrite List.map_app, Hc, IHcs.
Qed.

Lemma qualify_descendants e :
  ET.descendants (qualify uri e) = List.map (qualify uri) (ET.descendants e).
Proof.
  unfold ET.descendants. rewrite qualify_children.
  induction (children e) as [|c cs IH]; simpl; [done|].
  by rewrite List.map_app, qualify_iter, IH.
Qed.
End Qualified.

(** *** Subtrees *)

Lemma iter_self e : In e (ET.iter e).
Proof. destruct e. by left. Qed.

Lemma iter_nested e d x : In d (ET.iter e) -> In x (ET.iter d) -> In x (ET.iter e).
Proof.
  induction e as [t a y cs tl IH] using Element_induction.
  intros [<-|Hd] Hx; [done|]. right.
  apply in_flat_map in Hd as (c & Hc & Hd). apply in_flat_map. exists c.
  split; [done|]. rewrite List.Forall_forall in IH. by apply (IH c Hc).
Qed.

Lemma descendants_iter e d : In d (ET.descendants e) -> In d (ET.iter e).
Proof. destruct e. by right. Qed.

Lemma children_descendants e c : In c (children e) -> In c (ET.descendants e).
Proof.
  intros H. apply in_flat_map. exists c. split; [done|apply iter_self].
Qed.

(** *** Maps under loops *)

Lemma filter_map_commute {A : Type} (q : A -> A) (f g : A -> bool) (l : list A) :
  (forall x, In x l -> f (q x) = g x) ->
  List.filter f (List.map q l) = List.map q (List.filter g l).
Proof.
  induction l as [|x l IH]; intros H; simpl; [done|].
  rewrite (H x) by by left. rewrite IH by (intros; apply H; by right).
  by destruct (g x).
Qed.

Lemma find_map_commute {A : Type} (q : A -> A) (f g : A -> bool) (l : list A) :
  (forall x, In x l -> f (q x) = g x) ->
  List.find f (List.map q l) = option_map q (List.find g l).
Proof.
  induction l as [|x l IH]; intros H; simpl; [done|].
  rewrite (H x) by by left. destruct (g x); [done|].
  apply IH. intros; apply H; by right.
Qed.

Lemma existsb_map_commute {A : Type} (q : A -> A) (f g : A -> bool) (l : list A) :
  (forall x, In x l -> f (q x) = g x) ->
  existsb f (List.map q l) = existsb g l.
Proof.
  induction l as [|x l IH]; intros H; simpl; [done|].
  rewrite (H x) by by left. f_equal. apply IH. intros; apply H; by right.
Qed.

Lemma fold_left_map_commute {A B C : Type} (q : A -> A) (r : B -> C)
    (f : C -> A -> C) (g : B -> A -> B) (l : list A) (acc : B) :
  (forall acc x, In x l -> f (r acc) (q x) = r (g acc x)) ->
  fold_left f (List.map q l) (r acc) = r (fold_left g l acc).
Proof.
  revert acc; induction l as [|x l IH]; intros acc H; simpl; [done|].
  rewrite (H acc x) by by left. apply IH. intros; apply H; by right.
Qed.

Section Tolerance.
Variables uri default : string.
Hypothesis uri_usable : usable uri = true.

Local Abbreviation in_uri := (declared uri).
Local Abbreviation no_ns := (bare default).
Local Abbreviation q := (qualify uri).
Local Abbreviation clear := (all_outside uri).

Lemma clear_nested e d : clear e -> In d (ET.iter e) -> clear d.
Proof. intros H Hd x Hx. apply H. by apply (iter_nested e d). Qed.

Lemma findall_qualified local e :
  PyStr.startswith local "{" = false -> clear e ->
  findall_ns in_uri local (q e) = List.map q (findall_ns no_ns local e).
Proof.
  intros Hl He. unfold findall_ns, ET.findall_descendants. cbn [use_ns xliff declared bare].
  rewrite qualify_descendants. apply filter_map_commute.
  intros d Hd. rewrite qualify_tag_of. apply selects_qualified; [done..|].
  by apply He, descendants_iter.
Qed.

Lemma find_qualified local e :
  PyStr.startswith local "{" = false -> clear e ->
  find_ns in_uri local (q e) = option_map q (find_ns no_ns local e).
Proof.
  intros Hl He. unfold find_ns, ET.find. cbn [use_ns xliff declared bare].
  rewrite qualify_children. apply find_map_commute.
  intros d Hd. rewrite qualify_tag_of. apply selects_qualified; [done..|].
  by apply He, descendants_iter, children_descendants.
Qed.

Lemma extract_text_qualified o : extract_text (option_map q o) = extract_text o.
Proof. destruct o; simpl; [|done]. by rewrite qualify_inner_text. Qed.

Lemma state_of_qualified o : state_of (option_map q o) = state_of o.
Proof. destruct o; simpl; [|done]. apply qualify_get. Qed.

Lemma has_guid_qualified g : has_guid (q g) = has_guid g.
Proof.
  unfold has_guid. rewrite qualify_children. apply existsb_map_commute.
  intros c _. rewrite qualify_tag_of. by apply contains_guid_qualified.
Qed.

Lemma target_groups_qualified root :
  clear root ->
  target_groups in_uri (q root) = List.map q (target_groups no_ns root).
Proof.
  intros H. unfold target_groups. rewrite findall_qualified by done.
  apply filter_map_commute. intros g _. apply has_guid_qualified.
Qed.

Lemma target_groups_iter ns root g :
  In g (target_groups ns root) -> In g (ET.iter root).
Proof.
  unfold target_groups, findall_ns, ET.findall_descendants.
  intros H. apply filter_In in H as [H _].
  apply descendants_iter. destruct (use_ns ns); by apply filter_In in H as [H _].
Qed.

Lemma collect_child_qualified acc c :
  clear c ->
  collect_child in_uri (List.map q acc) (q c)
  = List.map q (collect_child no_ns acc c).
Proof.
  intros Hc. unfold collect_child.
  rewrite qualify_get, qualify_tag_of, !endswith_qualified by done.
  rewrite findall_qualified by done.
  repeat match goal with |- context [if ?b then _ else _] => destruct b end;
    simpl; by rewrite ?List.map_app.
Qed.

Lemma effective_units_qualified g :
  clear g ->
  effective_units in_uri (q g) = List.map q (effective_units no_ns g).
Proof.
  intros Hg. unfold effective_units. rewrite qualify_children.
  apply (fold_left_map_commute q (List.map q) _ _ (children g) []).
  intros acc c Hc. apply collect_child_qualified.
  by apply (clear_nested g), descendants_iter, children_descendants.
Qed.

Lemma effective_units_iter ns g u :
  In u (effective_units ns g) -> In u (ET.iter g).
Proof.
  unfold effective_units.
  rewrite (fold_left_appends _ _ (collect_child_appends ns)). simpl.
  intros H. apply in_flat_map in H as (c & Hc & Hu).
  apply children_descendants, descendants_iter in Hc.
  apply (iter_nested g c); [done|].
  unfold spec_effective_child in Hu.
  destruct (is_translation_unit c).
  { destruct Hu as [<-|[]]. apply iter_self. }
  destruct (is_group c); [|done]. destruct (flagged_SubPos c); [done|].
  apply filter_In in Hu as [Hu _]. by apply descendants_iter.
Qed.

Lemma resolve_unit_qualified d u :
  clear u -> resolve_unit in_uri d (q u) = resolve_unit no_ns d u.
Proof.
  intros Hu. unfold resolve_unit. rewrite qualify_get.
  rewrite !find_qualified by done.
  unfold suppressed_text.
  by rewrite !extract_text_qualified, !state_of_qualified.
Qed.

Lemma resolve_group_qualified g :
  clear g -> resolve_group in_uri (q g) = resolve_group no_ns g.
Proof.
  intros Hg. unfold resolve_group. rewrite effective_units_qualified by done.
  apply (fold_left_map_commute q id). intros d u Hu.
  apply resolve_unit_qualified.
  by apply (clear_nested g), (effective_units_iter no_ns).
Qed.

Lemma resolve_qualified root :
  clear root -> resolve in_uri (q root) = resolve no_ns root.
Proof.
  intros H. unfold resolve. rewrite target_groups_qualified by done.
  apply (fold_left_map_commute q id). intros acc g Hg.
  unfold record_group. rewrite qualify_get.
  rewrite resolve_group_qualified; [done|].
  by apply (clear_nested root), (target_groups_iter no_ns).
Qed.

Lemma detect_declared root :
  PyStr.startswith (tag root) "{" = false ->
  detect_namespace default (q root) = Returned in_uri.
Proof.
  intros H. unfold detect_namespace. rewrite qualify_tag_of.
  unfold qualify_tag. rewrite H.
  rewrite qualified_split, append_cons. unfold PyStr.startswith.
  rewrite prefix_cons, Ascii.eqb_refl. cbn [andb String.prefix].
  rewrite index_cons.
  replace (Ascii.eqb "{" "}") with false by done.
  rewrite index_none_app by by apply uri_no_brace.
  cbn [fmap option_fmap option_map]. unfold PyStr.slice.
  replace (S (String.length uri) - 1) with (String.length uri) by lia.
  cbn [substring]. rewrite substring_app_l.
  by destruct (uri +:+ String "}" (tag root)).
Qed.

Lemma detect_bare root :
  PyStr.startswith (tag root) "{" = false ->
  detect_namespace default root = Returned no_ns.
Proof. intros H. unfold detect_namespace. by rewrite H. Qed.

(** *** List-length mismatches *)

Lemma unit_identifier_qualified u : unit_identifier (q u) = unit_identifier u.
Proof. unfold unit_identifier. by rewrite !qualify_get. Qed.

Lemma find_abbr_source_qualified all abbr_id :
  (forall u, In u all -> clear u) ->
  find_abbr_source in_uri (List.map q all) abbr_id
  = find_abbr_source no_ns all abbr_id.
Proof.
  intros H. unfold find_abbr_source.
  rewrite (find_map_commute q _
             (fun tu => String.eqb (unit_identifier tu) abbr_id))
    by (intros u _; by rewrite unit_identifier_qualified).
  destruct (List.find _ all) as [tu|] eqn:E; simpl; [|done].
  apply find_some in E as [E _].
  rewrite find_qualified by (done || by apply H).
  apply extract_text_qualified.
Qed.

Lemma comma_unit_qualified all acc u :
  (forall u, In u all -> clear u) -> clear u ->
  comma_unit in_uri (List.map q all) acc (q u) = comma_unit no_ns all acc u.
Proof.
  intros Hall Hu. unfold comma_unit.
  rewrite unit_identifier_qualified, !find_qualified by done.
  rewrite !extract_text_qualified, state_of_qualified.
  by rewrite find_abbr_source_qualified.
Qed.

Lemma length_mismatches_qualified root :
  clear root ->
  length_mismatches in_uri (q root) = length_mismatches no_ns root.
Proof.
  intros H. unfold length_mismatches. rewrite findall_qualified by done.
  assert (forall u, In u (findall_ns no_ns "trans-unit" root) -> clear u) as Hall.
  { intros u Hu. apply (clear_nested root); [done|].
    unfold findall_ns, ET.findall_descendants in Hu. cbn in Hu.
    apply filter_In in Hu as [Hu _]. by apply descendants_iter. }
  apply (fold_left_map_commute q id). intros acc u Hu.
  apply comma_unit_qualified; auto.
Qed.
End Tolerance.

Lemma undeclared_all_outside uri root :
  undeclared uri root = true ->
  PyStr.startswith (tag root) "{" = false ∧ all_outside uri root.
Proof.
  unfold undeclared. rewrite andb_true_iff, negb_true_iff, forallb_forall.
  intros [H1 H2]. split; [done|]. intros d Hd. by apply H2.
Qed.

Lemma parse_xlf_file_qualified uri root :
  usable uri = true -> undeclared uri root = true ->
  parse_xlf_file (Some (qualify uri root)) = parse_xlf_file (Some root).
Proof.
  intros Hu Hr. apply undeclared_all_outside in Hr as [Ht Hc].
  unfold parse_xlf_file.
  rewrite (detect_declared uri _ Hu root Ht), (detect_bare _ root Ht).
  by rewrite (resolve_qualified uri "http://www.w3.org/2001/xliff" Hu).
Qed.

Lemma comma_lists_qualified uri root :
  usable uri = true -> undeclared uri root = true ->
  comma_lists (Some (qualify uri root)) = comma_lists (Some root).
Proof.
  intros Hu Hr. apply undeclared_all_outside in Hr as [Ht Hc].
  unfold comma_lists.
  rewrite (detect_declared uri _ Hu root Ht), (detect_bare _ root Ht).
  by rewrite (length_mismatches_qualified uri xliff_1_2 Hu).
Qed.

Lemma no_unit_outside_xliff root :
  all_outside xliff_1_2 root -> find_identical_translations root = [].
Proof.
  intros H. unfold find_identical_translations, ET.findall_descendants.
  rewrite filter_none; [done|]. intros d Hd. unfold ET.selects.
  rewrite (qualified_not_wildcard xliff_1_2 eq_refl).
  apply String.eqb_neq. intros E.
  apply descendants_iter, H, negb_true_iff in Hd.
  by rewrite E, qualified_prefix in Hd.
Qed.

(** C8, as stated, fails: identical-translation detection looks for units
    in the XLIFF 1.2 namespace only, so the document that declares that
    namespace yields a record and the same document without a declaration
    yields none. *)
Lemma identical_translations_need_the_namespace :
  identical_main (Some (qualify xliff_1_2 bare_export))
  = Returned [ {| ir_id := "5"; ir_resname := "5_Name"; ir_source := "Fish";
                  ir_target := "Fish"; matching_pieces := ["Fish"];
                  ir_type := "not approved (identical)" |} ]
  ∧ identical_main (Some bare_export) = Returned [].
Proof. split; reflexivity. Qed.

(** C8, amended.  Snapshot resolution, diffing and list-length mismatch
    detection give the same results for a document without a namespace
    declaration and for the same document with its elements declared in a
    namespace [uri], for every [uri] that has no closing brace, does not
    contain [guid] and is not the wildcard.  Identical-translation
    detection matches tags in the XLIFF 1.2 namespace only: on a document
    that has no element in that namespace it finds nothing. *)
Theorem namespace_tolerance (uri : string) (root root' : Element)
    (compare_type : CompareType) (include_state : bool) :
  usable uri = true ->
  undeclared uri root = true ->
  undeclared uri root' = true ->
  parse_xlf_file (Some (qualify uri root)) = parse_xlf_file (Some root)
  ∧ compare_files (Some (qualify uri root)) (Some (qualify uri root'))
                  compare_type include_state
    = compare_files (Some root) (Some root') compare_type include_state
  ∧ comma_lists (Some (qualify uri root)) = comma_lists (Some root)
  ∧ (undeclared xliff_1_2 root = true -> identical_main (Some root) = Returned []).
Proof.
  intros Hu Hr Hr'. split; [by apply parse_xlf_file_qualified|].
  split; [|split].
  - unfold compare_files. by rewrite !parse_xlf_file_qualified.
  - by apply comma_lists_qualified.
  - intros Hx. apply undeclared_all_outside in Hx as [_ Hx]. unfold identical_main.
    by rewrite no_unit_outside_xliff.
Qed.

Lemma namespace_tolerance_witness :
  parse_xlf_file (Some (qualify xliff_1_2 older)) = parse_xlf_file (Some older)
  ∧ compare_files (Some (qualify xliff_1_2 older)) (Some (qualify xliff_1_2 newer))
                  CompareName true
    = compare_files (Some older) (Some newer) CompareName true
  ∧ comma_lists (Some (qualify xliff_1_2 older)) = comma_lists (Some older)
  ∧ (undeclared xliff_1_2 older = true -> identical_main (Some older) = Returned []).
Proof.
  apply (namespace_tolerance xliff_1_2 older newer CompareName true);
    reflexivity.
Defined.

(** The qualified document keeps the prefixed [guid] element in its own
    namespace. *)
Example qualified_domain :
  List.map tag (children (qualify xliff_1_2 (domain "1" "1" "a" "b" "final")))
  = ["{sil}guid"; qualified xliff_1_2 "trans-unit";
     qualified xliff_1_2 "trans-unit"].
Proof. reflexivity. Qed.

(** ** Structural absence *)

Lemma detect_namespace_returns default root :
  well_formed_tag (tag root) = true ->
  ∃ ns, detect_namespace default root = Returned ns.
Proof.
  unfold well_formed_tag, detect_namespace.
  destruct (PyStr.startswith (tag root) "{"); simpl; [|by eauto].
  destruct (PyStr.index "}"%char (tag root)); [by eauto|done].
Qed.

Lemma resolve_unit_keeps_name ns d u :
  PyStr.endswith (ET.get u "id" "") "_Name" = false ->
  name_source (resolve_unit ns d u) = name_source d
  ∧ name_target (resolve_unit ns d u) = name_target d
  ∧ name_target_state (resolve_unit ns d u) = name_target_state d.
Proof.
  intros H. unfold resolve_unit. rewrite H.
  by repeat match goal with |- context [if ?b then _ else _] => destruct b end.
Qed.

Lemma resolve_unit_keeps_desc ns d u :
  PyStr.endswith (ET.get u "id" "") "_Desc_0" = false ->
  desc_source (resolve_unit ns d u) = desc_source d
  ∧ desc_target (resolve_unit ns d u) = desc_target d
  ∧ desc_target_state (resolve_unit ns d u) = desc_target_state d.
Proof.
  intros H. unfold resolve_unit. rewrite H.
  by repeat match goal with |- context [if ?b then _ else _] => destruct b end.
Qed.

Lemma resolve_unit_keeps_abbr ns d u :
  PyStr.endswith (ET.get u "id" "") "_Abbr" = false ->
  abbr (resolve_unit ns d u) = abbr d.
Proof.
  intros H. unfold resolve_unit. rewrite H.
  by repeat match goal with |- context [if ?b then _ else _] => destruct b end.
Qed.

(** A field no unit writes keeps its initial value through the loop. *)
Lemma fold_keeps {A : Type} (get : GroupData -> A) ns (suffix : string) us d :
  (forall d u, PyStr.endswith (ET.get u "id" "") suffix = false ->
               get (resolve_unit ns d u) = get d) ->
  (forall u, In u us -> PyStr.endswith (ET.get u "id" "") suffix = false) ->
  get (fold_left (resolve_unit ns) us d) = get d.
Proof.
  intros Hstep. revert d; induction us as [|u us IH]; intros d H; simpl; [done|].
  rewrite IH by (intros; apply H; by right). apply Hstep, H. by left.
Qed.

Lemma scan_unit_found ns pt st u :
  found (scan_unit ns pt st u) = found st || pattern pt (ET.get u "id" "").
Proof.
  unfold scan_unit.
  destruct (pattern pt (ET.get u "id" "")),
    (include_extra pt && extra_pattern pt (ET.get u "id" ""));
    simpl; by rewrite ?orb_true_r, ?orb_false_r.
Qed.

Lemma scan_group_found ns pt group :
  found (scan_group ns pt group) = has_field ns pt group.
Proof.
  unfold scan_group, has_field.
  generalize (effective_units ns group). intros us.
  change (existsb (fun u => pattern pt (ET.get u "id" "")) us)
    with (found {| found := false; source_text := ""; target_text := "";
                   extra_source_text := "" |}
          || existsb (fun u => pattern pt (ET.get u "id" "")) us).
  generalize {| found := false; source_text := ""; target_text := "";
                extra_source_text := "" |}.
  induction us as [|u us IH]; intros st; simpl; [by rewrite orb_false_r|].
  by rewrite IH, scan_unit_found, orb_assoc.
Qed.

Lemma extract_groups_fold ns pt groups acc :
  fold_left (extract_group ns pt) groups acc
  = (acc.1 ++ List.map (row_of ns pt) (List.filter (has_field ns pt) groups),
     acc.2 + length (List.filter (fun g => negb (has_field ns pt g)) groups)).
Proof.
  revert acc; induction groups as [|g gs IH]; intros [rows missing]; simpl.
  - by rewrite app_nil_r, Nat.add_0_r.
  - rewrite IH. unfold extract_group at 1 2. rewrite scan_group_found.
    destruct (has_field ns pt g); simpl.
    + by rewrite <- app_assoc.
    + f_equal. lia.
Qed.

(** C9.  On every parsed document whose root tag is well formed, snapshot
    resolution and single-field extraction return a result; they exit only
    when the parse itself failed.  A group none of whose effective units
    carries the suffix of a field resolves with that field empty.
    Extraction writes one row for each group that has the requested unit,
    in group order, passes over the others, and counts them. *)
Theorem structural_absence_non_fatal (root : Element)
    (pattern_type : PatternType) :
  well_formed_tag (tag root) = true ->
  (∃ ns,
     parse_xlf_file (Some root) = Returned (resolve ns root)
     ∧ extract_data (Some root) pattern_type
       = Returned (extract_groups ns pattern_type root))
  ∧ parse_xlf_file None = SysExit
  ∧ extract_data None pattern_type = SysExit
  ∧ (forall ns group,
       (lacks "_Abbr" ns group -> abbr (resolve_group ns group) = "")
       ∧ (lacks "_Name" ns group ->
          name_source (resolve_group ns group) = ""
          ∧ name_target (resolve_group ns group) = ""
          ∧ name_target_state (resolve_group ns group) = "")
       ∧ (lacks "_Desc_0" ns group ->
          desc_source (resolve_group ns group) = ""
          ∧ desc_target (resolve_group ns group) = ""
          ∧ desc_target_state (resolve_group ns group) = ""))
  ∧ (forall ns,
       extract_groups ns pattern_type root
       = (List.map (row_of ns pattern_type)
            (List.filter (has_field ns pattern_type) (target_groups ns root)),
          length (List.filter (fun g => negb (has_field ns pattern_type g))
                              (target_groups ns root)))).
Proof.
  intros Hwf. split; [|split; [done|split; [done|split]]].
  - unfold parse_xlf_file, extract_data.
    destruct (detect_namespace_returns "http://www.w3.org/2001/xliff" root Hwf)
      as [ns ->].
    by exists ns.
  - intros ns group. unfold resolve_group. split; [|split]; intros H.
    + by rewrite (fold_keeps abbr ns "_Abbr")
        by (done || intros; by apply resolve_unit_keeps_abbr).
    + by rewrite (fold_keeps name_source ns "_Name"),
        (fold_keeps name_target ns "_Name"),
        (fold_keeps name_target_state ns "_Name")
        by (done || intros; by apply resolve_unit_keeps_name).
    + by rewrite (fold_keeps desc_source ns "_Desc_0"),
        (fold_keeps desc_target ns "_Desc_0"),
        (fold_keeps desc_target_state ns "_Desc_0")
        by (done || intros; by apply resolve_unit_keeps_desc).
  - intros ns. unfold extract_groups. by rewrite extract_groups_fold.
Qed.

Lemma structural_absence_non_fatal_witness :
  well_formed_tag (tag sparse) = true
  ∧ ∃ ns,
      parse_xlf_file (Some sparse) = Returned (resolve ns sparse)
      ∧ extract_data (Some sparse) name
        = Returned (extract_groups ns name sparse).
Proof.
  split; [reflexivity|].
  apply (structural_absence_non_fatal sparse name). reflexivity.
Defined.

(** The first group has no name: extraction writes the second group's row
    and counts one group without the element; resolution leaves the name
    fields empty. *)
Example sparse_extraction :
  extract_data (Some sparse) name = Returned ([["2"; "Person"; "Pessoa"]], 1).
Proof. reflexivity. Qed.

Example sparse_resolution :
  (resolve plain sparse).1 !! "1"
  = Some {| abbr := "1"; name_source := ""; name_target := "";
            name_target_state := ""; desc_source := ""; desc_target := "";
            desc_target_state := "" |}.
Proof. reflexivity. Qed.

(** ** More on the diff *)

Lemma changed_same ct st d : changed ct st d d = false.
Proof. unfold changed. rewrite !String.eqb_refl. by destruct st. Qed.

Lemma filter_map_swap {A B : Type} (p : B -> bool) (f : A -> B) (l : list A) :
  List.filter p (List.map f l) = List.map f (List.filter (fun x => p (f x)) l).
Proof.
  induction l as [|x l IH]; simpl; [done|].
  destruct (p (f x)); simpl; by rewrite IH.
Qed.

Lemma filter_implied {A : Type} (p q : A -> bool) (l : list A) :
  (forall x, p x = true -> q x = true) ->
  List.filter p (List.filter q l) = List.filter p l.
Proof.
  intros H. induction l as [|x l IH]; simpl; [done|].
  destruct (q x) eqn:Q; simpl; [by rewrite IH|].
  destruct (p x) eqn:P; [|done]. apply H in P. congruence.
Qed.

(** X1.  Comparing a snapshot with itself, whatever the two group lists,
    reports no change in any mode; so does comparing a parsed document with
    itself. *)
Theorem self_diff_empty (data : gmap string GroupData)
    (order1 order2 : list string) (root : Element)
    (compare_type : CompareType) (include_state : bool) :
  find_changes (data, order1) (data, order2) compare_type include_state = []
  ∧ (well_formed_tag (tag root) = true ->
     compare_files (Some root) (Some root) compare_type include_state
     = Returned []).
Proof.
  assert (forall o1 o2, find_changes (data, o1) (data, o2) compare_type
                                     include_state = []) as H.
  { intros o1 o2. rewrite find_changes_ordered.
    rewrite filter_none; [done|]. intros g _. apply changed_same. }
  split; [apply H|]. intros Hwf. unfold compare_files, parse_xlf_file.
  destruct (detect_namespace_returns "http://www.w3.org/2001/xliff" root Hwf)
    as [ns ->].
  f_equal. destruct (resolve ns root) as [d o] eqn:E.
  rewrite find_changes_ordered. rewrite filter_none; [done|].
  intros g _. apply changed_same.
Qed.

Lemma self_diff_empty_witness :
  compare_files (Some newer) (Some newer) CompareName true = Returned [].
Proof.
  apply (self_diff_empty ∅ [] [] newer CompareName true). reflexivity.
Defined.

(** X2.  The content-only diff is the diff with states restricted to the
    records whose content differs, with their state keys removed: adding
    the state comparison only adds records, and those it adds have equal
    content. *)
Theorem content_diff_within_state_diff
    (older newer : gmap string GroupData * list string)
    (compare_type : CompareType) :
  find_changes older newer compare_type false
  = List.map without_state
      (List.filter content_differs (find_changes older newer compare_type true)).
Proof.
  destruct older as [data1 order1], newer as [data2 order2].
  rewrite !find_changes_ordered, filter_map_swap, List.map_map.
  set (common := List.filter (in_both data1 data2) order2).
  rewrite (filter_implied _ (emitted data1 data2 compare_type true)).
  - assert (forall g,
              content_differs
                (change_record compare_type true (data1 !!! g) (data2 !!! g))
              = emitted data1 data2 compare_type false g) as E.
    { intros g. unfold emitted, changed, content_differs. simpl.
      by rewrite orb_false_r. }
    rewrite (filter_ext _ _ E).
    apply map_ext_in. intros g _. reflexivity.
  - intros g. unfold emitted, changed, content_differs. simpl.
    intros ->. reflexivity.
Qed.

Lemma write_changes_fold ct st changes lines :
  Forall (fun change => is_Some (change_line ct st change)) changes ->
  ∃ rows,
    fold_left (write_change ct st) changes (Returned lines)
    = Returned (lines ++ rows)
    ∧ Forall2 (fun change row => change_line ct st change = Some row)
              changes rows.
Proof.
  intros H. revert lines. induction H as [|c cs [row Hrow] _ IH]; intros lines.
  - exists []. simpl. by rewrite app_nil_r.
  - simpl. rewrite Hrow. destruct (IH (lines ++ [row])) as (rows & E & F).
    exists (row :: rows). rewrite E, <- app_assoc. split; [done|].
    by constructor.
Qed.

Lemma change_record_line ct st d1 d2 :
  is_Some (change_line ct st (change_record ct st d1 d2)).
Proof. destruct ct, st; simpl; eauto. Qed.

Lemma write_changes_of_diff
    (older newer : gmap string GroupData * list string)
    (compare_type : CompareType) (include_state : bool) :
  ∃ rows,
    write_changes compare_type include_state
                  (find_changes older newer compare_type include_state)
    = Returned (changes_header compare_type include_state :: rows)
    ∧ Forall2 (fun change row =>
                 change_line compare_type include_state change = Some row)
              (find_changes older newer compare_type include_state) rows.
Proof.
  unfold write_changes.
  apply (write_changes_fold compare_type include_state _
           [changes_header compare_type include_state]).
  destruct older as [data1 order1], newer as [data2 order2].
  rewrite find_changes_ordered. apply Forall_map. apply Forall_forall.
  intros g _. apply change_record_line.
Qed.

(** X3.  For two parsed documents with well-formed root tags the report is
    always written: the writer finds every key it reads in the records the
    diff built in the same mode, and writes the header of the mode followed
    by one line per change, in the order of the changes. *)
Theorem diff_report_written (root1 root2 : Element)
    (compare_type : CompareType) (include_state : bool) :
  well_formed_tag (tag root1) = true ->
  well_formed_tag (tag root2) = true ->
  ∃ changes rows,
    compare_files (Some root1) (Some root2) compare_type include_state
    = Returned changes
    ∧ compare_files_report (Some root1) (Some root2) compare_type include_state
      = Returned (changes_header compare_type include_state :: rows)
    ∧ Forall2 (fun change row =>
                 change_line compare_type include_state change = Some row)
              changes rows.
Proof.
  intros H1 H2. unfold compare_files_report, compare_files, parse_xlf_file.
  destruct (detect_namespace_returns "http://www.w3.org/2001/xliff" root1 H1)
    as [ns1 ->].
  destruct (detect_namespace_returns "http://www.w3.org/2001/xliff" root2 H2)
    as [ns2 ->].
  destruct (write_changes_of_diff (resolve ns1 root1) (resolve ns2 root2)
              compare_type include_state) as (rows & Hw & Hrows).
  eexists. exists rows. split; [done|]. by split.
Qed.

Lemma diff_report_written_witness :
  ∃ changes rows,
    compare_files (Some older) (Some newer) CompareName true = Returned changes
    ∧ compare_files_report (Some older) (Some newer) CompareName true
      = Returned (changes_header CompareName true :: rows)
    ∧ Forall2 (fun change row => change_line CompareName true change = Some row)
              changes rows.
Proof.
  apply (diff_report_written older newer CompareName true); reflexivity.
Defined.

(** The report of the two sample documents. *)
Example names_report :
  compare_files_report (Some older) (Some newer) CompareName false
  = Returned
      [tsv_line ["Abbr"; "Name Source"; "Content Before"; "Content After"];
       tsv_line ["1.0"; "Universe, creation"; "Universo"; "Universo, criacao"]].
Proof. reflexivity. Qed.

(** ** More on snapshot resolution *)

Lemma endswith_empty s : PyStr.endswith s "" = true.
Proof.
  induction s as [|a s IH]; [done|]. rewrite endswith_cons.
  by destruct (String.eqb (String a s) "").
Qed.

(** Two suffixes neither of which ends with the other exclude each other. *)
Lemma endswith_exclusive a b t :
  PyStr.endswith a b = false -> PyStr.endswith b a = false ->
  PyStr.endswith t a = true -> PyStr.endswith t b = false.
Proof.
  intros Hab Hba. induction t as [|c t IH].
  - destruct a as [|x a]; [|discriminate].
    by rewrite endswith_empty in Hba.
  - rewrite (endswith_cons c t a).
    destruct (String.eqb_spec (String c t) a) as [<-|_]; [done|].
    intros Ht. rewrite endswith_cons.
    destruct (String.eqb_spec (String c t) b) as [<-|_]; [|by apply IH].
    rewrite endswith_cons, Ht in Hba. by destruct (String.eqb _ _).
Qed.

Lemma resolve_unit_name ns d u :
  PyStr.endswith (ET.get u "id" "") "_Name" = true ->
  name_source (resolve_unit ns d u) = extract_text (find_ns ns "source" u)
  ∧ name_target_state (resolve_unit ns d u) = state_of (find_ns ns "target" u)
  ∧ name_target (resolve_unit ns d u)
    = suppressed_text (state_of (find_ns ns "target" u)) (find_ns ns "target" u).
Proof.
  intros H. unfold resolve_unit.
  by rewrite (endswith_exclusive "_Name" "_Abbr" _ eq_refl eq_refl H), H.
Qed.

(** X4.  When several effective units of a group have an id ending in
    [_Name], the last one in document order decides the name fields: the
    name source is its source text, the state is its target state, and the
    target text is its target text, or empty when that state is
    [needs-translation]. *)
Theorem last_name_unit_wins (ns : Namespaces) (group : Element)
    (before after : list Element) (u : Element) :
  effective_units ns group = before ++ u :: after ->
  PyStr.endswith (ET.get u "id" "") "_Name" = true ->
  (forall v, In v after -> PyStr.endswith (ET.get v "id" "") "_Name" = false) ->
  name_source (resolve_group ns group) = extract_text (find_ns ns "source" u)
  ∧ name_target_state (resolve_group ns group)
    = state_of (find_ns ns "target" u)
  ∧ name_target (resolve_group ns group)
    = (if String.eqb (state_of (find_ns ns "target" u)) "needs-translation"
       then "" else extract_text (find_ns ns "target" u)).
Proof.
  intros Hunits Hu Hafter. unfold resolve_group.
  rewrite Hunits, fold_left_app. simpl.
  rewrite (fold_keeps name_source ns "_Name"),
    (fold_keeps name_target ns "_Name"),
    (fold_keeps name_target_state ns "_Name")
    by (done || intros; by apply resolve_unit_keeps_name).
  by apply resolve_unit_name.
Qed.

Lemma record_groups_keep ns groups acc k :
  (forall h, In h groups -> ET.get h "id" "" <> k) ->
  (fold_left (record_group ns) groups acc).1 !! k = acc.1 !! k.
Proof.
  revert acc; induction groups as [|g gs IH]; intros acc H; simpl; [done|].
  rewrite IH by (intros; apply H; by right). simpl.
  apply lookup_insert_ne, H. by left.
Qed.

Lemma size_list_to_set_le (l : list string) :
  size (list_to_set l : gset string) <= length l.
Proof.
  induction l as [|x l IH]; [by rewrite list_to_set_nil, size_empty|].
  rewrite list_to_set_cons. simpl.
  rewrite size_union_alt, size_singleton.
  assert (size ((list_to_set l : gset string) ∖ {[x]})
          <= size (list_to_set l : gset string))
    by (apply subseteq_size; set_solver).
  lia.
Qed.

(** X5.  When several semantic-domain groups of a document share an id,
    the dictionary keeps the fields of the last of them, while the group
    list keeps one entry per group: the list is as long as the groups are
    many and the dictionary has at most that many keys. *)
Theorem last_group_wins (ns : Namespaces) (root : Element)
    (before after : list Element) (g : Element) :
  target_groups ns root = before ++ g :: after ->
  (forall h, In h after -> ET.get h "id" "" <> ET.get g "id" "") ->
  (resolve ns root).1 !! ET.get g "id" "" = Some (resolve_group ns g)
  ∧ length (resolve ns root).2 = length (target_groups ns root)
  ∧ size (resolve ns root).1 <= length (target_groups ns root).
Proof.
  intros Hg Hafter. split; [|split].
  - unfold resolve. rewrite Hg, fold_left_app. simpl.
    rewrite record_groups_keep by done. simpl. apply lookup_insert_eq.
  - unfold resolve. rewrite record_groups_order. simpl. apply length_map.
  - rewrite <- size_dom. unfold resolve. rewrite record_groups_dom. simpl.
    rewrite dom_empty_L, (left_id_L ∅ (∪)).
    rewrite <- (length_map (λ group, ET.get group "id" "")).
    apply size_list_to_set_le.
Qed.

Lemma last_name_unit_wins_witness :
  name_source (resolve_group plain twice_named) = "New"
  ∧ name_target_state (resolve_group plain twice_named) = "needs-translation"
  ∧ name_target (resolve_group plain twice_named) = "".
Proof.
  apply (last_name_unit_wins plain twice_named [named_old] [] named_new).
  - reflexivity.
  - reflexivity.
  - intros v [].
Defined.

Lemma last_group_wins_witness :
  (resolve plain repeated).1 !! "7" = Some (resolve_group plain seven_b)
  ∧ length (resolve plain repeated).2 = length (target_groups plain repeated)
  ∧ size (resolve plain repeated).1 <= length (target_groups plain repeated).
Proof.
  apply (last_group_wins plain repeated [seven_a] [] seven_b).
  - reflexivity.
  - intros h [].
Defined.

(** The repeated id is listed twice and stored once. *)
Example repeated_snapshot :
  (resolve plain repeated).2 = ["7"; "7"]
  ∧ abbr <$> (resolve plain repeated).1 !! "7" = Some "7b".
Proof. split; reflexivity. Qed.

(** ** The needs-translation state, from the document *)

Lemma find_rev_split {A : Type} (p : A -> bool) (l : list A) (x : A) :
  List.find p (rev l) = Some x ->
  ∃ before after,
    l = before ++ x :: after ∧ p x = true
    ∧ forall y, In y after -> p y = false.
Proof.
  induction l as [|a l IH] using rev_ind; [done|].
  rewrite rev_unit. simpl. destruct (p a) eqn:E.
  - intros [= <-]. exists l, []. by repeat split.
  - intros H. destruct (IH H) as (before & after & -> & Hx & Hafter).
    exists before, (after ++ [a]). split; [by rewrite <- app_assoc|].
    split; [done|]. intros y Hy. apply in_app_iff in Hy as [Hy|[<-|[]]]; auto.
Qed.

Lemma resolve_unit_desc ns d u :
  PyStr.endswith (ET.get u "id" "") "_Desc_0" = true ->
  desc_source (resolve_unit ns d u) = extract_text (find_ns ns "source" u)
  ∧ desc_target_state (resolve_unit ns d u) = state_of (find_ns ns "target" u)
  ∧ desc_target (resolve_unit ns d u)
    = suppressed_text (state_of (find_ns ns "target" u)) (find_ns ns "target" u).
Proof.
  intros H. unfold resolve_unit.
  by rewrite (endswith_exclusive "_Desc_0" "_Abbr" _ eq_refl eq_refl H),
    (endswith_exclusive "_Desc_0" "_Name" _ eq_refl eq_refl H), H.
Qed.

Lemma resolve_deciding_group ns root group_id group :
  deciding_group ns root group_id = Some group ->
  (resolve ns root).1 !! group_id = Some (resolve_group ns group).
Proof.
  intros H. apply find_rev_split in H as (before & after & Hg & Hid & Hafter).
  apply String.eqb_eq in Hid as <-.
  unfold resolve. rewrite Hg, fold_left_app. simpl.
  rewrite record_groups_keep; [simpl; apply lookup_insert_eq|].
  intros h Hh. apply Hafter in Hh. by apply String.eqb_neq in Hh.
Qed.

Lemma resolve_deciding_name ns group u :
  deciding_unit "_Name" (effective_units ns group) = Some u ->
  name_target_state (resolve_group ns group) = state_of (find_ns ns "target" u)
  ∧ name_target (resolve_group ns group)
    = suppressed_text (state_of (find_ns ns "target" u)) (find_ns ns "target" u).
Proof.
  intros H. apply find_rev_split in H as (before & after & Hu & Hid & Hafter).
  unfold resolve_group. rewrite Hu, fold_left_app. simpl.
  rewrite (fold_keeps name_target ns "_Name"),
    (fold_keeps name_target_state ns "_Name")
    by (done || intros; by apply resolve_unit_keeps_name).
  by destruct (resolve_unit_name ns (fold_left (resolve_unit ns) before
                                               empty_group_data) u Hid)
    as (_ & ? & ?).
Qed.

Lemma resolve_deciding_desc ns group u :
  deciding_unit "_Desc_0" (effective_units ns group) = Some u ->
  desc_target_state (resolve_group ns group) = state_of (find_ns ns "target" u)
  ∧ desc_target (resolve_group ns group)
    = suppressed_text (state_of (find_ns ns "target" u)) (find_ns ns "target" u).
Proof.
  intros H. apply find_rev_split in H as (before & after & Hu & Hid & Hafter).
  unfold resolve_group. rewrite Hu, fold_left_app. simpl.
  rewrite (fold_keeps desc_target ns "_Desc_0"),
    (fold_keeps desc_target_state ns "_Desc_0")
    by (done || intros; by apply resolve_unit_keeps_desc).
  by destruct (resolve_unit_desc ns (fold_left (resolve_unit ns) before
                                               empty_group_data) u Hid)
    as (_ & ? & ?).
Qed.

(** C4, amended.  In snapshot resolution the entry of a group id comes from
    the last semantic-domain group with that id, and its name (description)
    target comes from the last effective unit of that group whose id ends
    in [_Name] ([_Desc_0]): the state kept is the [state] attribute of that
    unit's target element, and the text kept is empty when that attribute
    is [needs-translation], whatever text the target holds, and the
    target's text otherwise.  So every entry with a [needs-translation]
    state has the empty target text.  List-length mismatch detection does
    not suppress: every unit with an identifier ending in [_Name] whose
    source text and stored target text have different numbers of comma
    pieces gets a record, whatever the state of its target, and every
    record carries the stored target text of its unit, the state beside it
    and the count of the pieces of that stored text. *)
Theorem needs_translation_suppression (ns : Namespaces) (root : Element) :
  (forall (group_id : string) (group : Element),
     deciding_group ns root group_id = Some group ->
     ∃ d, (resolve ns root).1 !! group_id = Some d
          ∧ (forall u,
               deciding_unit "_Name" (effective_units ns group) = Some u ->
               name_target_state d = state_of (find_ns ns "target" u)
               ∧ name_target d
                 = if String.eqb (state_of (find_ns ns "target" u))
                                 "needs-translation"
                   then "" else extract_text (find_ns ns "target" u))
          ∧ (forall u,
               deciding_unit "_Desc_0" (effective_units ns group) = Some u ->
               desc_target_state d = state_of (find_ns ns "target" u)
               ∧ desc_target d
                 = if String.eqb (state_of (find_ns ns "target" u))
                                 "needs-translation"
                   then "" else extract_text (find_ns ns "target" u)))
  ∧ (forall (g : string) (d : GroupData),
       (resolve ns root).1 !! g = Some d ->
       (name_target_state d = "needs-translation" -> name_target d = "")
       ∧ (desc_target_state d = "needs-translation" -> desc_target d = ""))
  ∧ (forall u : Element,
       In u (findall_ns ns "trans-unit" root) ->
       PyStr.endswith (unit_identifier u) "_Name" = true ->
       length (comma_parts (extract_text (find_ns ns "source" u)))
       <> length (comma_parts (extract_text (find_ns ns "target" u))) ->
       ∃ r, In r ((length_mismatches ns root).1 ++ (length_mismatches ns root).2)
            ∧ cl_target_state r = state_of (find_ns ns "target" u)
            ∧ cl_name_target r = extract_text (find_ns ns "target" u)
            ∧ target_count r
              = length (comma_parts (extract_text (find_ns ns "target" u))))
  ∧ (forall r : LengthRecord,
       In r ((length_mismatches ns root).1 ++ (length_mismatches ns root).2) ->
       ∃ u, In u (findall_ns ns "trans-unit" root)
            ∧ cl_target_state r = state_of (find_ns ns "target" u)
            ∧ cl_name_target r = extract_text (find_ns ns "target" u)
            ∧ target_count r
              = length (comma_parts (extract_text (find_ns ns "target" u)))).
Proof.
  split; [|split; [|split]].
  - intros group_id group Hg. exists (resolve_group ns group).
    split; [by apply resolve_deciding_group|]. split; intros u Hu.
    + by apply resolve_deciding_name.
    + by apply resolve_deciding_desc.
  - intros g d H. apply resolve_lookup in H as (group & _ & _ & ->).
    apply resolve_group_suppressed.
  - intros u Hin Hname Hlen.
    exists (mismatch_record ns (findall_ns ns "trans-unit" root) u).
    split; [|done].
    rewrite length_mismatches_buckets; cbn [fst snd].
    rewrite in_app_iff, !in_map_iff.
    destruct (Nat.ltb_spec
                (length (comma_parts (extract_text (find_ns ns "source" u))))
                (length (comma_parts (extract_text (find_ns ns "target" u)))))
      as [L|L]; [left|right]; exists u; (split; [done|]);
      apply filter_In; (split; [done|]);
      unfold target_longer, target_shorter, is_name_unit, piece_counts;
      cbn [fst snd]; rewrite Hname; cbn [andb]; apply Nat.ltb_lt; lia.
  - intros r. rewrite length_mismatches_buckets; cbn [fst snd].
    rewrite in_app_iff, !in_map_iff.
    intros [(u & <- & Hu)|(u & <- & Hu)]; apply filter_In in Hu as [Hu _];
      by exists u.
Qed.

Lemma needs_translation_suppression_witness :
  (∃ d, (resolve plain pending).1 !! "9" = Some d
        ∧ name_target_state d = state_of (find_ns plain "target" pending_name)
        ∧ name_target d = "")
  ∧ (∃ d, (resolve plain (doc [pending_described])).1 !! "9" = Some d
          ∧ desc_target_state d
            = state_of (find_ns plain "target" pending_desc)
          ∧ desc_target d = "")
  ∧ (∃ r, In r ((length_mismatches plain pending).1
                ++ (length_mismatches plain pending).2)
          ∧ cl_target_state r = "needs-translation"
          ∧ cl_name_target r = "Sky, heaven"
          ∧ target_count r = 2).
Proof.
  split; [|split].
  - destruct (proj1 (needs_translation_suppression plain pending)
                "9" pending_group) as (d & Hd & Hname & _); [reflexivity|].
    exists d. split; [done|]. apply (Hname pending_name). reflexivity.
  - destruct (proj1 (needs_translation_suppression plain
                       (doc [pending_described]))
                "9" pending_described) as (d & Hd & _ & Hdesc); [reflexivity|].
    exists d. split; [done|]. apply (Hdesc pending_desc). reflexivity.
  - apply (proj1 (proj2 (proj2 (needs_translation_suppression plain pending)))
             pending_name).
    + vm_compute. right. left. reflexivity.
    + reflexivity.
    + vm_compute. lia.
Defined.

(** ** Stripped text *)

Lemma lstrip_starts_clean s : starts_clean (PyStr.lstrip s).
Proof.
  induction s as [|c s IH]; intros a rest; simpl; [done|].
  destruct (PyStr.isspace c) eqn:E; [apply IH|]. by intros [= <- _].
Qed.

Lemma rstrip_cons c s :
  PyStr.rstrip (String c s)
  = if PyStr.isspace c && String.eqb (PyStr.rstrip s) "" then ""
    else String c (PyStr.rstrip s).
Proof. reflexivity. Qed.

Lemma rstrip_starts_clean s : starts_clean s -> starts_clean (PyStr.rstrip s).
Proof.
  destruct s as [|c s]; [done|]. intros H a rest.
  rewrite rstrip_cons, (H c s eq_refl). simpl. intros [= <- _].
  by apply (H c s).
Qed.

Lemma rstrip_ends_clean s : ends_clean (PyStr.rstrip s).
Proof.
  induction s as [|c s IH]; intros front a.
  - simpl. by destruct front.
  - rewrite rstrip_cons.
    destruct (PyStr.isspace c) eqn:E; simpl.
    + destruct (String.eqb_spec (PyStr.rstrip s) "") as [R|R].
      * by destruct front.
      * destruct front as [|f front]; rewrite ?append_nil, ?append_cons.
        -- intros [= _ R']. by rewrite R' in R.
        -- intros [= _ R']. by apply (IH front).
    + destruct front as [|f front]; rewrite ?append_nil, ?append_cons.
      * by intros [= <- _].
      * intros [= _ R']. by apply (IH front).
Qed.

Lemma lstrip_clean s : starts_clean s -> PyStr.lstrip s = s.
Proof.
  destruct s as [|c s]; [done|]. intros H. simpl. by rewrite (H c s eq_refl).
Qed.

Lemma rstrip_idempotent s : PyStr.rstrip (PyStr.rstrip s) = PyStr.rstrip s.
Proof.
  induction s as [|c s IH]; [done|]. rewrite rstrip_cons.
  destruct (PyStr.isspace c && String.eqb (PyStr.rstrip s) "") eqn:E; [done|].
  by rewrite rstrip_cons, IH, E.
Qed.

Lemma strip_idempotent s : PyStr.strip (PyStr.strip s) = PyStr.strip s.
Proof.
  unfold PyStr.strip.
  rewrite (lstrip_clean (PyStr.rstrip (PyStr.lstrip s))).
  - apply rstrip_idempotent.
  - apply rstrip_starts_clean, lstrip_starts_clean.
Qed.

(** X6.  The text [extract_text] returns is trimmed: stripping it again
    changes nothing, it does not begin with white space and it does not end
    with white space. *)
Theorem extract_text_trimmed (element : option Element) :
  PyStr.strip (extract_text element) = extract_text element
  ∧ starts_clean (extract_text element)
  ∧ ends_clean (extract_text element).
Proof.
  destruct element as [e|]; simpl.
  - split; [apply strip_idempotent|]. unfold PyStr.strip. split.
    + apply rstrip_starts_clean, lstrip_starts_clean.
    + apply rstrip_ends_clean.
  - split; [done|]. split; [done|]. intros front a. by destruct front.
Qed.

(** ** More on comma lists *)

Lemma split_length sep s :
  length (PyStr.split sep s) = S (count_char sep s).
Proof.
  induction s as [|a s IH]; simpl; [done|].
  destruct (Ascii.eqb a sep); simpl; [by rewrite IH|].
  destruct (PyStr.split sep s); simpl in *; lia.
Qed.

Lemma filter_either_length {A : Type} (p q r : A -> bool) (l : list A) :
  (forall x, Nat.b2n (p x) + Nat.b2n (q x) = Nat.b2n (r x)) ->
  length (List.filter p l) + length (List.filter q l)
  = length (List.filter r l).
Proof.
  intros H. induction l as [|x l IH]; simpl; [done|].
  specialize (H x). destruct (p x), (q x), (r x); simpl in *; lia.
Qed.

(** X7.  A text has one more comma-separated piece than it has commas.  So
    the two counts of every record are one more than the numbers of commas
    of the source and target texts the record holds, and the two buckets
    together hold one record for each unit with an identifier ending in
    [_Name] whose source and target texts have different numbers of
    commas. *)
Theorem pieces_count_commas (ns : Namespaces) (root : Element) :
  (forall text, length (comma_parts text) = S (count_char ","%char text))
  ∧ Forall (fun r =>
              source_count r = S (count_char ","%char (cl_name_source r))
              ∧ target_count r = S (count_char ","%char (cl_name_target r)))
           ((length_mismatches ns root).1 ++ (length_mismatches ns root).2)
  ∧ length (length_mismatches ns root).1 + length (length_mismatches ns root).2
    = length (List.filter (comma_mismatch ns) (findall_ns ns "trans-unit" root)).
Proof.
  assert (forall text, length (comma_parts text) = S (count_char ","%char text))
    as Hlen by (intros text; by rewrite comma_parts_length, split_length).
  split; [done|].
  rewrite length_mismatches_buckets; cbn [fst snd].
  split.
  - apply Forall_app; split; apply List.Forall_forall; intros r Hr;
      apply in_map_iff in Hr as (u & <- & _);
      unfold mismatch_record, piece_counts;
      cbn [source_count target_count cl_name_source cl_name_target fst snd];
      by rewrite !Hlen.
  - rewrite !length_map. apply filter_either_length.
    intros u. unfold target_longer, target_shorter, comma_mismatch, piece_counts.
    cbn [fst snd]. rewrite !Hlen.
    destruct (PyStr.endswith (unit_identifier u) "_Name") eqn:E;
      unfold is_name_unit; rewrite E; cbn [andb Nat.b2n]; [|lia].
    set (n := count_char _ _). set (m := count_char _ _).
    destruct (Nat.ltb_spec (S n) (S m)), (Nat.ltb_spec (S m) (S n)),
      (Nat.eqb_spec n m); cbn [negb Nat.b2n]; lia.
Qed.

Lemma filter_disjoint_length {A : Type} (p q r : A -> bool) (l : list A) :
  (forall x, Nat.b2n (p x) + Nat.b2n (q x) <= Nat.b2n (r x)) ->
  length (List.filter p l) + length (List.filter q l)
  <= length (List.filter r l).
Proof.
  intros H. induction l as [|x l IH]; simpl; [done|].
  specialize (H x). destruct (p x), (q x), (r x); simpl in *; lia.
Qed.

(** X8.  Every record of the "increased" bucket has at least one source
    piece and strictly more target pieces; every record of the "decreased"
    bucket has at least one target piece and strictly more source pieces;
    no unit is in both buckets, and together they hold no more records than
    there are [_Name] units. *)
Theorem mismatch_records_bounds (ns : Namespaces) (root : Element) :
  Forall (fun r => 1 <= source_count r < target_count r)
         (length_mismatches ns root).1
  ∧ Forall (fun r => 1 <= target_count r < source_count r)
           (length_mismatches ns root).2
  ∧ length (length_mismatches ns root).1 + length (length_mismatches ns root).2
    <= length (List.filter is_name_unit (findall_ns ns "trans-unit" root)).
Proof.
  rewrite length_mismatches_buckets; cbn [fst snd].
  set (units := findall_ns ns "trans-unit" root).
  assert (forall u, 1 <= (piece_counts ns u).1 ∧ 1 <= (piece_counts ns u).2) as Hpos.
  { intros u. unfold piece_counts; cbn [fst snd].
    rewrite !comma_parts_length, !split_length. lia. }
  split; [|split].
  - apply List.Forall_forall. intros r Hr. apply in_map_iff in Hr as (u & <- & Hu).
    apply filter_In in Hu as [_ Hu]. unfold target_longer in Hu.
    apply andb_true_iff in Hu as [_ Hu]. apply Nat.ltb_lt in Hu.
    unfold mismatch_record; cbn [source_count target_count].
    destruct (Hpos u). lia.
  - apply List.Forall_forall. intros r Hr. apply in_map_iff in Hr as (u & <- & Hu).
    apply filter_In in Hu as [_ Hu]. unfold target_shorter in Hu.
    apply andb_true_iff in Hu as [_ Hu]. apply Nat.ltb_lt in Hu.
    unfold mismatch_record; cbn [source_count target_count].
    destruct (Hpos u). lia.
  - rewrite !length_map. apply filter_disjoint_length.
    intros u. unfold target_longer, target_shorter.
    destruct (is_name_unit u); cbn [andb Nat.b2n]; [|lia].
    destruct (Nat.ltb_spec (piece_counts ns u).1 (piece_counts ns u).2);
      destruct (Nat.ltb_spec (piece_counts ns u).2 (piece_counts ns u).1);
      cbn [Nat.b2n]; lia.
Qed.

(** ** The abbreviation of a name *)

Lemma prefix_nil_l s : String.prefix "" s = true.
Proof. by destruct s. Qed.

(** No occurrence of [_Name] straddles the end of a text that is followed
    by [_Name]. *)
Lemma no_straddle q :
  q <> "" -> String.prefix "_Name" q = false ->
  String.prefix "_Name" (q +:+ "_Name") = false.
Proof.
  intros Hq H.
  destruct q as [|c1 [|c2 [|c3 [|c4 [|c5 q]]]]]; [done|..];
    rewrite ?append_cons, ?append_nil, ?prefix_cons, ?prefix_nil_l in *;
    rewrite ?prefix_cons, ?prefix_nil_l in *;
    simpl; rewrite ?andb_false_r; done.
Qed.

Lemma replace_from_cons old new skip a s :
  PyStr.replace_from old new skip (String a s)
  = match skip with
    | S k => PyStr.replace_from old new k s
    | O => if String.prefix old (String a s)
           then new +:+ PyStr.replace_from old new (String.length old - 1) s
           else String a (PyStr.replace_from old new 0 s)
    end.
Proof. reflexivity. Qed.

Lemma replace_name_suffix p :
  PyStr.contains "_Name" p = false ->
  PyStr.replace "_Name" "_Abbr" (p +:+ "_Name") = p +:+ "_Abbr".
Proof.
  unfold PyStr.replace. induction p as [|c p IH]; [done|].
  rewrite contains_cons.
  destruct (String.prefix "_Name" (String c p)) eqn:E; [done|]. intros Hp.
  rewrite append_cons, replace_from_cons, <- append_cons.
  rewrite (no_straddle (String c p)) by done.
  by rewrite IH, append_cons.
Qed.

Lemma mismatch_record_abbr (ns : Namespaces) (all_trans_units : list Element)
    (u : Element) (p : string) :
  unit_identifier u = p +:+ "_Name" ->
  PyStr.contains "_Name" p = false ->
  abbr_source (mismatch_record ns all_trans_units u)
  = match List.find (fun tu => String.eqb (unit_identifier tu) (p +:+ "_Abbr"))
                    all_trans_units with
    | Some tu => extract_text (find_ns ns "source" tu)
    | None => ""
    end.
Proof.
  intros Hid Hp. unfold mismatch_record, find_abbr_source; cbn [abbr_source].
  by rewrite Hid, replace_name_suffix.
Qed.

(** X9.  For a unit whose identifier is [p_Name] with no [_Name] inside
    [p], the abbreviation of the record its turn of the loop appends, to
    either bucket, is the source text of the first unit of the document, in
    document order, whose identifier is [p_Abbr], and the empty string when
    there is none. *)
Theorem abbr_of_name (ns : Namespaces) (all_trans_units : list Element)
    (u : Element) (p : string) (r : LengthRecord) :
  unit_identifier u = p +:+ "_Name" ->
  PyStr.contains "_Name" p = false ->
  In r ((comma_unit ns all_trans_units ([], []) u).1
        ++ (comma_unit ns all_trans_units ([], []) u).2) ->
  abbr_source r
  = match List.find (fun tu => String.eqb (unit_identifier tu) (p +:+ "_Abbr"))
                    all_trans_units with
    | Some tu => extract_text (find_ns ns "source" tu)
    | None => ""
    end.
Proof.
  intros Hid Hp. rewrite comma_unit_appends; cbn [fst snd app].
  intros Hr. apply in_app_iff in Hr.
  assert (r = mismatch_record ns all_trans_units u) as ->.
  { destruct Hr as [Hr|Hr];
      [destruct (target_longer ns u)|destruct (target_shorter ns u)];
      simpl in Hr; intuition congruence. }
  by apply mismatch_record_abbr.
Qed.

Lemma abbr_of_name_witness :
  abbr_source
    {| abbr_source := "9"; cl_name_source := "Sky";
       cl_name_target := "Sky, heaven"; cl_target_state := "final";
       source_count := 1; target_count := 2 |}
  = match List.find (fun tu => String.eqb (unit_identifier tu) ("9" +:+ "_Abbr"))
                    [tu "9_Abbr" "9" "final" "9";
                     tu "9_Name" "Sky" "final" "Sky, heaven"] with
    | Some tu => extract_text (find_ns plain "source" tu)
    | None => ""
    end.
Proof.
  apply (abbr_of_name plain
           [tu "9_Abbr" "9" "final" "9"; tu "9_Name" "Sky" "final" "Sky, heaven"]
           (tu "9_Name" "Sky" "final" "Sky, heaven") "9").
  - reflexivity.
  - reflexivity.
  - vm_compute. left. reflexivity.
Defined.

(** Every occurrence is replaced: an id with [_Name] inside gets an
    abbreviation id no unit has. *)
Example abbr_id_of_inner_name :
  PyStr.replace "_Name" "_Abbr" "1_Name_2_Name" = "1_Abbr_2_Abbr".
Proof. reflexivity. Qed.

(** ** More on identical translations *)

Lemma matching_pieces_sound source_text target_text piece :
  In piece (matching source_text target_text) ->
  piece <> "" ∧ PyStr.contains piece source_text = true
  ∧ In piece (comma_parts target_text).
Proof.
  unfold matching. intros H. apply filter_In in H as [Hin H].
  apply andb_true_iff in H as [Hne Hc]. apply negb_true_iff in Hne.
  apply String.eqb_neq in Hne. done.
Qed.

Lemma identical_unit_record u r :
  In r (identical_unit [] u) ->
  matching_pieces r <> []
  ∧ ((ir_type r = comma_split_type
      ∧ matching_pieces r = matching (ir_source r) (ir_target r))
     ∨ ((ir_type r = approved_identical_type
         ∨ ir_type r = not_approved_identical_type)
        ∧ ir_source r = ir_target r
        ∧ matching_pieces r = [ir_source r])).
Proof.
  unfold identical_unit.
  destruct (PyStr.endswith _ _); [done|].
  destruct (ET.find (qualified xliff_1_2 "source") u) as [source|]; [|done].
  destruct (ET.find (qualified xliff_1_2 "target") u) as [target|]; [|done].
  destruct (is_needs_translation _); [done|].
  destruct (is_yes _ && negb (is_no _)).
  { destruct (matching _ _) as [|p ps] eqn:E; [done|].
    intros [<-|[]]. simpl. split; [done|]. left. by rewrite E. }
  destruct (is_yes _ && is_no _).
  { destruct (String.eqb_spec (ET.truthy (text source)) (ET.truthy (text target)))
      as [E|_]; [|done].
    intros [<-|[]]. simpl. split; [done|]. right. auto. }
  destruct (negb (is_yes _) && negb (is_no _)); [|done].
  destruct (String.eqb_spec (ET.truthy (text source)) (ET.truthy (text target)))
    as [E|_]; [|done].
  intros [<-|[]]. simpl. split; [done|]. right. auto.
Qed.

(** X10.  Every record found has at least one matching piece.  A
    comma-split record lists non-empty trimmed comma pieces of its target,
    each a substring of its source.  A record of one of the two "identical"
    kinds has equal source and target texts and lists that text as its only
    piece (the empty text included). *)
Theorem identical_records_sound (root : Element) (r : IdenticalRecord) :
  In r (find_identical_translations root) ->
  matching_pieces r <> []
  ∧ ((ir_type r = comma_split_type
      ∧ Forall (fun piece => piece <> ""
                             ∧ PyStr.contains piece (ir_source r) = true
                             ∧ In piece (comma_parts (ir_target r)))
               (matching_pieces r))
     ∨ ((ir_type r = approved_identical_type
         ∨ ir_type r = not_approved_identical_type)
        ∧ ir_source r = ir_target r
        ∧ matching_pieces r = [ir_source r])).
Proof.
  rewrite find_identical_translations_flat, in_flat_map.
  intros (u & _ & Hr). apply identical_unit_record in Hr as [Hne H].
  split; [done|]. destruct H as [[Ht Hp]|H]; [left|by right].
  split; [done|]. rewrite Hp. apply List.Forall_forall.
  intros piece. apply matching_pieces_sound.
Qed.

(** ** More on extraction *)

Lemma filter_partition_length {A : Type} (p : A -> bool) (l : list A) :
  length (List.filter p l) + length (List.filter (fun x => negb (p x)) l)
  = length l.
Proof.
  induction l as [|x l IH]; simpl; [done|]. destruct (p x); simpl; lia.
Qed.

Lemma result_row_length pt abbr_text st :
  length (result_row pt abbr_text st) = if include_extra pt then 4 else 3.
Proof. by destruct pt. Qed.

(** X11.  Extraction accounts for every semantic-domain group: the number
    of rows plus the count of missing groups is the number of groups; every
    row has three columns, or four with the extra field; and the count is
    zero exactly when every group has the requested unit. *)
Theorem extraction_accounts_for_every_group (ns : Namespaces)
    (pattern_type : PatternType) (root : Element) :
  length (extract_groups ns pattern_type root).1
  + (extract_groups ns pattern_type root).2
  = length (target_groups ns root)
  ∧ Forall (fun row => length row = if include_extra pattern_type then 4 else 3)
           (extract_groups ns pattern_type root).1
  ∧ ((extract_groups ns pattern_type root).2 = 0 <->
     Forall (fun g => has_field ns pattern_type g = true) (target_groups ns root)).
Proof.
  unfold extract_groups. rewrite extract_groups_fold; cbn [fst snd app].
  rewrite length_map, Nat.add_0_l. split; [apply filter_partition_length|].
  split.
  - apply Forall_map, Forall_forall. intros g _. apply result_row_length.
  - generalize (target_groups ns root). intros l.
    induction l as [|g l IH]; simpl; [by split|].
    rewrite Forall_cons. destruct (has_field ns pattern_type g); simpl.
    + rewrite IH. tauto.
    + split; [done|]. by intros [? _].
Qed.

Lemma extraction_accounts_for_every_group_witness :
  length (extract_groups plain name sparse).1
  + (extract_groups plain name sparse).2
  = length (target_groups plain sparse)
  ∧ Forall (fun row => length row = if include_extra name then 4 else 3)
           (extract_groups plain name sparse).1
  ∧ ((extract_groups plain name sparse).2 = 0 <->
     Forall (fun g => has_field plain name g = true)
            (target_groups plain sparse)).
Proof. apply (extraction_accounts_for_every_group plain name sparse). Defined.

Lemma scan_unit_match ns pt st u :
  pattern pt (ET.get u "id" "") = true ->
  found (scan_unit ns pt st u) = true
  ∧ source_text (scan_unit ns pt st u) = extract_text (find_ns ns "source" u)
  ∧ target_text (scan_unit ns pt st u) = extract_text (find_ns ns "target" u).
Proof.
  intros H. unfold scan_unit. rewrite H.
  by destruct (include_extra pt && extra_pattern pt _).
Qed.

Lemma scan_unit_no_match ns pt st u :
  pattern pt (ET.get u "id" "") = false ->
  found (scan_unit ns pt st u) = found st
  ∧ source_text (scan_unit ns pt st u) = source_text st
  ∧ target_text (scan_unit ns pt st u) = target_text st.
Proof.
  intros H. unfold scan_unit. rewrite H.
  by destruct (include_extra pt && extra_pattern pt _).
Qed.

Lemma scan_units_no_match ns pt us st :
  (forall v, In v us -> pattern pt (ET.get v "id" "") = false) ->
  found (fold_left (scan_unit ns pt) us st) = found st
  ∧ source_text (fold_left (scan_unit ns pt) us st) = source_text st
  ∧ target_text (fold_left (scan_unit ns pt) us st) = target_text st.
Proof.
  revert st; induction us as [|u us IH]; intros st H; simpl; [done|].
  destruct (IH (scan_unit ns pt st u)) as (F & S & T);
    [intros; apply H; by right|].
  destruct (scan_unit_no_match ns pt st u) as (F' & S' & T');
    [apply H; by left|].
  by rewrite F, S, T, F', S', T'.
Qed.

(** X12.  When several effective units of a group match the requested
    pattern, the last one in document order fills the row: its source text
    and its stored target text, whatever the state of the target. *)
Theorem last_matching_unit_wins (ns : Namespaces) (pattern_type : PatternType)
    (group : Element) (before after : list Element) (u : Element) :
  effective_units ns group = before ++ u :: after ->
  pattern pattern_type (ET.get u "id" "") = true ->
  (forall v, In v after -> pattern pattern_type (ET.get v "id" "") = false) ->
  found (scan_group ns pattern_type group) = true
  ∧ source_text (scan_group ns pattern_type group)
    = extract_text (find_ns ns "source" u)
  ∧ target_text (scan_group ns pattern_type group)
    = extract_text (find_ns ns "target" u).
Proof.
  intros Hunits Hu Hafter. unfold scan_group.
  rewrite Hunits, fold_left_app. simpl.
  destruct (scan_units_no_match ns pattern_type after
              (scan_unit ns pattern_type
                 (fold_left (scan_unit ns pattern_type) before
                    {| found := false; source_text := ""; target_text := "";
                       extra_source_text := "" |}) u) Hafter) as (F & S & T).
  rewrite F, S, T. by apply scan_unit_match.
Qed.

Lemma identical_records_sound_witness :
  matching_pieces green_record <> []
  ∧ ((ir_type green_record = comma_split_type
      ∧ Forall (fun piece => piece <> ""
                             ∧ PyStr.contains piece (ir_source green_record) = true
                             ∧ In piece (comma_parts (ir_target green_record)))
               (matching_pieces green_record))
     ∨ ((ir_type green_record = approved_identical_type
         ∨ ir_type green_record = not_approved_identical_type)
        ∧ ir_source green_record = ir_target green_record
        ∧ matching_pieces green_record = [ir_source green_record])).
Proof.
  apply (identical_records_sound (doc [colours]) green_record).
  vm_compute. left. reflexivity.
Defined.

(** Empty source and empty target are identical too. *)
Example empty_texts_recorded :
  List.map matching_pieces
    (find_identical_translations
       (doc [xunit [("id", "3"); ("resname", "3_Name")] "" "final" ""]))
  = [[""]].
Proof. reflexivity. Qed.

Lemma last_matching_unit_wins_witness :
  found (scan_group plain name twice_named) = true
  ∧ source_text (scan_group plain name twice_named) = "New"
  ∧ target_text (scan_group plain name twice_named) = "Novo".
Proof.
  apply (last_matching_unit_wins plain name twice_named [named_old] []
                                 named_new).
  - reflexivity.
  - reflexivity.
  - intros v [].
Defined.

(** ** Counting by state *)

Lemma count_poss_visits ns poss_group data :
  fold_left (count_child ns) (findall_children_ns ns "group" poss_group) data
  = fold_left (fun d visit => count_unit ns visit.1 d visit.2)
              (visited_units ns poss_group) data.
Proof.
  unfold visited_units.
  generalize (findall_children_ns ns "group" poss_group). intros cs.
  revert data; induction cs as [|c cs IH]; intros data; simpl; [done|].
  rewrite fold_left_app, IH. f_equal. unfold count_child.
  generalize (findall_ns ns "trans-unit" c). intros us.
  revert data; induction us as [|u us IHu]; intros data; simpl; [done|].
  apply IHu.
Qed.

Lemma bump_lookup state counts st :
  default 0 (bump state counts !! st)
  = default 0 (counts !! st) + (if String.eqb state st then 1 else 0).
Proof.
  unfold bump. destruct (String.eqb_spec state st) as [->|N].
  - rewrite lookup_insert_eq. simpl. lia.
  - rewrite lookup_insert_ne by done. lia.
Qed.

Lemma poss_entry_insert data cid entry cid' :
  poss_entry (<[cid := entry]> data) cid'
  = if String.eqb cid cid' then entry else poss_entry data cid'.
Proof.
  unfold poss_entry. destruct (String.eqb_spec cid cid') as [->|N].
  - by rewrite lookup_insert_eq.
  - by rewrite lookup_insert_ne.
Qed.

Lemma name_not_desc t :
  PyStr.endswith t "_Name" = true -> PyStr.endswith t "_Desc_0" = false.
Proof. by apply endswith_exclusive. Qed.

Lemma count_unit_name ns c data u cid st :
  name_count (count_unit ns c data u) cid st
  = name_count data cid st
    + (if counts_as ns "_Name" cid st (c, u) then 1 else 0).
Proof.
  unfold name_count, count_unit, counts_as; cbn [fst snd].
  destruct (PyStr.endswith (ET.get u "id" "") "_Name") eqn:N.
  - rewrite poss_entry_insert. destruct (String.eqb_spec c cid) as [->|Hc].
    + cbn [name_counts]. rewrite bump_lookup. by rewrite andb_true_l.
    + simpl. lia.
  - rewrite andb_false_r. simpl.
    destruct (PyStr.endswith (ET.get u "id" "") "_Desc_0"); [|lia].
    rewrite poss_entry_insert. destruct (String.eqb_spec c cid) as [->|Hc];
      simpl; lia.
Qed.

Lemma count_unit_desc ns c data u cid st :
  desc_count (count_unit ns c data u) cid st
  = desc_count data cid st
    + (if counts_as ns "_Desc_0" cid st (c, u) then 1 else 0).
Proof.
  unfold desc_count, count_unit, counts_as; cbn [fst snd].
  destruct (PyStr.endswith (ET.get u "id" "") "_Name") eqn:N.
  - rewrite (name_not_desc _ N), andb_false_r. simpl.
    rewrite poss_entry_insert. destruct (String.eqb_spec c cid) as [->|Hc];
      simpl; lia.
  - destruct (PyStr.endswith (ET.get u "id" "") "_Desc_0").
    + rewrite poss_entry_insert. destruct (String.eqb_spec c cid) as [->|Hc].
      * cbn [desc_counts]. rewrite bump_lookup. by rewrite andb_true_l.
      * simpl. lia.
    + rewrite andb_false_r. simpl. lia.
Qed.

Lemma visits_counted ns suffix (count : gmap string PossCounts -> string -> string -> nat)
    visits data cid st :
  (forall c d u, count (count_unit ns c d u) cid st
                 = count d cid st
                   + (if counts_as ns suffix cid st (c, u) then 1 else 0)) ->
  count (fold_left (fun d visit => count_unit ns visit.1 d visit.2) visits data)
        cid st
  = count data cid st + length (List.filter (counts_as ns suffix cid st) visits).
Proof.
  intros Hstep. revert data; induction visits as [|[c u] vs IH]; intros data;
    simpl; [lia|].
  rewrite IH, Hstep. cbn [fst snd].
  destruct (counts_as ns suffix cid st (c, u)); simpl; lia.
Qed.

Lemma bump_populated state counts :
  (forall st n, counts !! st = Some n -> 1 <= n) ->
  bump state counts <> ∅
  ∧ (forall st n, bump state counts !! st = Some n -> 1 <= n).
Proof.
  intros H. unfold bump. split.
  - apply insert_non_empty.
  - intros st n. destruct (decide (state = st)) as [->|N].
    + rewrite lookup_insert_eq. intros [= <-]. lia.
    + rewrite lookup_insert_ne by done. apply H.
Qed.

Lemma poss_entry_counts data cid :
  populated data ->
  (forall st n, name_counts (poss_entry data cid) !! st = Some n -> 1 <= n)
  ∧ (forall st n, desc_counts (poss_entry data cid) !! st = Some n -> 1 <= n).
Proof.
  intros H. unfold poss_entry. destruct (data !! cid) as [entry|] eqn:E; simpl.
  - by destruct (H cid entry E) as (_ & ? & ?).
  - split; intros st n; by rewrite lookup_empty.
Qed.

Lemma count_unit_populated ns c data u :
  populated data -> populated (count_unit ns c data u).
Proof.
  intros H. destruct (poss_entry_counts data c H) as [Hn Hd].
  unfold count_unit.
  destruct (PyStr.endswith (ET.get u "id" "") "_Name").
  { intros cid entry. destruct (decide (c = cid)) as [->|N].
    - rewrite lookup_insert_eq. intros [= <-]. cbn [name_counts desc_counts].
      destruct (bump_populated (counted_state (find_ns ns "target" u)) _ Hn).
      auto.
    - rewrite lookup_insert_ne by done. apply H. }
  destruct (PyStr.endswith (ET.get u "id" "") "_Desc_0"); [|done].
  intros cid entry. destruct (decide (c = cid)) as [->|N].
  - rewrite lookup_insert_eq. intros [= <-]. cbn [name_counts desc_counts].
    destruct (bump_populated (counted_state (find_ns ns "target" u)) _ Hd).
    auto.
  - rewrite lookup_insert_ne by done. apply H.
Qed.

Lemma visits_populated ns visits data :
  populated data ->
  populated (fold_left (fun d visit => count_unit ns visit.1 d visit.2) visits data).
Proof.
  revert data; induction visits as [|[c u] vs IH]; intros data H; simpl; [done|].
  by apply IH, count_unit_populated.
Qed.

(** X13.  When the document has a [_Poss] group, the dictionary built
    holds, for every child id and state, exactly the number of visited
    units under a child of that id whose id ends in [_Name] (respectively
    [_Desc_0]) and whose target has that state; a target without state
    counts as [(no state)] and a unit without target as [(no target)]. *)
Theorem poss_counts_exact (ns : Namespaces) (root poss_group : Element)
    (child_id state : string) :
  poss_group_of ns root = Some poss_group ->
  ∃ poss_data,
    count_poss ns root = Returned poss_data
    ∧ name_count poss_data child_id state
      = length (List.filter (counts_as ns "_Name" child_id state)
                            (visited_units ns poss_group))
    ∧ desc_count poss_data child_id state
      = length (List.filter (counts_as ns "_Desc_0" child_id state)
                            (visited_units ns poss_group)).
Proof.
  intros Hg. unfold count_poss. rewrite Hg. eexists. split; [done|].
  rewrite count_poss_visits. split.
  - rewrite (visits_counted ns "_Name" name_count)
      by (intros; apply count_unit_name).
    unfold name_count, poss_entry. by rewrite lookup_empty.
  - rewrite (visits_counted ns "_Desc_0" desc_count)
      by (intros; apply count_unit_desc).
    unfold desc_count, poss_entry. by rewrite lookup_empty.
Qed.

(** X14.  Without a [_Poss] group the run exits.  Otherwise every entry of
    the dictionary has at least one count and every count is positive, so
    the report line "No _Name or _Desc_0 trans-units found" is never
    reached. *)
Theorem poss_data_populated (ns : Namespaces) (root : Element) :
  (poss_group_of ns root = None -> count_poss ns root = SysExit)
  ∧ (forall poss_data, count_poss ns root = Returned poss_data ->
                       populated poss_data).
Proof.
  unfold count_poss. destruct (poss_group_of ns root) as [g|]; split; try done.
  intros poss_data [= <-]. rewrite count_poss_visits.
  apply visits_populated. intros cid entry. by rewrite lookup_empty.
Qed.

Example possessions_counted :
  match count_in_xlf (Some possessions) with
  | Returned poss_data =>
    (name_count poss_data "1_Poss_1" "final",
     name_count poss_data "1_Poss_1" "(no target)",
     desc_count poss_data "1_Poss_1" "translated",
     poss_data !! "1_Poss_2")
    = (1, 1, 1, None)
  | _ => False
  end.
Proof. vm_compute. reflexivity. Qed.

(** The keys are split at the runs of decimal digits; a key with a piece of
    superscript digits ends the report with a ValueError. *)
Example natural_sort_pieces :
  between_digits false "" "1_Poss_12" = [""; "_Poss_"; ""]
  ∧ natural_sort_key_raises "1_Poss_12" = false
  ∧ natural_sort_key_raises ("1" +:+ String (ascii_of_nat 178) "3") = true
  ∧ natural_sort_key_raises ("a" +:+ String (ascii_of_nat 178) "") = false.
Proof. repeat split; vm_compute; reflexivity. Qed.

Example squared_report :
  count_in_xlf (Some squared) = Uncaught "ValueError".
Proof. vm_compute. reflexivity. Qed.

Lemma poss_counts_exact_witness :
  ∃ poss_data,
    count_poss plain possessions = Returned poss_data
    ∧ name_count poss_data "1_Poss_1" "(no target)"
      = length (List.filter (counts_as plain "_Name" "1_Poss_1" "(no target)")
                            (visited_units plain poss))
    ∧ desc_count poss_data "1_Poss_1" "(no target)"
      = length (List.filter (counts_as plain "_Desc_0" "1_Poss_1" "(no target)")
                            (visited_units plain poss)).
Proof.
  apply (poss_counts_exact plain possessions poss "1_Poss_1" "(no target)").
  reflexivity.
Defined.

Lemma poss_data_populated_witness :
  ∃ poss_data,
    count_poss plain possessions = Returned poss_data ∧ populated poss_data.
Proof.
  eexists. split; [reflexivity|].
  apply (proj2 (poss_data_populated plain possessions)). reflexivity.
Defined.

Lemma count_unit_key ns c data u cid :
  is_Some (count_unit ns c data u !! cid)
  <-> is_Some (data !! cid) ∨ counted cid (c, u) = true.
Proof.
  unfold count_unit, counted; cbn [fst snd].
  destruct (String.eqb_spec c cid) as [->|N].
  - destruct (PyStr.endswith (ET.get u "id" "") "_Name"); cbn [orb andb].
    { rewrite lookup_insert_eq. split; [by right|by eexists]. }
    destruct (PyStr.endswith (ET.get u "id" "") "_Desc_0").
    { rewrite lookup_insert_eq. split; [by right|by eexists]. }
    split; [by left|]. by intros [?|?].
  - cbn [andb].
    destruct (PyStr.endswith (ET.get u "id" "") "_Name").
    { rewrite lookup_insert_ne by done. split; [by left|]. by intros [?|?]. }
    destruct (PyStr.endswith (ET.get u "id" "") "_Desc_0").
    { rewrite lookup_insert_ne by done. split; [by left|]. by intros [?|?]. }
    split; [by left|]. by intros [?|?].
Qed.

Lemma visits_keys ns visits data cid :
  is_Some (fold_left (fun d visit => count_unit ns visit.1 d visit.2) visits data
           !! cid)
  <-> is_Some (data !! cid) ∨ existsb (counted cid) visits = true.
Proof.
  revert data; induction visits as [|[c u] vs IH]; intros data; simpl.
  { split; [by left|]. by intros [?|?]. }
  rewrite IH, count_unit_key. cbn [fst snd].
  rewrite orb_true_iff. tauto.
Qed.

Lemma visited_ids ns poss_group visit :
  In visit (visited_units ns poss_group) ->
  In visit.1 (List.map (fun child => ET.get child "id" "")
                       (findall_children_ns ns "group" poss_group)).
Proof.
  unfold visited_units. intros H. apply in_flat_map in H as (child & Hc & Hv).
  apply in_map_iff in Hv as (u & <- & _). cbn [fst].
  apply in_map_iff. by exists child.
Qed.

(** X19.  When the document has a [_Poss] group, the keys of the dictionary
    are exactly the ids under which some visited unit has an id ending in
    [_Name] or [_Desc_0]; each key is the id of a direct child group, so
    the number of entries, printed as the number of child groups found, is
    at most the number of direct child groups. *)
Theorem poss_keys_exact (ns : Namespaces) (root poss_group : Element)
    (child_id : string) :
  poss_group_of ns root = Some poss_group ->
  ∃ poss_data,
    count_poss ns root = Returned poss_data
    ∧ (is_Some (poss_data !! child_id)
       <-> existsb (counted child_id) (visited_units ns poss_group) = true)
    ∧ size poss_data
      <= length (findall_children_ns ns "group" poss_group).
Proof.
  intros Hg. unfold count_poss. rewrite Hg. eexists. split; [done|].
  rewrite count_poss_visits.
  assert (forall cid,
             is_Some (fold_left (fun d visit => count_unit ns visit.1 d visit.2)
                                (visited_units ns poss_group) ∅ !! cid)
             <-> existsb (counted cid) (visited_units ns poss_group) = true)
    as Hkeys.
  { intros cid. rewrite visits_keys, lookup_empty.
    split; [intros [[? ?]|?]; [done|done]|by right]. }
  split; [apply Hkeys|].
  set (data := fold_left _ _ _) in *.
  set (ids := List.map (fun child => ET.get child "id" "")
                       (findall_children_ns ns "group" poss_group)).
  assert (dom data ⊆ (list_to_set ids : gset string)) as Hsub.
  { intros cid Hin. apply elem_of_dom, Hkeys, existsb_exists in Hin
      as (visit & Hv & Hc).
    apply elem_of_list_to_set, list_elem_of_In.
    unfold counted in Hc. apply andb_true_iff in Hc as [Hc _].
    apply String.eqb_eq in Hc as <-. by apply (visited_ids ns). }
  rewrite <- size_dom. apply subseteq_size in Hsub.
  pose proof (size_list_to_set_le ids) as Hle.
  unfold ids in Hle at 2. rewrite length_map in Hle. lia.
Qed.

Lemma poss_keys_exact_witness :
  ∃ poss_data,
    count_poss plain possessions = Returned poss_data
    ∧ (is_Some (poss_data !! "1_Poss_2")
       <-> existsb (counted "1_Poss_2") (visited_units plain poss) = true)
    ∧ size poss_data <= length (findall_children_ns plain "group" poss).
Proof.
  apply (poss_keys_exact plain possessions poss "1_Poss_2"). reflexivity.
Defined.

(** ** The identical-translation report *)

Lemma not_case_line c rest :
  Ascii.eqb "C" c = false -> is_case_line (String c rest) = false.
Proof. intros H. unfold is_case_line. by rewrite prefix_cons, H. Qed.

Lemma decimal_not_case idx rest :
  is_case_line (decimal idx +:+ rest) = false
  \/ decimal idx = "".
Proof.
  unfold decimal, is_case_line.
  destruct (Nat.to_uint idx); simpl; rewrite ?append_cons, ?prefix_cons; auto.
Qed.

Lemma item_lines_no_case idx item :
  List.filter is_case_line (item_lines idx item) = [].
Proof.
  unfold item_lines.
  assert (is_case_line (decimal idx +:+ ". ID: " +:+ ir_id item +:+ line_end)
          = false) as H.
  { destruct (decimal_not_case idx (". ID: " +:+ ir_id item +:+ line_end))
      as [H| ->]; [done|reflexivity]. }
  cbn [List.filter]. rewrite H.
  rewrite !append_cons, !not_case_line by done.
  unfold line_end. by rewrite not_case_line.
Qed.

Lemma bar_not_case rest : is_case_line (rule_bar +:+ rest) = false.
Proof.
  unfold rule_bar. cbn [repeat_string]. rewrite !append_cons.
  by apply not_case_line.
Qed.

Lemma section_lines_case type :
  List.filter is_case_line (section_lines type) = [case_line type].
Proof.
  unfold section_lines. cbn [List.filter].
  unfold line_end at 1. rewrite append_cons, not_case_line by done.
  rewrite bar_not_case.
  unfold is_case_line at 1. by rewrite prefix_app.
Qed.

Lemma preamble_no_case n :
  List.filter is_case_line
    ["Found " +:+ decimal n +:+ " trans-unit(s)" +:+ line_end;
     rule_bar +:+ line_end +:+ line_end] = [].
Proof.
  cbn [List.filter]. rewrite bar_not_case.
  by rewrite append_cons, not_case_line.
Qed.

Lemma written_cases results w :
  List.filter is_case_line (written (fold_left write_item results w))
  = List.filter is_case_line (written w)
    ++ List.map case_line (sections (current_type w) results).
Proof.
  revert w; induction results as [|item rest IH]; intros w; cbn [fold_left].
  - simpl. by rewrite app_nil_r.
  - rewrite IH. unfold write_item at 1 2. cbn [written current_type sections].
    rewrite !List.filter_app, item_lines_no_case, app_nil_r, <- app_assoc.
    f_equal. rewrite List.map_app. f_equal.
    destruct (bool_decide (current_type w = Some (ir_type item))); [done|].
    apply section_lines_case.
Qed.

Lemma sections_app current l1 l2 :
  sections current (l1 ++ l2)
  = sections current l1 ++ sections (last_type current l1) l2.
Proof.
  revert current; induction l1 as [|x l1 IH]; intros current; [done|].
  simpl. rewrite IH, <- app_assoc. do 2 f_equal.
  unfold last_type. simpl. destruct (rev l1) as [|y r] eqn:E; simpl.
  - done.
  - by destruct r.
Qed.

Lemma of_type_types type results :
  Forall (fun r => ir_type r = type) (of_type type results).
Proof.
  apply List.Forall_forall. intros r Hr. unfold of_type in Hr.
  apply filter_In in Hr as [_ Hr]. by apply String.eqb_eq.
Qed.

Lemma sections_same type block :
  Forall (fun r => ir_type r = type) block ->
  sections (Some type) block = [].
Proof.
  induction 1 as [|y l Hy _ IH]; [done|].
  cbn [sections]. rewrite Hy, bool_decide_eq_true_2 by done. apply IH.
Qed.

Lemma last_type_uniform current type x block :
  Forall (fun r => ir_type r = type) (x :: block) ->
  last_type current (x :: block) = Some type.
Proof.
  intros H. unfold last_type. apply Forall_rev in H.
  destruct (rev (x :: block)) as [|y r] eqn:E.
  - apply (f_equal (@length _)) in E. by rewrite length_rev in E.
  - inversion H as [|? ? Hy _]. by rewrite Hy.
Qed.

Lemma sections_uniform current type block :
  Forall (fun r => ir_type r = type) block ->
  current <> Some type ->
  sections current block = (match block with [] => [] | _ :: _ => [type] end)
  ∧ last_type current block
    = match block with [] => current | _ :: _ => Some type end.
Proof.
  intros H Hc. destruct block as [|x block]; [done|]. split.
  - inversion H as [|? ? Hx Hb]; subst. cbn [sections].
    rewrite bool_decide_eq_false_2 by done.
    by rewrite sections_same.
  - by apply last_type_uniform.
Qed.

Lemma insert_by_length {A : Type} (key : A -> nat) x l :
  length (insert_by key x l) = S (length l).
Proof.
  induction l as [|y l IH]; simpl; [done|].
  destruct (Nat.leb (key x) (key y)); simpl; by rewrite ?IH.
Qed.

Lemma sort_by_length {A : Type} (key : A -> nat) l :
  length (sort_by key l) = length l.
Proof.
  induction l as [|x l IH]; simpl; [done|]. by rewrite insert_by_length, IH.
Qed.

Lemma sections_of_sorted root :
  sections None (sort_by (fun x => type_order (ir_type x))
                         (find_identical_translations root))
  = present comma_split_type (find_identical_translations root)
    ++ present approved_identical_type (find_identical_translations root)
    ++ present not_approved_identical_type (find_identical_translations root).
Proof.
  rewrite sort_by_buckets by (intros x; apply type_order_range).
  rewrite no_other_type, app_nil_r.
  rewrite (bucket_of_type 1 _ _ type_order_1),
    (bucket_of_type 2 _ _ type_order_2), (bucket_of_type 3 _ _ type_order_3).
  set (R := find_identical_translations root).
  pose proof (of_type_types comma_split_type R) as H1.
  pose proof (of_type_types approved_identical_type R) as H2.
  pose proof (of_type_types not_approved_identical_type R) as H3.
  unfold present. rewrite !sections_app.
  destruct (sections_uniform None _ _ H1) as [-> ->]; [done|].
  set (cur1 := match of_type comma_split_type R with
               | [] => None | _ :: _ => Some comma_split_type end).
  assert (cur1 <> Some approved_identical_type
          ∧ cur1 <> Some not_approved_identical_type) as [N2 N3].
  { subst cur1. by destruct (of_type comma_split_type R). }
  destruct (sections_uniform cur1 _ _ H2 N2) as [-> ->].
  set (cur2 := match of_type approved_identical_type R with
               | [] => cur1 | _ :: _ => Some approved_identical_type end).
  assert (cur2 <> Some not_approved_identical_type) as N3'.
  { subst cur2. by destruct (of_type approved_identical_type R). }
  by destruct (sections_uniform cur2 _ _ H3 N3') as [-> _].
Qed.

(** X15.  In the written report each rule that fired opens exactly one
    section, and the sections come in the order comma-split, approved and
    suppressed, not approved: the [CASE:] lines are the names of the kinds
    that have a record, once each, in that order.  No file is written
    exactly when no record was found. *)
Theorem one_section_per_rule (root : Element) :
  match identical_report (Some root) with
  | Returned (Some lines) =>
    find_identical_translations root <> []
    ∧ List.filter is_case_line lines
      = List.map case_line
          (present comma_split_type (find_identical_translations root)
           ++ present approved_identical_type (find_identical_translations root)
           ++ present not_approved_identical_type
                (find_identical_translations root))
  | Returned None => find_identical_translations root = []
  | _ => False
  end.
Proof.
  unfold identical_report, identical_main.
  pose proof (sections_of_sorted root) as Hs.
  pose proof (sort_by_length (fun x => type_order (ir_type x))
                (find_identical_translations root)) as Hl.
  destruct (sort_by _ (find_identical_translations root)) as [|x l].
  - simpl. by destruct (find_identical_translations root).
  - split.
    { intros E. rewrite E in Hl. discriminate Hl. }
    unfold write_identical. rewrite written_cases. cbn [written current_type].
    by rewrite preamble_no_case, Hs.
Qed.

Example export_sections :
  match identical_report (Some export) with
  | Returned (Some lines) =>
    List.filter is_case_line lines
    = ["CASE: APPROVED (COMMA-SPLIT)" +:+ line_end;
       "CASE: APPROVED + TRANSLATE=NO (IDENTICAL)" +:+ line_end;
       "CASE: NOT APPROVED (IDENTICAL)" +:+ line_end]
    ∧ length lines = 2 + 3 * 3 + 4 * 6
  | _ => False
  end.
Proof. vm_compute. split; reflexivity. Qed.

(** ** Interactive sorting *)

(** Row 1 is a typo, row 2 gets a new group and an old one, the session
    ends before row 3. *)
Example sorting_session :
  sort_comparisons comparison_fs 3 4 None ["4"; "`5"; "accent"; ""; ""]
  = Finished
      [join_with tab ["Abbr"; "Name Source"; "Content Before"; "Content After";
                      "accent"; "article/preposition"; "typo"] +:+ line_end;
       join_with tab ["1"; "Sky"; "Ceu"; "Ceus"; "0"; "0"; "1"] +:+ line_end;
       join_with tab ["2"; "Sun"; "Sol"; "O sol"; "1"; "1"; "0"] +:+ line_end].
Proof. vm_compute. reflexivity. Qed.

Example sorting_cancelled :
  sort_comparisons comparison_fs 3 4 None ["4"] = Exited 0.
Proof. vm_compute. reflexivity. Qed.

Example sorting_bad_column :
  sort_comparisons comparison_fs 3 5 None ["4"] = Exited 1.
Proof. vm_compute. reflexivity. Qed.

(** The same session on a file system that refuses the output file, and on
    one that cannot make the default directory. *)
Example sorting_unwritable :
  sort_comparisons {| input_lines := Some comparison_file; makedirs_ok := true;
                      output_ok := false |}
                   3 4 None ["4"; "`5"; "accent"; ""; ""]
  = Exited 1.
Proof. vm_compute. reflexivity. Qed.

Example sorting_no_directory :
  sort_comparisons {| input_lines := Some comparison_file; makedirs_ok := false;
                      output_ok := true |}
                   3 4 None ["4"; "`5"; "accent"; ""; ""]
  = Raised "OSError".
Proof. vm_compute. reflexivity. Qed.

Lemma replace_from_nonempty c s :
  s <> "" -> PyStr.replace "`" (String c "") s <> "".
Proof.
  destruct s as [|a s]; [done|]. intros _. unfold PyStr.replace.
  rewrite replace_from_cons. by destruct (String.prefix "`" (String a s)).
Qed.

Lemma next_char_unassigned gc c : next_char gc = Some c -> gc !! c = None.
Proof.
  unfold next_char. intros H. apply find_some in H as [_ H].
  unfold unassigned in H. by destruct (gc !! c).
Qed.

Lemma names_of_valid gc choice :
  invalid_chars gc choice = [] -> choice <> "" ->
  names_of gc choice <> []
  ∧ Forall (fun g => ∃ c, gc !! c = Some g) (names_of gc choice).
Proof.
  unfold invalid_chars, names_of. intros Hv Hne. split.
  - destruct choice; [done|]. done.
  - apply Forall_map, List.Forall_forall. intros c Hc. exists c.
    destruct (gc !! c) as [g|] eqn:E.
    + by rewrite (lookup_total_correct _ _ _ E).
    + exfalso. assert (In c (List.filter (unassigned gc) (list_ascii_of_string choice))) as Hin.
      { apply filter_In. split; [done|]. unfold unassigned. by rewrite E. }
      by rewrite Hv in Hin.
Qed.

Lemma choice_ok_later gc gc' inputs inputs' result :
  gc ⊆ gc' -> length inputs' <= length inputs ->
  choice_ok gc' inputs' result -> choice_ok gc inputs result.
Proof.
  intros Hsub Hlen. destruct result as [groups g rest|g rest|]; simpl; [| |done].
  - intros (? & ? & ? & ?). repeat split; [done|by etrans|done|lia].
  - intros (? & ?). split; [by etrans|lia].
Qed.

Lemma get_user_choice_ok_bounded n gc inputs :
  length inputs <= n -> choice_ok gc inputs (get_user_choice gc inputs).
Proof.
  revert gc inputs. induction n as [|n IH]; intros gc inputs Hn.
  { destruct inputs; [done|simpl in Hn; lia]. }
  destruct inputs as [|line rest]; [done|]. simpl in Hn.
  cbn [get_user_choice].
  destruct (String.eqb_spec (PyStr.strip line) "") as [E|E].
  { destruct rest as [|line2 rest2]; [done|]. simpl in Hn.
    destruct (String.eqb (PyStr.strip line2) "").
    - simpl. split; [done|lia].
    - apply (choice_ok_later gc gc _ rest2); [done|simpl; lia|].
      apply IH. lia. }
  destruct (PyStr.contains "`" (PyStr.strip line)).
  { destruct rest as [|line2 rest2]; [done|]. simpl in Hn.
    destruct (String.eqb (PyStr.strip line2) "").
    { apply (choice_ok_later gc gc _ rest2); [done|simpl; lia|].
      apply IH. lia. }
    destruct (next_char gc) as [c|] eqn:Hc.
    2:{ apply (choice_ok_later gc gc _ rest2); [done|simpl; lia|].
        apply IH. lia. }
    assert (gc ⊆ <[c := PyStr.strip line2]> gc) as Hsub
      by (apply insert_subseteq, next_char_unassigned, Hc).
    destruct (invalid_chars _ _) eqn:Hv.
    - destruct (names_of_valid _ _ Hv (replace_from_nonempty c _ E)).
      simpl. repeat split; [done..|lia].
    - apply (choice_ok_later gc (<[c := PyStr.strip line2]> gc) _ rest2);
        [done|simpl; lia|].
      apply IH. lia. }
  destruct (invalid_chars gc (PyStr.strip line)) eqn:Hv.
  - destruct (names_of_valid _ _ Hv E).
    simpl. repeat split; [done..|lia].
  - apply (choice_ok_later gc gc _ rest); [done|simpl; lia|].
    apply IH. lia.
Qed.

(** X16.  Whatever the operator types, a call of [get_user_choice] that
    returns a selection returns at least one group name, each the name of a
    key of the dictionary as the call leaves it; the call only adds keys to
    the dictionary and never changes the name of an existing key; and it
    consumes at least one answer. *)
Theorem get_user_choice_sound (group_chars : gmap ascii string)
    (inputs : list string) :
  match get_user_choice group_chars inputs with
  | Selected selected_groups group_chars' rest =>
    selected_groups <> []
    ∧ group_chars ⊆ group_chars'
    ∧ Forall (fun g => ∃ c, group_chars' !! c = Some g) selected_groups
    ∧ length rest < length inputs
  | EndEarly group_chars' rest =>
    group_chars ⊆ group_chars' ∧ length rest < length inputs
  | Cancelled => True
  end.
Proof. apply (get_user_choice_ok_bounded (length inputs)). lia. Qed.

Lemma labelled_weaken gc gc' groups :
  gc ⊆ gc' -> labelled gc groups -> labelled gc' groups.
Proof.
  intros Hsub H j set Hj. destruct (H j set Hj) as [Hne Hall].
  split; [done|]. intros g Hg. destruct (Hall g Hg) as [c Hc].
  exists c. by eapply lookup_weaken.
Qed.

Lemma sort_rows_invariant data rows i gc groups inputs s :
  i + length rows = length data ->
  covers groups i -> labelled gc groups ->
  sort_rows data rows i gc groups inputs = Finished s ->
  ∃ n, n <= length data ∧ kept s = firstn n data
       ∧ covers (row_groups s) n
       ∧ labelled (final_chars s) (row_groups s)
       ∧ gc ⊆ final_chars s.
Proof.
  revert i gc groups inputs.
  induction rows as [|row rows IH]; intros i gc groups inputs Hi Hc Hl; simpl.
  - intros [= <-]. exists i. simpl in *. rewrite Nat.add_0_r in Hi. subst i.
    by rewrite firstn_all.
  - pose proof (get_user_choice_ok_bounded (length inputs) gc inputs
                  (Nat.le_refl _)) as Hok.
    destruct (get_user_choice gc inputs) as [sel gc' rest|gc' rest|]; [| |done].
    + destruct Hok as (Hne & Hsub & Hall & _). intros Hs.
      apply IH in Hs as (n & ? & ? & ? & ? & ?).
      * exists n. do 4 (split; [done|]). by etrans.
      * simpl in Hi. lia.
      * intros j. destruct (decide (i = j)) as [<-|N].
        -- rewrite lookup_insert_eq. split; [lia|eauto].
        -- rewrite lookup_insert_ne by done. rewrite (Hc j). lia.
      * intros j set. destruct (decide (i = j)) as [<-|N].
        -- rewrite lookup_insert_eq. intros [= <-]. split.
           ++ destruct sel as [|g sel]; [done|]. set_solver.
           ++ intros g Hg. apply elem_of_list_to_set in Hg.
              rewrite Forall_forall in Hall. by apply Hall.
        -- rewrite lookup_insert_ne by done.
           apply (labelled_weaken gc gc' groups Hsub Hl).
    + destruct Hok as [Hsub _]. intros [= <-]. exists i. simpl in *.
      split; [lia|]. split; [done|]. split; [done|].
      split; [by apply (labelled_weaken gc gc')|done].
Qed.

Lemma insert_string_In x l g : In g (insert_string x l) <-> g = x \/ In g l.
Proof.
  induction l as [|y l IH]; simpl; [intuition congruence|].
  destruct (String.leb x y); simpl; [intuition congruence|].
  rewrite IH. intuition congruence.
Qed.

Lemma sorted_strings_In l g : In g (sorted_strings l) <-> In g l.
Proof.
  induction l as [|x l IH]; simpl; [done|].
  rewrite insert_string_In, IH. intuition congruence.
Qed.

Lemma insert_string_NoDup x l :
  ~ In x l -> List.NoDup l -> List.NoDup (insert_string x l).
Proof.
  induction l as [|y l IH]; simpl; intros Hx Hl.
  - constructor; [tauto|constructor].
  - destruct (String.leb x y).
    + by constructor.
    + inversion Hl as [|? ? Hy Hl']; subst. constructor.
      * rewrite insert_string_In. intuition congruence.
      * apply IH; tauto.
Qed.

Lemma sorted_strings_NoDup l : List.NoDup l -> List.NoDup (sorted_strings l).
Proof.
  induction 1 as [|x l Hx _ IH]; simpl; [constructor|].
  apply insert_string_NoDup; [|done]. by rewrite sorted_strings_In.
Qed.

Lemma used_groups_In groups g :
  In g (used_groups groups) <-> ∃ j set, groups !! j = Some set ∧ g ∈ set.
Proof.
  unfold used_groups.
  rewrite sorted_strings_In, <- list_elem_of_In, elem_of_elements,
    elem_of_union_list.
  split.
  - intros (set & Hset & Hg). apply list_elem_of_fmap in Hset as ([j s] & -> & Hjs).
    apply elem_of_map_to_list in Hjs. eauto.
  - intros (j & set & Hj & Hg). exists set. split; [|done].
    apply list_elem_of_fmap. exists (j, set). split; [done|].
    by apply elem_of_map_to_list.
Qed.

Lemma row_lines_length groups i rows :
  length (row_lines groups i rows) = length rows.
Proof.
  revert i; induction rows as [|r rows IH]; intros i; simpl; [done|].
  by rewrite IH.
Qed.

(** X17.  When the sorting session finishes, the rows written are a
    prefix of the data rows; the default groups still have their keys; the
    group columns are distinct names, each a name in the final dictionary;
    every written row gets one membership column per used group and at
    least one of them is "1"; and the report has one line more than the
    rows kept. *)
Theorem sorted_rows_grouped (data : list (list string)) (inputs : list string)
    (header : list string) (s : Sorting) :
  sort_rows data data 0 default_groups ∅ inputs = Finished s ->
  (∃ n, n <= length data ∧ kept s = firstn n data)
  ∧ default_groups ⊆ final_chars s
  ∧ List.NoDup (used_groups (row_groups s))
  ∧ Forall (fun g => ∃ c, final_chars s !! c = Some g)
           (used_groups (row_groups s))
  ∧ (forall j, j < length (kept s) ->
               length (group_values (row_groups s) j)
               = length (used_groups (row_groups s))
               ∧ In "1" (group_values (row_groups s) j))
  ∧ length (sorted_report header s) = S (length (kept s)).
Proof.
  intros Hs.
  apply sort_rows_invariant in Hs as (n & Hn & Hk & Hc & Hl & Hsub).
  2:{ done. }
  2:{ intros j. rewrite lookup_empty. split; [by intros [? ?]|lia]. }
  2:{ intros j set. by rewrite lookup_empty. }
  split; [eauto|]. split; [done|]. split; [|split; [|split]].
  - unfold used_groups. apply sorted_strings_NoDup.
    apply NoDup_ListNoDup, NoDup_elements.
  - apply List.Forall_forall. intros g Hg.
    apply used_groups_In in Hg as (j & set & Hj & Hg).
    by apply (Hl j set Hj).
  - intros j Hj. split; [apply length_map|].
    assert (j < n) as Hjn.
    { rewrite Hk, length_firstn in Hj. lia. }
    apply Hc in Hjn as [set Hset]. destruct (Hl j set Hset) as [Hne _].
    apply set_choose_L in Hne as [g Hg].
    unfold group_values. apply in_map_iff. exists g. split.
    + rewrite Hset. simpl. by rewrite bool_decide_eq_true_2.
    + apply used_groups_In. eauto.
  - unfold sorted_report. simpl. by rewrite row_lines_length.
Qed.

Lemma sorted_rows_grouped_witness :
  ∃ s,
    sort_rows comparison_rows comparison_rows 0 default_groups ∅
              ["4"; "`5"; "accent"; ""; ""] = Finished s
    ∧ (∃ n, n <= length comparison_rows ∧ kept s = firstn n comparison_rows)
    ∧ default_groups ⊆ final_chars s
    ∧ List.NoDup (used_groups (row_groups s))
    ∧ Forall (fun g => ∃ c, final_chars s !! c = Some g)
             (used_groups (row_groups s))
    ∧ (forall j, j < length (kept s) ->
                 length (group_values (row_groups s) j)
                 = length (used_groups (row_groups s))
                 ∧ In "1" (group_values (row_groups s) j))
    ∧ length (sorted_report ["Abbr"] s) = S (length (kept s)).
Proof.
  eexists. split; [vm_compute; reflexivity|].
  apply (sorted_rows_grouped comparison_rows ["4"; "`5"; "accent"; ""; ""]).
  vm_compute. reflexivity.
Defined.

Lemma sort_rows_exit data rows i gc groups inputs :
  match sort_rows data rows i gc groups inputs with
  | Finished s => length (kept s) <= length data
  | Exited code => code = 0
  | Raised _ => False
  end.
Proof.
  revert i gc groups inputs.
  induction rows as [|row rows IH]; intros i gc groups inputs; simpl; [done|].
  destruct (get_user_choice gc inputs) as [sel gc' rest|gc' rest|];
    [apply IH| |done].
  cbn [kept]. rewrite length_firstn. lia.
Qed.

(** X20.  [sort_comparisons] exits with status 1 when the input file
    cannot be read or has no line, and when a column number is outside the
    header, whatever the operator would have typed.  Every run ends in one
    of these ways: status 1 for one of those two reasons; an uncaught
    [OSError] when no output file is given and the default directory
    cannot be made; status 0 when the operator's input ends before the
    rows are sorted; status 1 when the session finishes and the output
    cannot be written; or the session finishes and the output is written,
    with the header line and at most one line per data row. *)
Theorem sort_comparisons_exits (fs : FileSystem) (col1 col2 : Z)
    (output_file : option string) (inputs : list string) :
  (read_tsv_file (input_lines fs) = Exited 1
   <-> input_lines fs = None ∨ input_lines fs = Some [])
  ∧ (read_tsv_file (input_lines fs) = Exited 1 ->
     sort_comparisons fs col1 col2 output_file inputs = Exited 1)
  ∧ (forall header data,
       read_tsv_file (input_lines fs) = Finished (header, data) ->
       valid_columns header col1 col2 = false ->
       sort_comparisons fs col1 col2 output_file inputs = Exited 1)
  ∧ match sort_comparisons fs col1 col2 output_file inputs with
    | Finished report =>
      ∃ header data,
        read_tsv_file (input_lines fs) = Finished (header, data)
        ∧ valid_columns header col1 col2 = true
        ∧ output_dir_made fs output_file = true
        ∧ output_ok fs = true
        ∧ 1 <= length report <= S (length data)
    | Exited code =>
      (code = 1 ∧ read_tsv_file (input_lines fs) = Exited 1)
      ∨ ∃ header data,
          read_tsv_file (input_lines fs) = Finished (header, data)
          ∧ ((code = 1 ∧ valid_columns header col1 col2 = false)
             ∨ (valid_columns header col1 col2 = true
                ∧ output_dir_made fs output_file = true
                ∧ ((code = 0
                    ∧ sort_rows data data 0 default_groups ∅ inputs = Exited 0)
                   ∨ (code = 1 ∧ output_ok fs = false
                      ∧ ∃ s, sort_rows data data 0 default_groups ∅ inputs
                             = Finished s))))
    | Raised exn =>
      exn = "OSError" ∧ output_file = None ∧ makedirs_ok fs = false
      ∧ ∃ header data,
          read_tsv_file (input_lines fs) = Finished (header, data)
          ∧ valid_columns header col1 col2 = true
    end.
Proof.
  split; [|split; [|split]].
  - destruct (input_lines fs) as [[|first others]|]; simpl;
      intuition congruence.
  - unfold sort_comparisons. by intros ->.
  - unfold sort_comparisons, valid_columns. intros header data -> H.
    apply negb_false_iff in H. by rewrite H.
  - unfold sort_comparisons.
    destruct (input_lines fs) as [[|first others]|]; cbn [read_tsv_file];
      [by left| |by left].
    set (header := PyStr.split tab_char (PyStr.strip first)).
    set (data := List.map _ _).
    assert (valid_columns header col1 col2
            = negb ((col1 <? 1) || (Z.of_nat (length header) <? col1)
                    || (col2 <? 1) || (Z.of_nat (length header) <? col2))%Z)
      as Hv by reflexivity.
    revert Hv. destruct (_ || _ || _ || _)%Z; cbn [negb]; intros Hv.
    { right. exists header, data. split; [done|]. by left. }
    destruct (output_dir_made fs output_file) eqn:D; cbn [negb].
    2: { split; [done|]. destruct output_file; [done|].
         split; [done|]. split; [done|]. by exists header, data. }
    pose proof (sort_rows_exit data data 0 default_groups ∅ inputs) as Hs.
    revert Hs.
    destruct (sort_rows data data 0 default_groups ∅ inputs) as [s|code|exn]
      eqn:E; intros Hs; [|subst code|done].
    + destruct (output_ok fs) eqn:W.
      * exists header, data. repeat (split; [done|]).
        unfold sorted_report. cbn [length]. rewrite row_lines_length. lia.
      * right. exists header, data. split; [done|]. right.
        do 2 (split; [done|]). right. split; [done|]. split; [done|].
        by exists s.
    + right. exists header, data. split; [done|]. right.
      do 2 (split; [done|]). by left.
Qed.

Lemma sort_comparisons_exits_witness :
  sort_comparisons {| input_lines := None; makedirs_ok := true;
                      output_ok := true |} 3 4 None ["4"]
  = Exited 1
  ∧ sort_comparisons comparison_fs 3 5 None ["4"] = Exited 1.
Proof.
  split.
  - apply (proj1 (proj2 (sort_comparisons_exits
                           {| input_lines := None; makedirs_ok := true;
                              output_ok := true |} 3 4 None ["4"]))).
    reflexivity.
  - apply (proj1 (proj2 (proj2 (sort_comparisons_exits comparison_fs 3 5 None
                                                       ["4"])))
             ["Abbr"; "Name Source"; "Content Before"; "Content After"]
             comparison_rows).
    + vm_compute. reflexivity.
    + reflexivity.
Defined.

(** ** The patterns of extraction and the suffix tests of resolution *)

Lemma chars_app a b :
  list_ascii_of_string (a +:+ b)
  = list_ascii_of_string a ++ list_ascii_of_string b.
Proof.
  induction a as [|c a IH]; rewrite ?append_nil, ?append_cons; simpl; [done|].
  by rewrite IH.
Qed.

Lemma string_of_chars_app l b :
  string_of_list_ascii (l ++ list_ascii_of_string b)
  = string_of_list_ascii l +:+ b.
Proof.
  induction l as [|c l IH]; simpl.
  - rewrite append_nil. apply string_of_list_ascii_of_string.
  - by rewrite IH, append_cons.
Qed.

Lemma endswith_refl s : PyStr.endswith s s = true.
Proof. destruct s; [done|]. by rewrite endswith_cons, String.eqb_refl. Qed.

Lemma endswith_spec s suf :
  PyStr.endswith s suf = true <-> ∃ p, s = p +:+ suf.
Proof.
  split.
  - induction s as [|c s IH].
    + simpl. destruct suf; [|done]. by exists "".
    + rewrite endswith_cons.
      destruct (String.eqb_spec (String c s) suf) as [<-|_]; [by exists ""|].
      intros H. destruct (IH H) as [p ->]. by exists (String c p).
  - intros [p ->]. induction p as [|c p IH]; rewrite ?append_nil, ?append_cons.
    + apply endswith_refl.
    + rewrite endswith_cons. by destruct (String.eqb _ suf).
Qed.

Lemma is_prefix_spec p l : is_prefix p l = true <-> ∃ r, l = p ++ r.
Proof.
  revert l; induction p as [|a p IH]; intros l; simpl.
  - split; [by exists l|done].
  - destruct l as [|b l]; [split; [done|by intros [r [=]]]|].
    rewrite andb_true_iff, IH. split.
    + intros [E [r ->]]. apply Ascii.eqb_eq in E as ->. by exists r.
    + intros [r [= -> ->]]. rewrite Ascii.eqb_refl. eauto.
Qed.

(** A suffix test is a prefix test on the reversed texts. *)
Lemma endswith_reversed s suf :
  PyStr.endswith s suf
  = is_prefix (rev (list_ascii_of_string suf)) (rev (list_ascii_of_string s)).
Proof.
  apply eq_true_iff_eq. rewrite endswith_spec, is_prefix_spec. split.
  - intros [p ->]. exists (rev (list_ascii_of_string p)).
    by rewrite chars_app, rev_app_distr.
  - intros [r Hr]. exists (string_of_list_ascii (rev r)).
    rewrite <- string_of_chars_app.
    rewrite <- (rev_involutive (list_ascii_of_string suf)), <- rev_app_distr, <- Hr.
    by rewrite rev_involutive, string_of_list_ascii_of_string.
Qed.

Lemma search_suffix_name s :
  search_suffix "_Name" s
  = PyStr.endswith s "_Name" || PyStr.endswith s ("_Name" +:+ line_end).
Proof.
  rewrite !endswith_reversed. unfold search_suffix, before_final_newline.
  destruct (rev (list_ascii_of_string s)) as [|c r]; [done|].
  change (rev (list_ascii_of_string ("_Name" +:+ line_end)))
    with (newline :: rev (list_ascii_of_string "_Name")).
  change (rev (list_ascii_of_string "_Name")) with ["e"; "m"; "a"; "N"; "_"]%char.
  cbn [is_prefix].
  destruct (Ascii.eqb_spec c newline) as [->|N].
  - rewrite Ascii.eqb_refl. simpl. by destruct r.
  - assert (Ascii.eqb newline c = false) as ->
      by (apply Ascii.eqb_neq; congruence).
    simpl. by rewrite orb_false_r.
Qed.

Lemma search_suffix_desc s :
  search_suffix "_Desc_0" s
  = PyStr.endswith s "_Desc_0" || PyStr.endswith s ("_Desc_0" +:+ line_end).
Proof.
  rewrite !endswith_reversed. unfold search_suffix, before_final_newline.
  destruct (rev (list_ascii_of_string s)) as [|c r]; [done|].
  change (rev (list_ascii_of_string ("_Desc_0" +:+ line_end)))
    with (newline :: rev (list_ascii_of_string "_Desc_0")).
  change (rev (list_ascii_of_string "_Desc_0"))
    with ["0"; "_"; "c"; "s"; "e"; "D"; "_"]%char.
  cbn [is_prefix].
  destruct (Ascii.eqb_spec c newline) as [->|N].
  - rewrite Ascii.eqb_refl. simpl. by destruct r.
  - assert (Ascii.eqb newline c = false) as ->
      by (apply Ascii.eqb_neq; congruence).
    simpl. by rewrite orb_false_r.
Qed.

(** X18.  The name and description patterns of extraction accept the ids
    the suffix tests of snapshot resolution accept, and also the ids that
    end in the suffix followed by one newline; on an id that does not end
    in a newline the two scripts agree. *)
Theorem patterns_match_suffixes (unit_id : string) :
  pattern name unit_id
  = PyStr.endswith unit_id "_Name"
    || PyStr.endswith unit_id ("_Name" +:+ line_end)
  ∧ pattern description unit_id
    = PyStr.endswith unit_id "_Desc_0"
      || PyStr.endswith unit_id ("_Desc_0" +:+ line_end)
  ∧ (PyStr.endswith unit_id line_end = false ->
     pattern name unit_id = PyStr.endswith unit_id "_Name"
     ∧ pattern description unit_id = PyStr.endswith unit_id "_Desc_0").
Proof.
  cbn [pattern]. rewrite search_suffix_name, search_suffix_desc.
  split; [done|]. split; [done|]. intros H.
  assert (forall suf, PyStr.endswith unit_id (suf +:+ line_end) = false) as Hn.
  { intros suf. destruct (PyStr.endswith unit_id (suf +:+ line_end)) eqn:E; [|done].
    apply endswith_spec in E as [p ->].
    assert (PyStr.endswith (p +:+ suf +:+ line_end) line_end = true) as E.
    { apply endswith_spec. exists (p +:+ suf).
      clear. induction p as [|c p IH]; rewrite ?append_nil, ?append_cons; [done|].
      by rewrite IH. }
    congruence. }
  by rewrite !Hn, !orb_false_r.
Qed.

Lemma patterns_match_suffixes_witness :
  pattern name "1_Name" = PyStr.endswith "1_Name" "_Name"
  ∧ pattern description "1_Name" = PyStr.endswith "1_Name" "_Desc_0".
Proof.
  apply (patterns_match_suffixes "1_Name"). reflexivity.
Defined.

(** An id that ends in a newline is a name for extraction and not for
    resolution. *)
Example newline_id :
  pattern name ("1_Name" +:+ line_end) = true
  ∧ PyStr.endswith ("1_Name" +:+ line_end) "_Name" = false.
Proof. split; reflexivity. Qed.
